(** * Vendor_Payments.py: the cleaning and aggregation pipeline

    A shallow embedding of [src/Vendor_Payments/Vendor_Payments.py].  The
    script passes one pandas [DataFrame] through [clean_data] and then
    through the aggregations; each Python function is a Rocq function of the
    same name, and each pandas call it makes is a small function here.

    Conventions of the model.
    - A cell is a Python object: a missing marker (NaN, None, NaT), a [str],
      a number or a timestamp.  Numbers are exact rationals ([Q]); IEEE
      rounding, infinities and overflow are outside the model.
    - A [str] is the sequence of its UTF-8 bytes.  White space and case are
      those of ASCII and of one letter beyond it, U+01F0, whose title case
      takes two characters; every other byte above 127 is neither white
      space nor a letter.  On ASCII text [PyStr.strip] and [PyStr.title] are
      Python's [str.strip] and [str.title]; beyond it they are not (Python
      strips U+00A0 and title-cases every letter of Unicode), and a theorem
      that states which text the code produces states it for ASCII text.
    - An exception is a value: a function that can raise returns a [result].
    - [print], [plt.show] and [to_csv] are recorded as a list of [event]s.
    - What pandas parses as a date or as a number, and which columns its
      [.str] accessor accepts, is an interface ([Parsers]); the laws the
      proofs use are in [ParsersOk], and [iso_parsers] is an instance. *)

From Stdlib Require Import Ascii String.
From Stdlib Require Import List Bool Arith ZArith QArith Lia.
From Stdlib Require Import Permutation Sorted.
From Stdlib Require Import Qround.
Import ListNotations.

Close Scope Q_scope.
Local Open Scope string_scope.
Local Open Scope list_scope.
Local Open Scope nat_scope.

(** ** Python [str] methods *)

Module PyStr.

Definition code (c : ascii) : nat := nat_of_ascii c.

(** [str.isspace] on one character: TAB..CR, FS..US and the space. *)
Definition isspace (c : ascii) : bool :=
  ((9 <=? code c) && (code c <=? 13)) || ((28 <=? code c) && (code c <=? 32)).

Definition isupper (c : ascii) : bool := (65 <=? code c) && (code c <=? 90).
Definition islower (c : ascii) : bool := (97 <=? code c) && (code c <=? 122).

(** A cased character: one that has an upper and a lower case form. *)
Definition iscased (c : ascii) : bool := isupper c || islower c.

Definition upper (c : ascii) : ascii :=
  if islower c then ascii_of_nat (code c - 32) else c.
Definition lower (c : ascii) : ascii :=
  if isupper c then ascii_of_nat (code c + 32) else c.

Definition is_empty (s : string) : bool :=
  match s with EmptyString => true | String _ _ => false end.

Fixpoint lstrip (s : string) : string :=
  match s with
  | EmptyString => EmptyString
  | String c t => if isspace c then lstrip t else s
  end.

Fixpoint rstrip (s : string) : string :=
  match s with
  | EmptyString => EmptyString
  | String c t =>
      let t' := rstrip t in
      if isspace c && is_empty t' then EmptyString else String c t'
  end.

(** [s.strip()], for the white space of ASCII. *)
Definition strip (s : string) : string := rstrip (lstrip s).

(** A cased character after a cased character is lower-cased; after any
    other character, or at the start, it is title-cased. *)
Definition recase (prev_cased : bool) (c : ascii) : ascii :=
  if iscased c then (if prev_cased then lower c else upper c) else c.

(** U+01F0, LATIN SMALL LETTER J WITH CARON: a lower-case letter that has
    no title-case character of its own.  Unicode title-cases it to J
    followed by U+030C, COMBINING CARON, which is not a cased character. *)
Definition j_caron : string := String "199" (String "176" EmptyString).
Definition J_and_caron : string :=
  String "J" (String "204" (String "140" EmptyString)).

Definition is_j_caron (c d : ascii) : bool :=
  (code c =? 199) && (code d =? 176).

(** [s.title()] for the letters of ASCII and U+01F0, character by
    character; [prev_cased] tells whether the character before was cased. *)
Fixpoint title_from (prev_cased : bool) (s : string) : string :=
  match s with
  | EmptyString => EmptyString
  | String c t =>
      let plain := String (recase prev_cased c) (title_from (iscased c) t) in
      match t with
      | String d t' =>
          if is_j_caron c d
          then (if prev_cased then j_caron else J_and_caron) ++ title_from true t'
          else plain
      | EmptyString => plain
      end
  end.

Definition title (s : string) : string := title_from false s.

(** Text of ASCII characters only. *)
Fixpoint ascii_text (s : string) : bool :=
  match s with
  | EmptyString => true
  | String c t => (code c <? 128) && ascii_text t
  end.

(** [s.replace(old, new)] for one-character [old] and [new]. *)
Fixpoint replace (old new : ascii) (s : string) : string :=
  match s with
  | EmptyString => EmptyString
  | String c t =>
      String (if Ascii.eqb c old then new else c) (replace old new t)
  end.

(** [y] has a visible character wherever [x] has one. *)
Inductive ink_kept : string -> string -> Prop :=
| ink_nil : ink_kept EmptyString EmptyString
| ink_cons c d x y :
    (isspace c = false -> isspace d = false) ->
    ink_kept x y -> ink_kept (String c x) (String d y).

End PyStr.

(** ** Cells, rows, tables *)

(** A pandas [Timestamp], by its calendar fields. *)
Record Timestamp := mkTimestamp {
  ts_year : Z;
  ts_month : Z;
  ts_day : Z;
  ts_nanos : Z   (* nanoseconds since midnight *)
}.

Inductive value :=
| VNull
| VStr (s : string)
| VNum (q : Q)
| VDate (t : Timestamp).

Definition notnull (v : value) : bool :=
  match v with VNull => false | _ => true end.

Definition is_str (v : value) : bool :=
  match v with VStr _ => true | _ => false end.

Definition is_num (v : value) : bool :=
  match v with VNum _ => true | _ => false end.

Definition is_date (v : value) : bool :=
  match v with VDate _ => true | _ => false end.

(** A row carries its index label; [cells] follow the column order. *)
Record Row := mkRow {
  label : nat;
  cells : list value
}.

Record DataFrame := mkDF {
  columns : list string;
  rows : list Row
}.

Definition cell (i : nat) (r : Row) : value := nth i (cells r) VNull.

(** ** Exceptions *)

(** [Unmodelled] is not a Python exception.  It marks a table in which a
    label that an analysis step reads is carried by several columns and
    pandas goes on with a sub-frame; [clean_data] returns no such table, and
    the model of the step stops there. *)
Inductive exn :=
| KeyError (keys : list string)
| AttributeError
| TypeError
| ValueError
| Unmodelled.

Inductive result (A : Type) :=
| Ok (a : A)
| Raise (e : exn).
Arguments Ok {A} a.
Arguments Raise {A} e.

Definition bind {A B : Type} (m : result A) (k : A -> result B) : result B :=
  match m with
  | Ok a => k a
  | Raise e => Raise e
  end.

Notation "x <- m ;; k" := (bind m (fun x => k))
  (at level 61, m at next level, right associativity).

(** ** Column access *)

(** The positions at which a column name occurs. *)
Fixpoint positions_from (i : nat) (name : string) (cols : list string) : list nat :=
  match cols with
  | [] => []
  | c :: cols' =>
      if String.eqb c name then i :: positions_from (S i) name cols'
      else positions_from (S i) name cols'
  end.

Definition positions (name : string) (cols : list string) : list nat :=
  positions_from 0 name cols.

(** [name in df.columns] *)
Definition has_column (name : string) (df : DataFrame) : bool :=
  existsb (String.eqb name) (columns df).

(** What [df[name]] evaluates to: a [Series] when the name labels one
    column, a sub-frame when it labels several. *)
Inductive selection :=
| Series (i : nat) (vs : list value)
| Frame (ps : list nat).

(** [df[name]] *)
Definition getitem (name : string) (df : DataFrame) : result selection :=
  match positions name (columns df) with
  | [] => Raise (KeyError [name])
  | [i] => Ok (Series i (map (cell i) (rows df)))
  | ps => Ok (Frame ps)
  end.

(** One row of [df[name] = vs]: the cell under every column called [name]. *)
Fixpoint set_where (cols : list string) (name : string) (v : value)
         (cs : list value) : list value :=
  match cols, cs with
  | c :: cols', x :: cs' =>
      (if String.eqb c name then v else x) :: set_where cols' name v cs'
  | _, _ => cs
  end.

Definition assign (cols : list string) (name : string) (v : value) (r : Row) : Row :=
  mkRow (label r) (set_where cols name v (cells r)).

(** [df[name] = vs]: overwrites the column, or appends it when the name is
    new. *)
Definition setitem (name : string) (vs : list value) (df : DataFrame) : DataFrame :=
  if has_column name df then
    mkDF (columns df)
         (map (fun rv => assign (columns df) name (snd rv) (fst rv))
              (combine (rows df) vs))
  else
    mkDF (columns df ++ [name])
         (map (fun rv => mkRow (label (fst rv)) (cells (fst rv) ++ [snd rv]))
              (combine (rows df) vs)).

(** A row without a missing cell at the positions [ps]. *)
Definition complete (ps : list nat) (r : Row) : bool :=
  forallb (fun i => notnull (cell i r)) ps.

(** [df.dropna(subset=names)]: a [KeyError] lists the names that label no
    column; otherwise a row is kept when none of the named cells is missing. *)

Definition dropna (subset : list string) (df : DataFrame) : result DataFrame :=
  match filter (fun n => negb (has_column n df)) subset with
  | [] =>
      let ps := flat_map (fun n => positions n (columns df)) subset in
      Ok (mkDF (columns df) (filter (complete ps) (rows df)))
  | missing => Raise (KeyError missing)
  end.

(** ** Sorting and ordering of labels *)

(** Insertion before the first element that is not smaller: equal elements
    keep their order. *)
Fixpoint insert {A : Type} (leb : A -> A -> bool) (x : A) (l : list A) : list A :=
  match l with
  | [] => [x]
  | y :: t => if leb x y then x :: l else y :: insert leb x t
  end.

Definition sort {A : Type} (leb : A -> A -> bool) (l : list A) : list A :=
  fold_right (insert leb) [] l.

Definition Timestamp_key (t : Timestamp) : list Z :=
  [ts_year t; ts_month t; ts_day t; ts_nanos t].

Fixpoint lex_leb (a b : list Z) : bool :=
  match a, b with
  | x :: a', y :: b' => (x <? y)%Z || ((x =? y)%Z && lex_leb a' b')
  | [], _ => true
  | _ :: _, [] => false
  end.

Fixpoint lex_eqb (a b : list Z) : bool :=
  match a, b with
  | x :: a', y :: b' => (x =? y)%Z && lex_eqb a' b'
  | [], [] => true
  | _, _ => false
  end.

(** Numbers sort before timestamps, timestamps before text. *)
Definition kind_rank (v : value) : nat :=
  match v with
  | VNum _ => 0
  | VDate _ => 1
  | VStr _ => 2
  | VNull => 3
  end.

Definition value_leb (a b : value) : bool :=
  match a, b with
  | VNum x, VNum y => Qle_bool x y
  | VDate x, VDate y => lex_leb (Timestamp_key x) (Timestamp_key y)
  | VStr x, VStr y => String.leb x y
  | _, _ => kind_rank a <=? kind_rank b
  end.

(** Equality of labels: numbers by value, text and timestamps by content. *)
Definition value_eqb (a b : value) : bool :=
  match a, b with
  | VNull, VNull => true
  | VNum x, VNum y => Qeq_bool x y
  | VDate x, VDate y => lex_eqb (Timestamp_key x) (Timestamp_key y)
  | VStr x, VStr y => String.eqb x y
  | _, _ => false
  end.

(** The distinct labels of a column, in order of first appearance. *)
Fixpoint distinct (l : list value) : list value :=
  match l with
  | [] => []
  | x :: t => x :: filter (fun y => negb (value_eqb x y)) (distinct t)
  end.

(** The group labels of [groupby]: missing labels form no group, and the
    groups come sorted by label. *)
Definition group_keys (keys : list value) : list value :=
  sort value_leb (distinct (filter notnull keys)).

(** ** Numeric columns *)

Definition Qsum (l : list Q) : Q := fold_right Qplus 0%Q l.

(** A cell that [sum] and [quantile] accept: a number or a missing marker. *)
Definition numeric_or_null (v : value) : bool :=
  match v with VNum _ | VNull => true | _ => false end.

(** The numbers of a column; missing cells are skipped. *)
Fixpoint numbers (vs : list value) : list Q :=
  match vs with
  | [] => []
  | VNum q :: t => q :: numbers t
  | _ :: t => numbers t
  end.

(** [Series.sum()] of the cells whose label is [k]. *)
Definition group_sum (k : value) (keys vals : list value) : Q :=
  Qsum (numbers (map snd (filter (fun kv => value_eqb k (fst kv)) (combine keys vals)))).

(** [Series.count()]-like number of rows whose label is [k]. *)
Definition group_size (k : value) (keys : list value) : nat :=
  length (filter (value_eqb k) keys).

(** [df.groupby(key)[val].sum()] on the two columns. *)
Definition groupby_sum (keys vals : list value) : list (value * Q) :=
  map (fun k => (k, group_sum k keys vals)) (group_keys keys).

(** [series.sort_values(ascending=False)] on a labelled series. *)
Definition sort_values_desc (s : list (value * Q)) : list (value * Q) :=
  sort (fun a b => Qle_bool (snd b) (snd a)) s.

(** [series.value_counts()]: one count per distinct non-missing value, the
    largest count first. *)
Definition value_counts (vs : list value) : list (value * nat) :=
  sort (fun a b => snd b <=? snd a)
       (map (fun k => (k, group_size k vs)) (distinct (filter notnull vs))).

(** [series[label]] on a labelled series. *)
Fixpoint lookup {B : Type} (k : value) (s : list (value * B)) : option B :=
  match s with
  | [] => None
  | (k', b) :: t => if value_eqb k k' then Some b else lookup k t
  end.

(** [series.quantile(p)] with the default linear interpolation: the value
    at the fractional rank [(n - 1) * p] of the sorted numbers, [None] (NaN)
    when there is none. *)
Definition quantile (p : Q) (xs : list Q) : option Q :=
  match sort Qle_bool xs with
  | [] => None
  | (x0 :: _) as s =>
      let n := length s in
      let h := (inject_Z (Z.of_nat (n - 1)) * p)%Q in
      let j := Z.to_nat (Qfloor h) in
      let g := (h - inject_Z (Qfloor h))%Q in
      let lo := nth j s x0 in
      let hi := nth (Nat.min (S j) (n - 1)) s x0 in
      Some (lo + (hi - lo) * g)%Q
  end.

(** [cell > threshold]; a comparison with NaN is false. *)
Definition exceeds (threshold : option Q) (v : value) : bool :=
  match threshold, v with
  | Some t, VNum q => negb (Qle_bool q t)
  | _, _ => false
  end.

(** ** What pandas parses *)

(** The three pandas behaviours the script relies on and does not define. *)
Class Parsers := {
  (** [pd.to_datetime(series, errors='coerce')] on the cells of a column. *)
  to_datetime : list value -> list value;
  (** The number [pd.to_numeric] reads from a [str], if it reads one. *)
  to_number : string -> option Q;
  (** Whether [series.str] is available on a column with these cells. *)
  str_accessor_ok : list value -> bool
}.

(** What the proofs assume of them: [to_datetime] answers cell for cell with
    timestamps or NaT and leaves a column of timestamps alone; [.str] is
    available on a column of text. *)
Class ParsersOk (P : Parsers) : Prop := {
  to_datetime_length : forall vs, length (to_datetime vs) = length vs;
  to_datetime_range :
    forall vs, Forall (fun v => v = VNull \/ is_date v = true) (to_datetime vs);
  to_datetime_dates : forall vs, forallb is_date vs = true -> to_datetime vs = vs;
  str_accessor_text : forall vs, forallb is_str vs = true -> str_accessor_ok vs = true
}.

(** ** clean_data *)

(** One column name of [df.columns.str.strip().str.replace(" ", "_")]; it
    is Python's for a name of ASCII text. *)
Definition normalize (name : string) : string :=
  PyStr.replace " " "_" (PyStr.strip name).

(** [series.str.f()] on one cell: a cell that is not a [str] becomes NaN. *)
Definition str_method (f : string -> string) (v : value) : value :=
  match v with
  | VStr s => VStr (f s)
  | _ => VNull
  end.

Section Cleaner.
Context {P : Parsers}.

(** [pd.to_numeric(cell, errors='coerce')]: a number stays, text is parsed,
    anything else becomes NaN. *)
Definition to_numeric_value (v : value) : value :=
  match v with
  | VNum q => VNum q
  | VStr s => match to_number s with Some q => VNum q | None => VNull end
  | VNull | VDate _ => VNull
  end.

(** Line 26: the column names are normalized. *)
Definition rename_columns (df : DataFrame) : DataFrame :=
  mkDF (map normalize (columns df)) (rows df).

(** Lines 29-30: the run date is parsed when the column is there.  Several
    columns of that name make [df['RUNDATE']] a frame, which [to_datetime]
    refuses. *)
Definition parse_rundate (df : DataFrame) : result DataFrame :=
  if has_column "RUNDATE" df then
    sel <- getitem "RUNDATE" df ;;
    match sel with
    | Series _ vs => Ok (setitem "RUNDATE" (to_datetime vs) df)
    | Frame _ => Raise ValueError
    end
  else Ok df.

(** Line 33: the vendor is stripped and title-cased.  A frame has no
    [.str]; a series has one when pandas accepts its cells.  The second
    [.str] is taken on the result of the first, which is text and NaN. *)
Definition clean_vendor (df : DataFrame) : result DataFrame :=
  sel <- getitem "VENDOR" df ;;
  match sel with
  | Series _ vs =>
      if str_accessor_ok vs then
        Ok (setitem "VENDOR"
              (map (str_method PyStr.title) (map (str_method PyStr.strip) vs)) df)
      else Raise AttributeError
  | Frame _ => Raise AttributeError
  end.

(** Line 39: the amount is made numeric. *)
Definition coerce_amount (df : DataFrame) : result DataFrame :=
  sel <- getitem "CHKSUBTOT" df ;;
  match sel with
  | Series _ vs => Ok (setitem "CHKSUBTOT" (map to_numeric_value vs) df)
  | Frame _ => Raise TypeError
  end.

(** Lines 26-33: the table on which the first [dropna] works. *)
Definition coerce_fields (df : DataFrame) : result DataFrame :=
  df <- parse_rundate (rename_columns df) ;;
  clean_vendor df.

Definition clean_data (df : DataFrame) : result DataFrame :=
  df <- coerce_fields df ;;
  df <- dropna ["VENDOR"; "CHKSUBTOT"; "RUNDATE"] df ;;
  df <- coerce_amount df ;;
  dropna ["CHKSUBTOT"] df.

End Cleaner.

(** ** The invariants of a cleaned table *)

(** The column names are normalized, the required columns are there once
    each (at [iv], [ia] and [id]), and every row has text for the vendor, a
    number for the amount and a timestamp for the run date. *)
Record Cleaned (df : DataFrame) (iv ia id : nat) : Prop := {
  names_normal : map normalize (columns df) = columns df;
  vendor_at : positions "VENDOR" (columns df) = [iv];
  amount_at : positions "CHKSUBTOT" (columns df) = [ia];
  rundate_at : positions "RUNDATE" (columns df) = [id];
  vendor_text : forall r, In r (rows df) -> is_str (cell iv r) = true;
  amount_number : forall r, In r (rows df) -> is_num (cell ia r) = true;
  rundate_date : forall r, In r (rows df) -> is_date (cell id r) = true
}.

(** A vendor name that strip and title leave as it is. *)
Definition tidy_vendor (v : value) : Prop :=
  exists s, v = VStr s /\ PyStr.title (PyStr.strip s) = s.

(** The vendor names of the table are ASCII text. *)
Definition ascii_vendors (iv : nat) (df : DataFrame) : Prop :=
  forall r s, In r (rows df) -> cell iv r = VStr s -> PyStr.ascii_text s = true.

(** Every row has one cell per column. *)
Definition rectangular (df : DataFrame) : Prop :=
  forall r, In r (rows df) -> length (cells r) = length (columns df).

(** ** clean_data, row by row *)

(** The vendor cell after line 33. *)
Definition coerced_vendor (v : value) : value :=
  str_method PyStr.title (str_method PyStr.strip v).

Section CleanerRows.
Context {P : Parsers}.
Variable cols : list string.
Variables iv ia id : nat.

Definition with_rundate (rd : Row * value) : Row :=
  assign cols "RUNDATE" (snd rd) (fst rd).

Definition with_vendor (r : Row) : Row :=
  assign cols "VENDOR" (coerced_vendor (cell iv r)) r.

Definition with_amount (r : Row) : Row :=
  assign cols "CHKSUBTOT" (to_numeric_value (cell ia r)) r.

(** The rows of [clean_data]'s result, from the raw rows paired with
    their parsed run dates. *)
Definition cleaned_rows (paired : list (Row * value)) : list Row :=
  filter (complete [ia])
    (map with_amount
       (filter (complete [iv; ia; id])
          (map (fun rd => with_vendor (with_rundate rd)) paired))).

End CleanerRows.

(** A table with every vendor stripped and title-cased once more. *)
Definition retitled (iv : nat) (df : DataFrame) : DataFrame :=
  mkDF (columns df) (map (with_vendor (columns df) iv) (rows df)).

(** The raw rows, each with the cell [to_datetime] makes of its run date. *)
Definition dated_rows {P : Parsers} (id : nat) (df : DataFrame) : list (Row * value) :=
  combine (rows df) (to_datetime (map (cell id) (rows df))).

(** ** What [clean_data] keeps *)

(** The four tests a raw row passes on its way to the result: a vendor
    after line 33, an amount and a parsed run date at the first [dropna], a
    number at the second. *)
Definition kept {P : Parsers} (iv ia : nat) (rd : Row * value) : bool :=
  notnull (coerced_vendor (cell iv (fst rd))) &&
  notnull (cell ia (fst rd)) &&
  notnull (snd rd) &&
  notnull (to_numeric_value (cell ia (fst rd))).

(** Lines 26, 30 and 33 assign into the table that the caller passed;
    line 36 binds [df] to the new table that [dropna] returns, and the
    later lines work on that one.  The caller's table ends as the last of
    the assignments that were carried out left it. *)
Definition clean_data_argument {P : Parsers} (df : DataFrame) : DataFrame :=
  let renamed := rename_columns df in
  match parse_rundate renamed with
  | Raise _ => renamed
  | Ok dated =>
      match clean_vendor dated with
      | Raise _ => dated
      | Ok titled => titled
      end
  end.

(** A name with a space in it. *)
Fixpoint has_space (s : string) : bool :=
  match s with
  | EmptyString => false
  | String c t => Ascii.eqb c " " || has_space t
  end.

(** ** Reading a cleaned table *)

(** The rows whose vendor is [k]. *)
Definition vendor_rows (iv : nat) (k : value) (df : DataFrame) : list Row :=
  filter (fun r => value_eqb k (cell iv r)) (rows df).

(** The amounts of some rows. *)
Definition amounts (ia : nat) (rs : list Row) : list Q :=
  numbers (map (cell ia) rs).

(** ** The percentile, as the specification words it

    The [p]-th percentile of [xs] by linear interpolation between order
    statistics: [s] is [xs] in ascending order, the fractional rank
    [(n - 1) * p] splits into a whole part [j] and a fraction [g], and the
    percentile lies the fraction [g] of the way from the order statistic
    [s[j]] to the next one. *)
Definition linear_percentile (p : Q) (xs : list Q) (t : Q) : Prop :=
  exists s j g lo hi,
    Permutation s xs /\ StronglySorted Qle s /\
    (inject_Z (Z.of_nat j) + g == inject_Z (Z.of_nat (length xs - 1)) * p)%Q /\
    (0 <= g)%Q /\ (g < 1)%Q /\
    nth_error s j = Some lo /\
    nth_error s (Nat.min (S j) (length xs - 1)) = Some hi /\
    (t == lo + (hi - lo) * g)%Q.

(** ** The vendors of the heatmap, as the specification words them

    The first [n] vendors in table order: the vendors of the rows that
    have a department, each once, in the order in which the rows of the
    table first have them. *)
Definition first_vendors_in_table_order (n iv ip : nat) (df : DataFrame)
  : list value :=
  firstn n
    (distinct
       (map (cell iv)
            (filter (fun r => notnull (cell iv r) && notnull (cell ip r))
                    (rows df)))).

(** ** Console, figures and files *)

(** [df.pivot_table(...)]: row labels, column labels and one list of cells
    per row label. *)
Record PivotTable := mkPivot {
  pv_index : list value;
  pv_columns : list value;
  pv_data : list (list Q)
}.

Inductive event :=
| Print_text (s : string)
| Print_describe (df : DataFrame)      (* the statistics of [df.describe(include='all')] *)
| Print_missing (counts : list (string * nat))
| Print_totals (top : list (value * Q))
| Print_counts (top : list (value * nat))
| Print_threshold (threshold : option Q) (flagged : nat)
| Show_trend (monthly : list (Z * Q))
| Show_heatmap (data : PivotTable)
| To_csv_series (path : string) (s : list (value * Q))
| To_csv_frame (path : string) (df : DataFrame).

Definition newline : string := String (ascii_of_nat 10) EmptyString.

(** A computation that prints, draws and writes, and may raise: it extends
    the trace it is given, and the trace survives an exception. *)
Definition IO (A : Type) : Type := list event -> list event * result A.

Definition io_ret {A : Type} (a : A) : IO A := fun t => (t, Ok a).

Definition io_bind {A B : Type} (m : IO A) (k : A -> IO B) : IO B :=
  fun t =>
    match m t with
    | (t', Ok a) => k a t'
    | (t', Raise e) => (t', Raise e)
    end.

Definition emit (e : event) : IO unit := fun t => (t ++ [e], Ok tt).

Definition lift {A : Type} (r : result A) : IO A := fun t => (t, r).

(** A computation that draws no heatmap: the heatmaps of the trace it leaves
    were in the trace it was given. *)
Definition draws_no_heatmap {A : Type} (m : IO A) : Prop :=
  forall t tr res, m t = (tr, res) ->
  forall data, In (Show_heatmap data) tr -> In (Show_heatmap data) t.

Notation "x <~ m ;; k" := (io_bind m (fun x => k))
  (at level 61, m at next level, right associativity).
Notation "m ;;; k" := (io_bind m (fun _ => k))
  (at level 61, right associativity).

(** ** What a run writes *)

(** An event that writes a file. *)
Definition is_export (e : event) : bool :=
  match e with
  | To_csv_series _ _ | To_csv_frame _ _ => true
  | _ => false
  end.

(** What was printed and drawn, and no file among it. *)
Definition on_screen (out : list event) : Prop :=
  forallb (fun e => negb (is_export e)) out = true.

(** A computation that adds to the trace it is given and writes no file. *)
Definition writes_no_file {A : Type} (m : IO A) : Prop :=
  forall t tr res, m t = (tr, res) -> exists out, tr = t ++ out /\ on_screen out.

(** ** The analysis steps *)

(** [df[name]] where the step needs a series; [dup] is what happens when the
    name labels several columns. *)
Definition series_of (name : string) (dup : exn) (df : DataFrame)
  : result (nat * list value) :=
  sel <- getitem name df ;;
  match sel with
  | Series i vs => Ok (i, vs)
  | Frame _ => Raise dup
  end.

(** A column that [sum] and [quantile] take: numbers and missing cells. *)
Definition numeric (vs : list value) : result (list value) :=
  if forallb numeric_or_null vs then Ok vs else Raise TypeError.

(** [df.isnull().sum()]: the number of missing cells under each column. *)
Fixpoint isnull_sum_from (i : nat) (cols : list string) (rs : list Row)
  : list (string * nat) :=
  match cols with
  | [] => []
  | c :: cols' =>
      (c, length (filter (fun r => negb (notnull (cell i r))) rs))
        :: isnull_sum_from (S i) cols' rs
  end.

Definition isnull_sum (df : DataFrame) : list (string * nat) :=
  isnull_sum_from 0 (columns df) (rows df).

(** [describe] refuses a frame without columns. *)
Definition generate_summary (df : DataFrame) : IO unit :=
  emit (Print_text "Dataset Summary:") ;;;
  match columns df with
  | [] => lift (Raise ValueError)
  | _ :: _ =>
      emit (Print_describe df) ;;;
      emit (Print_text (newline ++ "Missing values per column:" ++ newline)) ;;;
      emit (Print_missing (isnull_sum df))
  end.

(** Line 58. *)
Definition vendor_totals (df : DataFrame) : result (list (value * Q)) :=
  k <- series_of "VENDOR" ValueError df ;;
  v <- series_of "CHKSUBTOT" TypeError df ;;
  vals <- numeric (snd v) ;;
  Ok (sort_values_desc (groupby_sum (snd k) vals)).

Definition total_payments_by_vendor (df : DataFrame) : IO (list (value * Q)) :=
  totals <~ lift (vendor_totals df) ;;
  emit (Print_text (newline ++ "Top 10 Vendors by Total Payments:")) ;;;
  emit (Print_totals (firstn 20 totals)) ;;;
  io_ret totals.

(** The month of a timestamp, counted from year 0. *)
Definition month_index (v : value) : option Z :=
  match v with
  | VDate t => Some (ts_year t * 12 + (ts_month t - 1))%Z
  | _ => None
  end.

Fixpoint months (vs : list value) : list Z :=
  match vs with
  | [] => []
  | v :: t => match month_index v with Some m => m :: months t | None => months t end
  end.

(** [resample('ME')[val].sum()]: one bin per month from the first to the
    last month present, empty months included. *)
Definition monthly_sums (dates vals : list value) : list (Z * Q) :=
  match months dates with
  | [] => []
  | m0 :: ms =>
      let lo := fold_right Z.min m0 ms in
      let hi := fold_right Z.max m0 ms in
      map (fun k =>
             let m := (lo + Z.of_nat k)%Z in
             (m, Qsum (numbers (map snd
                    (filter (fun dv => match month_index (fst dv) with
                                       | Some m' => (m' =? m)%Z
                                       | None => false
                                       end)
                            (combine dates vals))))))
          (seq 0 (S (Z.to_nat (hi - lo))))
  end.

(** Line 67 sets the index, resamples, selects the amount and sums, in
    this order: [resample] refuses an index that is not of timestamps before
    the amount column is looked up.  Line 71: [plot] refuses a series
    without a bin, and then nothing is shown. *)
Definition monthly_trend (df : DataFrame) : IO unit :=
  monthly <~ lift (
    d <- series_of "RUNDATE" Unmodelled df ;;
    if forallb (fun x => is_date x || negb (notnull x)) (snd d) then
      v <- series_of "CHKSUBTOT" Unmodelled df ;;
      vals <- numeric (snd v) ;;
      Ok (monthly_sums (snd d) vals)
    else Raise TypeError) ;;
  match monthly with
  | [] => lift (Raise ValueError)
  | _ :: _ => emit (Show_trend monthly)
  end.

(** The rows whose run date falls in month [m]. *)
Definition month_rows (id : nat) (m : Z) (df : DataFrame) : list Row :=
  filter (fun r => match month_index (cell id r) with
                   | Some m' => (m' =? m)%Z
                   | None => false
                   end)
         (rows df).

(** Lines 84-87: the threshold and the rows above it. *)
Definition outliers_of (df : DataFrame) : result (option Q * DataFrame) :=
  a <- series_of "CHKSUBTOT" Unmodelled df ;;
  vals <- numeric (snd a) ;;
  let threshold := quantile (99 # 100) (numbers vals) in
  Ok (threshold,
      mkDF (columns df)
           (filter (fun r => exceeds threshold (cell (fst a) r)) (rows df))).

Definition detect_anomalies (df : DataFrame) : IO DataFrame :=
  to <~ lift (outliers_of df) ;;
  emit (Print_threshold (fst to) (length (rows (snd to)))) ;;;
  io_ret (snd to).

Definition payment_frequency (df : DataFrame) : IO (list (value * nat)) :=
  freq <~ lift (k <- series_of "VENDOR" Unmodelled df ;;
                Ok (value_counts (snd k))) ;;
  emit (Print_text (newline ++ "Vendors by Payment Frequency:")) ;;;
  emit (Print_counts (firstn 20 freq)) ;;;
  io_ret freq.

(** The aggregate of one vendor and department: [None] (NaN) when no row
    has both. *)
Definition pair_sum (v d : value) (obs : list (value * (value * value))) : option Q :=
  match filter (fun o => value_eqb v (fst o) && value_eqb d (fst (snd o))) obs with
  | [] => None
  | g => Some (Qsum (numbers (map (fun o => snd (snd o)) g)))
  end.

(** [fill_value=0] *)
Definition fillna (fill : Q) (o : option Q) : Q :=
  match o with Some q => q | None => fill end.

(** [pivot_table(index=, columns=, values=, aggfunc='sum', fill_value=0)] on
    the three columns: rows without a vendor or a department are left out,
    both axes come sorted. *)
Definition pivot_table (vendors depts vals : list value) : PivotTable :=
  let obs := filter (fun o => notnull (fst o) && notnull (fst (snd o)))
                    (combine vendors (combine depts vals)) in
  let index := group_keys (map fst obs) in
  let cols := group_keys (map (fun o => fst (snd o)) obs) in
  mkPivot index cols
          (map (fun v => map (fun d => fillna 0%Q (pair_sum v d obs)) cols) index).

(** [pivot.head(n)] *)
Definition pivot_head (n : nat) (p : PivotTable) : PivotTable :=
  mkPivot (firstn n (pv_index p)) (pv_columns p) (firstn n (pv_data p)).

(** [sns.heatmap(data, annot=True)]: the colour range of a table without
    cells does not exist, and seaborn raises. *)
Definition heatmap (data : PivotTable) : IO unit :=
  match pv_index data with
  | [] => lift (Raise ValueError)
  | _ :: _ => emit (Show_heatmap data)
  end.

(** [pivot_table] looks for the column of values first, then groups by
    the index and the columns. *)
Definition department_vendor_heatmap (df : DataFrame) : IO unit :=
  if has_column "DEPARTMENT" df then
    pivot <~ lift (
      a <- series_of "CHKSUBTOT" Unmodelled df ;;
      v <- series_of "VENDOR" ValueError df ;;
      d <- series_of "DEPARTMENT" ValueError df ;;
      vals <- numeric (snd a) ;;
      Ok (pivot_table (snd v) (snd d) vals)) ;;
    heatmap (pivot_head 20 pivot)
  else io_ret tt.

(** ** run_analysis *)

Section Driver.
Context {P : Parsers}.
(** [pd.read_csv]: the table a path holds, or the exception of reading it. *)
Variable read_csv : string -> result DataFrame.

Definition load_data (file_path : string) : IO DataFrame :=
  lift (read_csv file_path).

Definition run_analysis (file_path : string) : IO unit :=
  df <~ load_data file_path ;;
  df <~ lift (clean_data df) ;;
  generate_summary df ;;;
  totals <~ total_payments_by_vendor df ;;
  monthly_trend df ;;;
  anomalies <~ detect_anomalies df ;;
  payment_frequency df ;;;
  department_vendor_heatmap df ;;;
  emit (To_csv_series "total_payments_by_vendor.csv" totals) ;;;
  emit (To_csv_frame "anomalous_payments.csv" anomalies).

(** The call at the end of the script. *)
Definition main : IO unit := run_analysis "Vendor_Payments_2019_2025.csv".

End Driver.

(** ** An instance of the interface

    A pandas that reads ISO dates [YYYY-MM-DD] and plain decimal numerals
    and nothing else (a number in the date column is no date to it): enough
    to run the pipeline on tables written that way. *)

Module Iso.

Definition digit (c : ascii) : option Z :=
  let n := PyStr.code c in
  if (48 <=? n) && (n <=? 57) then Some (Z.of_nat (n - 48)) else None.

(** The value of a non-empty run of digits, with the number of digits. *)
Fixpoint digits_from (acc : Z) (count : nat) (s : string) : option (Z * nat) :=
  match s with
  | EmptyString => match count with 0 => None | S _ => Some (acc, count) end
  | String c t =>
      match digit c with
      | Some d => digits_from (acc * 10 + d) (S count) t
      | None => None
      end
  end.

Definition digits (s : string) : option (Z * nat) := digits_from 0 0 s.

(** The text before and after the first [sep], when there is one. *)
Fixpoint split_at (sep : ascii) (s : string) : string * option string :=
  match s with
  | EmptyString => (EmptyString, None)
  | String c t =>
      if Ascii.eqb c sep then (EmptyString, Some t)
      else let (a, b) := split_at sep t in (String c a, b)
  end.

(** An unsigned decimal numeral: [digits] or [digits.digits]. *)
Definition unsigned_decimal (s : string) : option Q :=
  match split_at "." s with
  | (whole, None) =>
      match digits whole with
      | Some (n, _) => Some (inject_Z n)
      | None => None
      end
  | (whole, Some frac) =>
      match digits whole, digits frac with
      | Some (n, _), Some (f, k) =>
          Some (Qred (Qmake (n * 10 ^ Z.of_nat k + f) (Z.to_pos (10 ^ Z.of_nat k))))
      | _, _ => None
      end
  end.

Definition decimal (s : string) : option Q :=
  match s with
  | String "-" t => option_map Qopp (unsigned_decimal t)
  | _ => unsigned_decimal s
  end.

Definition leap (y : Z) : bool :=
  ((y mod 4 =? 0) && negb (y mod 100 =? 0) || (y mod 400 =? 0))%Z.

Definition days_in_month (y m : Z) : Z :=
  if (m =? 2)%Z then (if leap y then 29 else 28)%Z
  else if ((m =? 4) || (m =? 6) || (m =? 9) || (m =? 11))%Z then 30%Z
  else 31%Z.

(** [YYYY-MM-DD], a date of the calendar. *)
Definition iso_date (s : string) : option Timestamp :=
  match split_at "-" s with
  | (ys, Some rest) =>
      match split_at "-" rest with
      | (ms, Some ds) =>
          match digits ys, digits ms, digits ds with
          | Some (y, 4), Some (m, 2), Some (d, 2) =>
              if ((1 <=? m) && (m <=? 12) && (1 <=? d) && (d <=? days_in_month y m))%Z
              then Some (mkTimestamp y m d 0)
              else None
          | _, _, _ => None
          end
      | _ => None
      end
  | _ => None
  end.

Definition to_datetime_value (v : value) : value :=
  match v with
  | VDate t => VDate t
  | VStr s => match iso_date s with Some t => VDate t | None => VNull end
  | VNull | VNum _ => VNull
  end.

(** [.str] on a column as [read_csv] types it: the column holds text, or it
    has no cell at all.  A column of numbers is numeric and a column of
    missing cells only is [float64]; neither has a [.str]. *)
Definition accessor_ok (vs : list value) : bool :=
  existsb is_str vs || match vs with [] => true | _ :: _ => false end.

End Iso.

#[export] Instance iso_parsers : Parsers := {
  to_datetime := map Iso.to_datetime_value;
  to_number := Iso.decimal;
  str_accessor_ok := Iso.accessor_ok
}.

(** ** A small ledger *)

Module Ledger.

Definition raw : DataFrame :=
  mkDF [" VENDOR"; "CHKSUBTOT "; "RUNDATE"; "DEPARTMENT"]
       [ mkRow 0 [VStr " acme corp "; VStr "100.50"; VStr "2024-01-15"; VStr "Parks"];
         mkRow 1 [VStr "globex"; VStr "N/A"; VStr "2024-02-01"; VStr "Roads"];
         mkRow 2 [VNull; VNum 5; VStr "2024-02-03"; VStr "Parks"];
         mkRow 3 [VStr "initech"; VNum 7; VStr "someday"; VNull];
         mkRow 4 [VStr "ACME CORP"; VNum 200; VStr "2024-03-09"; VStr "Roads"];
         mkRow 5 [VStr "globex"; VNum 40; VStr "2024-03-10"; VStr "Roads"] ].

Definition cleaned : DataFrame :=
  mkDF ["VENDOR"; "CHKSUBTOT"; "RUNDATE"; "DEPARTMENT"]
       [ mkRow 0 [VStr "Acme Corp"; VNum (201 # 2); VDate (mkTimestamp 2024 1 15 0); VStr "Parks"];
         mkRow 4 [VStr "Acme Corp"; VNum 200; VDate (mkTimestamp 2024 3 9 0); VStr "Roads"];
         mkRow 5 [VStr "Globex"; VNum 40; VDate (mkTimestamp 2024 3 10 0); VStr "Roads"] ].



(** A vendor whose name begins with U+01F0, as the file has it, as
    [clean_data] returns it, and as a second [clean_data] returns it. *)
Definition caron_raw : DataFrame :=
  mkDF ["VENDOR"; "CHKSUBTOT"; "RUNDATE"]
       [ mkRow 0 [VStr (PyStr.j_caron ++ "an novak"); VNum 10; VStr "2024-05-02"] ].

Definition caron_cleaned : DataFrame :=
  mkDF ["VENDOR"; "CHKSUBTOT"; "RUNDATE"]
       [ mkRow 0 [VStr (PyStr.J_and_caron ++ "an Novak"); VNum 10;
                  VDate (mkTimestamp 2024 5 2 0)] ].

Definition caron_again : DataFrame :=
  mkDF ["VENDOR"; "CHKSUBTOT"; "RUNDATE"]
       [ mkRow 0 [VStr (PyStr.J_and_caron ++ "An Novak"); VNum 10;
                  VDate (mkTimestamp 2024 5 2 0)] ].

(** A ledger without run dates. *)
Definition undated : DataFrame :=
  mkDF ["VENDOR"; "CHKSUBTOT"; "DEPARTMENT"]
       [ mkRow 0 [VStr "globex"; VNum 40; VStr "Roads"] ].

(** The ledger without its department column. *)
Definition plain : DataFrame :=
  mkDF ["VENDOR"; "CHKSUBTOT"; "RUNDATE"]
       [ mkRow 0 [VStr "X"; VNum 100; VDate (mkTimestamp 2024 1 15 0)];
         mkRow 1 [VStr "X"; VNum 200; VDate (mkTimestamp 2024 3 9 0)] ].

End Ledger.

(** ** Two more headers *)

Module Headers.

(** Two headers that differ by a space only. *)
Definition doubled : DataFrame :=
  mkDF ["VENDOR"; "CHKSUBTOT"; "RUNDATE"; " RUNDATE"]
       [ mkRow 0 [VStr "globex"; VNum 40; VStr "2024-03-10"; VStr "2024-03-11"] ].

(** A file with a header line and no record. *)
Definition header_only : DataFrame :=
  mkDF [" VENDOR"; "CHKSUBTOT "; "RUN DATE"; "RUNDATE"] [].

End Headers.

(** ** A ledger of twenty-one vendors *)

Module Crowd.

Definition payment (i : nat) (vendor : string) : Row :=
  mkRow i [VStr vendor; VNum 10; VDate (mkTimestamp 2024 1 15 0); VStr "Parks"].

(** ["A"], ["B"], ... *)
Definition letter (i : nat) : string :=
  String (ascii_of_nat (65 + i)) EmptyString.

(** One payment for each vendor: Zenith in the first row, then A to T. *)
Definition ledger : DataFrame :=
  mkDF ["VENDOR"; "CHKSUBTOT"; "RUNDATE"; "DEPARTMENT"]
       (payment 0 "Zenith" :: map (fun i => payment (S i) (letter i)) (seq 0 20)).

End Crowd.

(** * Properties *)

(** ** Strings: [strip], [title] and [replace] reach a fixed point *)

Module PyStrFacts.
Import PyStr.

Ltac by_cases_on c :=
  destruct c as [[] [] [] [] [] [] [] []]; vm_compute; reflexivity.

Lemma upper_upper c : upper (upper c) = upper c.
Proof. by_cases_on c. Qed.

Lemma lower_lower c : lower (lower c) = lower c.
Proof. by_cases_on c. Qed.

Lemma iscased_upper c : iscased (upper c) = iscased c.
Proof. by_cases_on c. Qed.

Lemma iscased_lower c : iscased (lower c) = iscased c.
Proof. by_cases_on c. Qed.

Lemma isspace_upper c : isspace (upper c) = isspace c.
Proof. by_cases_on c. Qed.

Lemma isspace_lower c : isspace (lower c) = isspace c.
Proof. by_cases_on c. Qed.

Lemma lstrip_length s : String.length (lstrip s) <= String.length s.
Proof.
  induction s as [|c t IH]; simpl; [lia|].
  destruct (isspace c); simpl; lia.
Qed.

Lemma lstrip_head c t : lstrip (String c t) = String c t -> isspace c = false.
Proof.
  simpl. destruct (isspace c); [|reflexivity].
  intros E. pose proof (lstrip_length t) as L.
  rewrite E in L. simpl in L. lia.
Qed.

Lemma lstrip_lstrip s : lstrip (lstrip s) = lstrip s.
Proof.
  induction s as [|c t IH]; simpl; [reflexivity|].
  destruct (isspace c) eqn:E; [exact IH|].
  simpl. rewrite E. reflexivity.
Qed.

Lemma rstrip_rstrip s : rstrip (rstrip s) = rstrip s.
Proof.
  induction s as [|c t IH]; simpl; [reflexivity|].
  destruct (isspace c && is_empty (rstrip t)) eqn:E; [reflexivity|].
  simpl. rewrite IH, E. reflexivity.
Qed.

Lemma lstrip_fixed x y : lstrip x = x -> ink_kept x y -> lstrip y = y.
Proof.
  intros Hx K. destruct K as [|c d x y Hcd K]; [reflexivity|].
  apply lstrip_head in Hx. simpl. rewrite (Hcd Hx). reflexivity.
Qed.

Lemma rstrip_fixed x y : rstrip x = x -> ink_kept x y -> rstrip y = y.
Proof.
  intros Hx K. induction K as [|c d x y Hcd K IH]; [reflexivity|].
  simpl in Hx.
  destruct (isspace c && is_empty (rstrip x)) eqn:E; [discriminate|].
  injection Hx as Hx. rewrite Hx in E.
  simpl. rewrite (IH Hx).
  apply andb_false_iff in E as [E|E].
  - rewrite (Hcd E). reflexivity.
  - inversion K; subst; simpl in *; try discriminate.
    rewrite andb_false_r. reflexivity.
Qed.

Lemma lstrip_strip s : lstrip (strip s) = strip s.
Proof.
  unfold strip. pose proof (lstrip_lstrip s) as H.
  destruct (lstrip s) as [|c t]; [reflexivity|].
  apply lstrip_head in H.
  simpl. rewrite H. simpl. rewrite H. reflexivity.
Qed.

Lemma rstrip_strip s : rstrip (strip s) = strip s.
Proof. apply rstrip_rstrip. Qed.

(** A string that keeps the ink of a stripped string is stripped. *)
Lemma strip_fixed s y : ink_kept (strip s) y -> strip y = y.
Proof.
  intros K. unfold strip at 1.
  rewrite (lstrip_fixed _ _ (lstrip_strip s) K).
  exact (rstrip_fixed _ _ (rstrip_strip s) K).
Qed.

Lemma ink_replace x : ink_kept x (replace " " "_" x).
Proof.
  induction x as [|c t IH]; simpl; constructor; [|exact IH].
  destruct (Ascii.eqb_spec c " ") as [->|_]; [discriminate|auto].
Qed.

Lemma replace_replace x : replace " " "_" (replace " " "_" x) = replace " " "_" x.
Proof.
  induction x as [|c t IH]; simpl; [reflexivity|].
  rewrite IH. destruct (Ascii.eqb_spec c " ") as [->|N]; [reflexivity|].
  destruct (Ascii.eqb_spec c " "); [contradiction|reflexivity].
Qed.

(** *** Title case of ASCII text *)

Lemma recase_recase b c : recase b (recase b c) = recase b c.
Proof. destruct b; by_cases_on c. Qed.

Lemma iscased_recase b c : iscased (recase b c) = iscased c.
Proof. destruct b; by_cases_on c. Qed.

Lemma isspace_recase b c : isspace (recase b c) = isspace c.
Proof. destruct b; by_cases_on c. Qed.

Lemma recase_ascii b c : (code c <? 128) = true -> (code (recase b c) <? 128) = true.
Proof.
  destruct b; destruct c as [[] [] [] [] [] [] [] []]; vm_compute; auto.
Qed.

(** On an ASCII character [title_from] takes the plain step. *)
Lemma title_from_step b c t :
  (code c <? 128) = true ->
  title_from b (String c t) = String (recase b c) (title_from (iscased c) t).
Proof.
  intros H. cbn [title_from]. destruct t as [|d t']; [reflexivity|].
  unfold is_j_caron. apply Nat.ltb_lt in H.
  destruct (Nat.eqb_spec (code c) 199) as [E|_]; [lia|reflexivity].
Qed.

Lemma ascii_title b x : ascii_text x = true -> ascii_text (title_from b x) = true.
Proof.
  revert b. induction x as [|c t IH]; intros b H; [reflexivity|].
  cbn [ascii_text] in H. apply andb_prop in H as [Hc Ht].
  rewrite (title_from_step b c t Hc). cbn [ascii_text].
  now rewrite (recase_ascii b c Hc), IH.
Qed.

Lemma ink_title b x : ascii_text x = true -> ink_kept x (title_from b x).
Proof.
  revert b. induction x as [|c t IH]; intros b H; [constructor|].
  cbn [ascii_text] in H. apply andb_prop in H as [Hc Ht].
  rewrite (title_from_step b c t Hc). constructor; [|now apply IH].
  now rewrite isspace_recase.
Qed.

Lemma title_from_title_from b x :
  ascii_text x = true -> title_from b (title_from b x) = title_from b x.
Proof.
  revert b. induction x as [|c t IH]; intros b H; [reflexivity|].
  cbn [ascii_text] in H. apply andb_prop in H as [Hc Ht].
  rewrite (title_from_step b c t Hc).
  rewrite (title_from_step b _ _ (recase_ascii b c Hc)).
  now rewrite recase_recase, iscased_recase, IH.
Qed.

Lemma ascii_lstrip s : ascii_text s = true -> ascii_text (lstrip s) = true.
Proof.
  induction s as [|c t IH]; intros H; [reflexivity|].
  cbn [lstrip]. destruct (isspace c); [|exact H].
  cbn [ascii_text] in H. apply andb_prop in H as [_ Ht]. now apply IH.
Qed.

Lemma ascii_rstrip s : ascii_text s = true -> ascii_text (rstrip s) = true.
Proof.
  induction s as [|c t IH]; intros H; [reflexivity|].
  cbn [ascii_text] in H. apply andb_prop in H as [Hc Ht].
  cbn [rstrip]. destruct (isspace c && is_empty (rstrip t)); [reflexivity|].
  cbn [ascii_text]. now rewrite Hc, IH.
Qed.

Lemma ascii_strip s : ascii_text s = true -> ascii_text (strip s) = true.
Proof. intros H. now apply ascii_rstrip, ascii_lstrip. Qed.

Lemma strip_title_strip s :
  ascii_text s = true -> strip (title (strip s)) = title (strip s).
Proof. intros H. apply (strip_fixed s), ink_title, ascii_strip, H. Qed.

(** Cleaning a cleaned vendor name of ASCII text changes nothing. *)
Lemma title_strip_idem s :
  ascii_text s = true -> title (strip (title (strip s))) = title (strip s).
Proof.
  intros H. rewrite (strip_title_strip s H).
  apply title_from_title_from, ascii_strip, H.
Qed.

End PyStrFacts.

(** Normalizing a normalized column name changes nothing. *)
Lemma normalize_idem name : normalize (normalize name) = normalize name.
Proof.
  unfold normalize.
  rewrite (PyStrFacts.strip_fixed name _ (PyStrFacts.ink_replace _)).
  apply PyStrFacts.replace_replace.
Qed.

(** ** Lists *)

Lemma combine_map_self {A B : Type} (f : A -> B) (l : list A) :
  combine l (map f l) = map (fun x => (x, f x)) l.
Proof. induction l as [|x l IH]; simpl; [reflexivity|now rewrite IH]. Qed.

Lemma map_fst_combine_eq {A B : Type} (l : list A) (l' : list B) :
  length l' = length l -> map fst (combine l l') = l.
Proof.
  revert l'. induction l as [|x l IH]; intros [|y l'] H; simpl in *;
    try reflexivity; try discriminate.
  f_equal. apply IH. lia.
Qed.

Lemma in_combine_left {A B : Type} (l : list A) (l' : list B) x :
  length l' = length l -> In x l -> exists y, In (x, y) (combine l l').
Proof.
  revert l'. induction l as [|a l IH]; intros [|b l'] H Hin; simpl in *;
    try contradiction; try discriminate.
  destruct Hin as [->|Hin].
  - exists b. now left.
  - destruct (IH l' ltac:(lia) Hin) as [y Hy]. exists y. now right.
Qed.

Lemma filter_all {A : Type} (f : A -> bool) (l : list A) :
  (forall x, In x l -> f x = true) -> filter f l = l.
Proof.
  induction l as [|x l IH]; intros H; simpl; [reflexivity|].
  rewrite (H x (or_introl eq_refl)), IH; [reflexivity|].
  intros y Hy. apply H. now right.
Qed.

Lemma map_id_on {A : Type} (f : A -> A) (l : list A) :
  (forall x, In x l -> f x = x) -> map f l = l.
Proof.
  induction l as [|x l IH]; intros H; simpl; [reflexivity|].
  rewrite (H x (or_introl eq_refl)), IH; [reflexivity|].
  intros y Hy. apply H. now right.
Qed.

Lemma NoDup_map_eq {A B : Type} (f : A -> B) (l : list A) x y :
  NoDup (map f l) -> In x l -> In y l -> f x = f y -> x = y.
Proof.
  induction l as [|a l IH]; simpl; intros N Hx Hy E; [contradiction|].
  inversion N as [|? ? Hnot N']; subst.
  destruct Hx as [->|Hx], Hy as [->|Hy]; try reflexivity.
  - exfalso. apply Hnot. rewrite E. now apply in_map.
  - exfalso. apply Hnot. rewrite <- E. now apply in_map.
  - now apply IH.
Qed.

(** ** Columns and cells *)

Lemma positions_from_spec i name cols p :
  In p (positions_from i name cols) <->
  exists k, p = i + k /\ nth_error cols k = Some name.
Proof.
  revert i. induction cols as [|c cols IH]; intros i; simpl.
  - split; [contradiction|]. intros [[|k] [_ H]]; discriminate.
  - destruct (String.eqb_spec c name) as [->|N]; simpl; rewrite IH.
    + split.
      * intros [->|[k [-> H]]]; [exists 0|exists (S k)]; simpl; split; auto; lia.
      * intros [[|k] [-> H]]; [left; lia|right; exists k; split; [lia|exact H]].
    + split.
      * intros [k [-> H]]. exists (S k). split; [lia|exact H].
      * intros [[|k] [-> H]]; simpl in H; [congruence|].
        exists k. split; [lia|exact H].
Qed.

Lemma positions_spec name cols p :
  In p (positions name cols) <-> nth_error cols p = Some name.
Proof.
  unfold positions. rewrite positions_from_spec. split.
  - intros [k [-> H]]. exact H.
  - intros H. exists p. auto.
Qed.

Lemma positions_at name cols i :
  positions name cols = [i] ->
  forall j, nth_error cols j = Some name <-> j = i.
Proof.
  intros E j. rewrite <- positions_spec, E. simpl. intuition.
Qed.

Lemma has_column_spec name df :
  has_column name df = true <-> In name (columns df).
Proof.
  unfold has_column. rewrite existsb_exists. split.
  - intros [c [Hc E]]. apply String.eqb_eq in E. now subst.
  - intros H. exists name. split; [exact H|apply String.eqb_refl].
Qed.

Lemma positions_has name df p :
  In p (positions name (columns df)) -> has_column name df = true.
Proof.
  rewrite positions_spec, has_column_spec. apply nth_error_In.
Qed.

Lemma positions_none name df :
  has_column name df = false -> positions name (columns df) = [].
Proof.
  intros H. destruct (positions name (columns df)) as [|p ps] eqn:E; [reflexivity|].
  rewrite (positions_has name df p) in H; [discriminate|].
  rewrite E. now left.
Qed.

Lemma set_where_length cols name v cs :
  length (set_where cols name v cs) = length cs.
Proof.
  revert cs. induction cols as [|c cols IH]; intros [|x cs]; simpl; auto.
Qed.

Lemma set_where_hit cols name v cs j :
  nth_error cols j = Some name -> j < length cs ->
  nth j (set_where cols name v cs) VNull = v.
Proof.
  revert cs j. induction cols as [|c cols IH]; intros [|x cs] [|j]; simpl;
    intros H L; try discriminate; try lia.
  - injection H as ->. now rewrite String.eqb_refl.
  - apply IH; [exact H|lia].
Qed.

Lemma set_where_miss cols name v cs j :
  nth_error cols j <> Some name ->
  nth j (set_where cols name v cs) VNull = nth j cs VNull.
Proof.
  revert cs j. induction cols as [|c cols IH]; intros [|x cs] [|j]; simpl;
    intros H; try reflexivity.
  - destruct (String.eqb_spec c name) as [->|N]; [congruence|reflexivity].
  - now apply IH.
Qed.

(** Writing into a column the cell it already holds changes nothing. *)
Lemma set_where_same cols name v cs :
  (forall j, nth_error cols j = Some name -> j < length cs -> nth j cs VNull = v) ->
  set_where cols name v cs = cs.
Proof.
  revert cs. induction cols as [|c cols IH]; intros [|x cs] H; simpl; try reflexivity.
  f_equal.
  - destruct (String.eqb_spec c name) as [->|N]; [|reflexivity].
    symmetry. apply (H 0); simpl; [reflexivity|lia].
  - apply IH. intros j Hj L. apply (H (S j)); simpl; [exact Hj|lia].
Qed.

Lemma setitem_present name vs df :
  has_column name df = true ->
  setitem name vs df =
  mkDF (columns df)
       (map (fun rv => assign (columns df) name (snd rv) (fst rv)) (combine (rows df) vs)).
Proof. intros H. unfold setitem. now rewrite H. Qed.

Lemma cell_assign_hit cols name v r j :
  nth_error cols j = Some name ->
  cell j (assign cols name v r) = v \/
  (cell j (assign cols name v r) = VNull /\ cell j r = VNull).
Proof.
  intros H. unfold cell, assign. simpl.
  destruct (Nat.lt_ge_cases j (length (cells r))) as [L|L].
  - left. now apply set_where_hit.
  - right. split; apply nth_overflow; rewrite ?set_where_length; exact L.
Qed.

Lemma cell_assign_miss cols name v r j :
  nth_error cols j <> Some name -> cell j (assign cols name v r) = cell j r.
Proof. intros H. unfold cell, assign. simpl. now apply set_where_miss. Qed.

Lemma assign_same cols name r i :
  (forall j, nth_error cols j = Some name <-> j = i) ->
  assign cols name (cell i r) r = r.
Proof.
  intros U. destruct r as [l cs]. unfold assign, cell. simpl. f_equal.
  apply set_where_same. intros j Hj _. apply U in Hj. now subst.
Qed.

Lemma dropna_ok subset df df' :
  dropna subset df = Ok df' ->
  (forall n, In n subset -> has_column n df = true) /\
  df' = mkDF (columns df)
             (filter (complete (flat_map (fun n => positions n (columns df)) subset))
                     (rows df)).
Proof.
  unfold dropna. intros H.
  destruct (filter (fun n => negb (has_column n df)) subset) as [|m ms] eqn:E;
    [|discriminate].
  injection H as <-. split; [|reflexivity].
  intros n Hn. destruct (has_column n df) eqn:Hc; [reflexivity|].
  assert (Hin : In n (filter (fun n => negb (has_column n df)) subset))
    by (apply filter_In; split; [exact Hn|now rewrite Hc]).
  rewrite E in Hin. contradiction.
Qed.

Lemma dropna_missing subset df n :
  In n subset -> has_column n df = false ->
  exists ms, dropna subset df = Raise (KeyError ms) /\ In n ms.
Proof.
  intros Hn Hc. unfold dropna.
  assert (Hin : In n (filter (fun n => negb (has_column n df)) subset))
    by (apply filter_In; split; [exact Hn|now rewrite Hc]).
  destruct (filter (fun n => negb (has_column n df)) subset) as [|m ms];
    [contradiction|].
  exists (m :: ms). split; [reflexivity|exact Hin].
Qed.

(** ** clean_data, stage by stage *)

Lemma getitem_series name df i vs :
  getitem name df = Ok (Series i vs) ->
  positions name (columns df) = [i] /\ vs = map (cell i) (rows df).
Proof.
  unfold getitem. destruct (positions name (columns df)) as [|p [|q ps]];
    intros H; try discriminate.
  injection H as <- <-. auto.
Qed.

Lemma getitem_at name df i :
  positions name (columns df) = [i] ->
  getitem name df = Ok (Series i (map (cell i) (rows df))).
Proof. intros E. unfold getitem. now rewrite E. Qed.

Lemma getitem_absent name df :
  has_column name df = false -> getitem name df = Raise (KeyError [name]).
Proof. intros H. unfold getitem. now rewrite (positions_none _ _ H). Qed.

Lemma has_column_at name df i :
  positions name (columns df) = [i] -> has_column name df = true.
Proof. intros E. apply (positions_has name df i). rewrite E. now left. Qed.

Section Stages.
Context {P : Parsers}.

Lemma parse_rundate_ok df p :
  parse_rundate df = Ok p ->
  (has_column "RUNDATE" df = false /\ p = df) \/
  exists id, positions "RUNDATE" (columns df) = [id] /\
             p = mkDF (columns df) (map (with_rundate (columns df)) (dated_rows id df)).
Proof.
  unfold parse_rundate. destruct (has_column "RUNDATE" df) eqn:Hc.
  - destruct (getitem "RUNDATE" df) as [[i vs|ps]|e] eqn:G; simpl; try discriminate.
    intros H. injection H as <-. right. exists i.
    apply getitem_series in G as [E ->]. split; [exact E|].
    now rewrite setitem_present.
  - intros H. injection H as <-. now left.
Qed.

Lemma clean_vendor_ok df p :
  clean_vendor df = Ok p ->
  exists iv, positions "VENDOR" (columns df) = [iv] /\
             str_accessor_ok (map (cell iv) (rows df)) = true /\
             p = mkDF (columns df) (map (with_vendor (columns df) iv) (rows df)).
Proof.
  unfold clean_vendor.
  destruct (getitem "VENDOR" df) as [[i vs|ps]|e] eqn:G; simpl; try discriminate.
  destruct (str_accessor_ok vs) eqn:A; [|discriminate].
  intros H. injection H as <-. exists i.
  apply getitem_series in G as [E ->]. repeat split; try assumption.
  rewrite setitem_present by (now apply (has_column_at _ _ i)).
  rewrite !map_map, combine_map_self, map_map. reflexivity.
Qed.

Lemma coerce_amount_ok df d :
  coerce_amount df = Ok d ->
  exists ia, positions "CHKSUBTOT" (columns df) = [ia] /\
             d = mkDF (columns df) (map (with_amount (columns df) ia) (rows df)).
Proof.
  unfold coerce_amount.
  destruct (getitem "CHKSUBTOT" df) as [[i vs|ps]|e] eqn:G; simpl; try discriminate.
  intros H. injection H as <-. exists i.
  apply getitem_series in G as [E ->]. split; [exact E|].
  rewrite setitem_present by (now apply (has_column_at _ _ i)).
  rewrite map_map, combine_map_self, map_map. reflexivity.
Qed.

(** The result of [clean_data], when it returns one, written out. *)
Lemma clean_data_ok df df' :
  clean_data df = Ok df' ->
  let cols := map normalize (columns df) in
  exists iv ia id,
    positions "VENDOR" cols = [iv] /\
    positions "CHKSUBTOT" cols = [ia] /\
    positions "RUNDATE" cols = [id] /\
    str_accessor_ok
      (map (cell iv) (map (with_rundate cols) (dated_rows id df))) = true /\
    df' = mkDF cols (cleaned_rows cols iv ia id (dated_rows id df)).
Proof.
  intros H cols. unfold clean_data, coerce_fields in H.
  destruct (parse_rundate (rename_columns df)) as [p0|e] eqn:S1; [|discriminate].
  cbn [bind] in H.
  destruct (clean_vendor p0) as [p|e] eqn:S2; [|discriminate]. cbn [bind] in H.
  destruct (dropna _ p) as [d1|e] eqn:S3; [|discriminate]. cbn [bind] in H.
  destruct (coerce_amount d1) as [d2|e] eqn:S4; [|discriminate]. cbn [bind] in H.
  apply dropna_ok in S3 as [Hall ->].
  apply dropna_ok in H as [_ ->].
  apply clean_vendor_ok in S2 as [iv [Ev [Acc ->]]].
  apply coerce_amount_ok in S4 as [ia [Ea ->]].
  assert (Hr : has_column "RUNDATE" p0 = true).
  { apply (Hall "RUNDATE"). cbn [In]. auto. }
  apply parse_rundate_ok in S1 as [[Hc ->]|[id [Ed ->]]]; [congruence|].
  cbn [columns rows rename_columns] in *. fold cols in Ev, Ea, Ed, Acc |- *.
  exists iv, ia, id. repeat split; try assumption.
  unfold cleaned_rows. cbn [flat_map]. rewrite Ev, Ea, Ed. cbn [app].
  rewrite map_map. reflexivity.
Qed.

End Stages.

Section Returns.
Context {P : Parsers}.

Lemma vendor_stage cols iv (R : list Row) :
  map (fun rv => assign cols "VENDOR" (snd rv) (fst rv))
      (combine R (map (str_method PyStr.title)
                      (map (str_method PyStr.strip) (map (cell iv) R)))) =
  map (with_vendor cols iv) R.
Proof. rewrite !map_map, combine_map_self, map_map. reflexivity. Qed.

Lemma amount_stage cols ia (R : list Row) :
  map (fun rv => assign cols "CHKSUBTOT" (snd rv) (fst rv))
      (combine R (map to_numeric_value (map (cell ia) R))) =
  map (with_amount cols ia) R.
Proof. rewrite !map_map, combine_map_self, map_map. reflexivity. Qed.

Lemma dropna_present subset df :
  (forall n, In n subset -> has_column n df = true) ->
  dropna subset df =
  Ok (mkDF (columns df)
           (filter (complete (flat_map (fun n => positions n (columns df)) subset))
                   (rows df))).
Proof.
  intros H. unfold dropna.
  destruct (filter (fun n => negb (has_column n df)) subset) as [|m ms] eqn:E;
    [reflexivity|].
  assert (Hm : In m (filter (fun n => negb (has_column n df)) subset))
    by (rewrite E; now left).
  apply filter_In in Hm as [Hin Hneg].
  rewrite (H m Hin) in Hneg. discriminate.
Qed.

(** [clean_data] returns a table when the three required names label one
    column each and [.str] is available on the vendor column. *)
Lemma clean_data_returns df iv ia id :
  let cols := map normalize (columns df) in
  positions "VENDOR" cols = [iv] ->
  positions "CHKSUBTOT" cols = [ia] ->
  positions "RUNDATE" cols = [id] ->
  str_accessor_ok (map (cell iv) (map (with_rundate cols) (dated_rows id df))) = true ->
  clean_data df = Ok (mkDF cols (cleaned_rows cols iv ia id (dated_rows id df))).
Proof.
  intros cols Ev Ea Ed Acc.
  assert (Hv : forall rs, has_column "VENDOR" (mkDF cols rs) = true)
    by (intros rs; now apply (has_column_at _ (mkDF cols rs) iv)).
  assert (Ha : forall rs, has_column "CHKSUBTOT" (mkDF cols rs) = true)
    by (intros rs; now apply (has_column_at _ (mkDF cols rs) ia)).
  assert (Hd : forall rs, has_column "RUNDATE" (mkDF cols rs) = true)
    by (intros rs; now apply (has_column_at _ (mkDF cols rs) id)).
  unfold clean_data, coerce_fields, parse_rundate, rename_columns.
  fold cols. rewrite Hd, (getitem_at _ (mkDF cols (rows df)) id Ed). cbn [bind].
  rewrite setitem_present by apply Hd. cbn [columns rows].
  unfold clean_vendor.
  rewrite (getitem_at _ (mkDF cols _) iv Ev). cbn [bind rows].
  fold (dated_rows id df).
  change (fun rv : Row * value => assign cols "RUNDATE" (snd rv) (fst rv))
    with (with_rundate cols).
  rewrite Acc.
  rewrite setitem_present by apply Hv. cbn [columns rows bind].
  rewrite dropna_present.
  2:{ intros n [<-|[<-|[<-|[]]]]; auto. }
  cbn [bind columns rows flat_map]. rewrite Ev, Ea, Ed. cbn [app].
  unfold coerce_amount.
  rewrite (getitem_at _ (mkDF cols _) ia Ea). cbn [bind rows].
  rewrite setitem_present by apply Ha. cbn [columns rows].
  rewrite dropna_present.
  2:{ intros n [<-|[]]; auto. }
  cbn [columns rows flat_map]. rewrite Ea. cbn [app].
  unfold cleaned_rows. rewrite vendor_stage, amount_stage, map_map.
  reflexivity.
Qed.

End Returns.

(** ** The instance keeps the laws *)

#[export] Instance iso_parsers_ok : ParsersOk iso_parsers.
Proof.
  split; cbn [to_datetime str_accessor_ok iso_parsers].
  - intros vs. apply length_map.
  - intros vs. apply Forall_forall. intros v Hv.
    apply in_map_iff in Hv as [x [<- _]].
    destruct x as [|s|q|t]; simpl; auto.
    destruct (Iso.iso_date s); simpl; auto.
  - intros vs H. apply map_id_on. intros v Hv.
    rewrite forallb_forall in H. specialize (H v Hv).
    destruct v; try discriminate. reflexivity.
  - intros [|v vs] H; [reflexivity|].
    cbn [forallb] in H. apply andb_prop in H as [Hv _].
    unfold Iso.accessor_ok. cbn [existsb]. now rewrite Hv.
Qed.

(** ** The rows of a cleaned table *)

Section RowFacts.
Context {P : Parsers}.
Variable cols : list string.
Variables iv ia id : nat.
Hypothesis Ev : positions "VENDOR" cols = [iv].
Hypothesis Ea : positions "CHKSUBTOT" cols = [ia].
Hypothesis Ed : positions "RUNDATE" cols = [id].

Let staged (rd : Row * value) : Row := with_vendor cols iv (with_rundate cols rd).

Lemma column_name name i j other :
  positions name cols = [i] -> positions other cols = [j] ->
  name <> other -> nth_error cols j <> Some name.
Proof.
  intros E1 E2 N H.
  assert (Hj : nth_error cols j = Some other)
    by (apply (positions_at _ _ _ E2); reflexivity).
  congruence.
Qed.

Lemma complete_three r :
  complete [iv; ia; id] r =
  notnull (cell iv r) && (notnull (cell ia r) && notnull (cell id r)).
Proof. unfold complete. cbn [forallb]. now rewrite andb_true_r. Qed.

Lemma complete_one r : complete [ia] r = notnull (cell ia r).
Proof. unfold complete. cbn [forallb]. now rewrite andb_true_r. Qed.

Lemma label_staged rd : label (with_amount cols ia (staged rd)) = label (fst rd).
Proof. reflexivity. Qed.

Lemma amount_staged rd : cell ia (staged rd) = cell ia (fst rd).
Proof.
  unfold staged, with_vendor, with_rundate.
  rewrite cell_assign_miss
    by (apply (column_name _ _ _ _ Ev Ea); discriminate).
  rewrite cell_assign_miss
    by (apply (column_name _ _ _ _ Ed Ea); discriminate).
  reflexivity.
Qed.

Lemma vendor_staged rd :
  cell iv (staged rd) = coerced_vendor (cell iv (fst rd)) \/
  cell iv (staged rd) = VNull.
Proof.
  unfold staged, with_vendor.
  destruct (cell_assign_hit cols "VENDOR"
              (coerced_vendor (cell iv (with_rundate cols rd)))
              (with_rundate cols rd) iv) as [H|[H _]].
  - apply (positions_at _ _ _ Ev). reflexivity.
  - left. rewrite H. unfold with_rundate.
    rewrite cell_assign_miss; [reflexivity|].
    apply (column_name _ _ _ _ Ed Ev). discriminate.
  - now right.
Qed.

Lemma rundate_staged rd :
  cell id (staged rd) = snd rd \/ cell id (staged rd) = VNull.
Proof.
  unfold staged, with_vendor.
  rewrite cell_assign_miss
    by (apply (column_name _ _ _ _ Ev Ed); discriminate).
  unfold with_rundate.
  destruct (cell_assign_hit cols "RUNDATE" (snd rd) (fst rd) id) as [H|[H _]];
    auto.
  apply (positions_at _ _ _ Ed). reflexivity.
Qed.

Lemma amount_coerced r :
  notnull (cell ia r) = true ->
  cell ia (with_amount cols ia r) = to_numeric_value (cell ia r).
Proof.
  intros H. unfold with_amount.
  destruct (cell_assign_hit cols "CHKSUBTOT" (to_numeric_value (cell ia r)) r ia)
    as [E|[_ E]]; [apply (positions_at _ _ _ Ea); reflexivity|exact E|].
  rewrite E in H. discriminate.
Qed.

Lemma other_coerced r j name :
  positions name cols = [j] -> name <> "CHKSUBTOT" ->
  cell j (with_amount cols ia r) = cell j r.
Proof.
  intros E N. unfold with_amount. apply cell_assign_miss.
  apply (column_name _ _ _ _ Ea E). congruence.
Qed.

(** On a row with a cell under every column the staged cells are exact. *)
Lemma vendor_staged_full rd :
  length (cells (fst rd)) = length cols ->
  cell iv (staged rd) = coerced_vendor (cell iv (fst rd)).
Proof.
  intros L. unfold staged, with_vendor, assign, cell at 1. cbn [cells].
  assert (Hiv : nth_error cols iv = Some "VENDOR")
    by (apply (positions_at _ _ _ Ev); reflexivity).
  rewrite set_where_hit; [|exact Hiv|].
  - unfold with_rundate. rewrite cell_assign_miss; [reflexivity|].
    apply (column_name _ _ _ _ Ed Ev). discriminate.
  - unfold with_rundate, assign. cbn [cells]. rewrite set_where_length, L.
    apply nth_error_Some. congruence.
Qed.

Lemma rundate_staged_full rd :
  length (cells (fst rd)) = length cols -> cell id (staged rd) = snd rd.
Proof.
  intros L. unfold staged, with_vendor.
  rewrite cell_assign_miss
    by (apply (column_name _ _ _ _ Ev Ed); discriminate).
  unfold with_rundate, assign, cell. cbn [cells].
  assert (Hid : nth_error cols id = Some "RUNDATE")
    by (apply (positions_at _ _ _ Ed); reflexivity).
  apply set_where_hit; [exact Hid|]. rewrite L.
  apply nth_error_Some. congruence.
Qed.

(** A row of the result is a raw row, staged and coerced, that passed
    both filters. *)
Lemma cleaned_rows_spec paired r' :
  In r' (cleaned_rows cols iv ia id paired) <->
  exists rd, In rd paired /\ r' = with_amount cols ia (staged rd) /\
             complete [iv; ia; id] (staged rd) = true /\
             complete [ia] r' = true.
Proof.
  unfold cleaned_rows. rewrite filter_In, in_map_iff. split.
  - intros [[x [<- Hx]] C2]. apply filter_In in Hx as [Hx C1].
    apply in_map_iff in Hx as [rd [<- Hrd]]. exists rd. auto.
  - intros [rd [Hrd [-> [C1 C2]]]]. split; [|exact C2].
    exists (staged rd). split; [reflexivity|].
    apply filter_In. split; [|exact C1].
    apply in_map_iff. exists rd. auto.
Qed.

Lemma cleaned_rows_length paired :
  length (cleaned_rows cols iv ia id paired) <= length paired.
Proof.
  unfold cleaned_rows.
  eapply Nat.le_trans; [apply filter_length_le|].
  rewrite length_map.
  eapply Nat.le_trans; [apply filter_length_le|].
  now rewrite length_map.
Qed.

End RowFacts.

(** ** clean_data establishes the invariants, and keeps a table that has them *)

Section Invariants.
Context {P : Parsers} {HP : ParsersOk P}.

Lemma to_numeric_value_num v :
  notnull (to_numeric_value v) = true -> is_num (to_numeric_value v) = true.
Proof.
  destruct v as [|s|q|t]; simpl; auto. destruct (to_number s); auto.
Qed.

Lemma coerced_vendor_text v :
  notnull (coerced_vendor v) = true -> is_str (coerced_vendor v) = true.
Proof. destruct v; simpl; auto. Qed.

Lemma coerced_vendor_tidy v :
  notnull (coerced_vendor v) = true ->
  (forall s, v = VStr s -> PyStr.ascii_text s = true) ->
  tidy_vendor (coerced_vendor v).
Proof.
  destruct v as [|s|q|t]; simpl; try discriminate. intros _ H.
  exists (PyStr.title (PyStr.strip s)). split; [reflexivity|].
  apply PyStrFacts.title_strip_idem, H. reflexivity.
Qed.

Lemma dated_rows_date id df rd :
  In rd (dated_rows id df) -> notnull (snd rd) = true -> is_date (snd rd) = true.
Proof.
  intros Hin Hn. destruct rd as [r d]. apply in_combine_r in Hin.
  pose proof (to_datetime_range (map (cell id) (rows df))) as F.
  rewrite Forall_forall in F. destruct (F d Hin) as [->|H]; [discriminate|exact H].
Qed.

Lemma dated_rows_fst id df : map fst (dated_rows id df) = rows df.
Proof.
  apply map_fst_combine_eq. now rewrite to_datetime_length, length_map.
Qed.

Lemma normalized_twice cols : map normalize (map normalize cols) = map normalize cols.
Proof. rewrite map_map. apply map_ext. intros. apply normalize_idem. Qed.

(** The table [clean_data] returns satisfies the invariants. *)
Lemma clean_data_Cleaned df df' :
  clean_data df = Ok df' -> exists iv ia id, Cleaned df' iv ia id.
Proof.
  intros H. apply clean_data_ok in H as (iv & ia & id & Ev & Ea & Ed & _ & ->).
  exists iv, ia, id. split; cbn [columns rows]; auto using normalized_twice.
  - intros r' Hr. apply cleaned_rows_spec in Hr
      as (rd & Hrd & -> & C1 & C2).
    rewrite (other_coerced _ _ Ea _ _ "VENDOR" Ev) by discriminate.
    rewrite complete_three in C1. apply andb_prop in C1 as [Cv _].
    destruct (vendor_staged _ _ _ Ev Ed rd) as [E|E]; rewrite E in *;
      [|discriminate].
    now apply coerced_vendor_text.
  - intros r' Hr. apply cleaned_rows_spec in Hr
      as (rd & Hrd & -> & C1 & C2).
    rewrite complete_three in C1. apply andb_prop in C1 as [_ C1].
    apply andb_prop in C1 as [Ca _].
    rewrite complete_one in C2.
    rewrite (amount_coerced _ _ Ea _ Ca) in *.
    now apply to_numeric_value_num.
  - intros r' Hr. apply cleaned_rows_spec in Hr
      as (rd & Hrd & -> & C1 & C2).
    rewrite (other_coerced _ _ Ea _ _ "RUNDATE" Ed) by discriminate.
    rewrite complete_three in C1. apply andb_prop in C1 as [_ C1].
    apply andb_prop in C1 as [_ Cd].
    destruct (rundate_staged _ _ _ Ev Ed rd) as [E|E]; rewrite E in *;
      [|discriminate].
    now apply (dated_rows_date id df).
Qed.

(** With ASCII vendor names in the raw table, the vendor names of the
    result are tidy. *)
Lemma clean_data_tidy df df' iv :
  clean_data df = Ok df' ->
  positions "VENDOR" (columns df') = [iv] ->
  ascii_vendors iv df ->
  forall r, In r (rows df') -> tidy_vendor (cell iv r).
Proof.
  intros H Hiv Hascii r' Hr'.
  apply clean_data_ok in H as (iv' & ia & id & Ev & Ea & Ed & _ & ->).
  cbn [columns rows] in *. rewrite Ev in Hiv. injection Hiv as ->.
  apply cleaned_rows_spec in Hr' as ([r d] & Hrd & -> & C1 & C2).
  rewrite (other_coerced _ _ Ea _ _ "VENDOR" Ev) by discriminate.
  rewrite complete_three in C1. apply andb_prop in C1 as [Cv _].
  destruct (vendor_staged _ _ _ Ev Ed (r, d)) as [E|E]; rewrite E in *;
    [|discriminate].
  apply coerced_vendor_tidy; [exact Cv|].
  intros s Hs. apply (Hascii r s); [|exact Hs].
  now apply in_combine_l in Hrd.
Qed.

(** [clean_data] on a table that satisfies the invariants: the same table
    with every vendor stripped and title-cased once more. *)
Lemma Cleaned_again df iv ia id :
  Cleaned df iv ia id -> clean_data df = Ok (retitled iv df).
Proof.
  intros [Hn Ev Ea Ed Hv Ha Hd].
  assert (Uv := positions_at _ _ _ Ev).
  assert (Ua := positions_at _ _ _ Ea).
  assert (Ud := positions_at _ _ _ Ed).
  assert (Dates : dated_rows id df = map (fun r => (r, cell id r)) (rows df)).
  { unfold dated_rows. rewrite to_datetime_dates, combine_map_self; [reflexivity|].
    rewrite forallb_forall. intros v Hin.
    apply in_map_iff in Hin as [r [<- Hr]]. now apply Hd. }
  assert (Staged : map (with_rundate (columns df)) (dated_rows id df) = rows df).
  { rewrite Dates, map_map. apply map_id_on. intros r _.
    unfold with_rundate. cbn [fst snd]. now apply assign_same. }
  assert (Hiv : forall r, In r (rows df) ->
                  is_str (cell iv (with_vendor (columns df) iv r)) = true).
  { intros r Hr. specialize (Hv r Hr). unfold with_vendor.
    destruct (cell_assign_hit (columns df) "VENDOR"
                (coerced_vendor (cell iv r)) r iv) as [E|[_ E]];
      [apply Uv; reflexivity| |rewrite E in Hv; discriminate].
    rewrite E. now destruct (cell iv r). }
  assert (Hother : forall r j name,
            positions name (columns df) = [j] -> name <> "VENDOR" ->
            cell j (with_vendor (columns df) iv r) = cell j r).
  { intros r j name Hj N. unfold with_vendor. apply cell_assign_miss.
    apply (column_name _ _ _ _ _ Ev Hj). congruence. }
  assert (Amt : forall r, In r (rows df) ->
            with_amount (columns df) ia (with_vendor (columns df) iv r) =
            with_vendor (columns df) iv r).
  { intros r Hr. unfold with_amount at 1.
    rewrite (Hother r ia "CHKSUBTOT" Ea) by discriminate.
    specialize (Ha r Hr).
    replace (to_numeric_value (cell ia r))
      with (cell ia (with_vendor (columns df) iv r)).
    - now apply assign_same.
    - rewrite (Hother r ia "CHKSUBTOT" Ea) by discriminate.
      destruct (cell ia r); try discriminate; reflexivity. }
  rewrite (clean_data_returns df iv ia id); rewrite ?Hn; try assumption.
  - unfold retitled, cleaned_rows.
    rewrite <- (map_map (with_rundate (columns df)) (with_vendor (columns df) iv)).
    rewrite Staged.
    rewrite (filter_all (complete [iv; ia; id])).
    + rewrite (map_ext_in _ (fun r => r)), map_id.
      * rewrite filter_all; [reflexivity|].
        intros r' Hr'. apply in_map_iff in Hr' as [r [<- Hr]].
        rewrite complete_one, (Hother r ia "CHKSUBTOT" Ea) by discriminate.
        specialize (Ha r Hr). now destruct (cell ia r).
      * intros r' Hr'. apply in_map_iff in Hr' as [r [<- Hr]]. now apply Amt.
    + intros r' Hr'. apply in_map_iff in Hr' as [r [<- Hr]].
      rewrite complete_three.
      rewrite (Hother r ia "CHKSUBTOT" Ea), (Hother r id "RUNDATE" Ed)
        by discriminate.
      specialize (Hiv r Hr). specialize (Ha r Hr). specialize (Hd r Hr).
      destruct (cell iv (with_vendor (columns df) iv r)), (cell ia r), (cell id r);
        try discriminate; reflexivity.
  - rewrite Staged. apply str_accessor_text.
    rewrite forallb_forall. intros v Hin.
    apply in_map_iff in Hin as [r [<- Hr]]. now apply Hv.
Qed.

Lemma map_fixed {A : Type} (f : A -> A) (l : list A) :
  map f l = l <-> forall x, In x l -> f x = x.
Proof.
  split; [|apply map_id_on].
  induction l as [|a l IH]; simpl; intros H x Hx; [contradiction|].
  injection H as Ha Hl. destruct Hx as [<-|Hx]; [exact Ha|now apply IH].
Qed.

(** The second result is the table itself exactly when its vendor names
    are tidy. *)
Lemma retitled_same df iv ia id :
  Cleaned df iv ia id ->
  (retitled iv df = df <-> forall r, In r (rows df) -> tidy_vendor (cell iv r)).
Proof.
  intros C. pose proof (positions_at _ _ _ (vendor_at _ _ _ _ C)) as Uv.
  assert (E : retitled iv df = df <->
              map (with_vendor (columns df) iv) (rows df) = rows df).
  { unfold retitled. destruct df as [cs rs]. cbn [columns rows]. split.
    - now intros [= ->].
    - now intros ->. }
  rewrite E, map_fixed. split.
  - intros H r Hr. specialize (H r Hr).
    pose proof (vendor_text _ _ _ _ C r Hr) as Hs.
    destruct (cell iv r) as [|s|q|t] eqn:Es; try discriminate.
    exists s. split; [reflexivity|].
    assert (Hc : cell iv (with_vendor (columns df) iv r) = cell iv r)
      by now rewrite H.
    unfold with_vendor in Hc.
    destruct (cell_assign_hit (columns df) "VENDOR"
                (coerced_vendor (cell iv r)) r iv) as [E'|[_ E']];
      [apply Uv; reflexivity| |congruence].
    rewrite E', Es in Hc. cbn [coerced_vendor str_method] in Hc. congruence.
  - intros H r Hr. destruct (H r Hr) as [s [Es T]]. unfold with_vendor.
    replace (coerced_vendor (cell iv r)) with (cell iv r)
      by (rewrite Es; unfold coerced_vendor, str_method; now rewrite T).
    now apply assign_same.
Qed.

End Invariants.

(** ** Which rows survive *)

Section Survival.
Context {P : Parsers} {HP : ParsersOk P}.

Lemma dated_rows_labels id df :
  map (fun rd => label (fst rd)) (dated_rows id df) = map label (rows df).
Proof. now rewrite <- (dated_rows_fst id df), map_map. Qed.

(** A raw row, paired with its parsed run date, is in the result exactly
    when the four tests of [clean_data] pass on it. *)
Lemma survives_iff df iv ia id r d :
  let cols := map normalize (columns df) in
  positions "VENDOR" cols = [iv] ->
  positions "CHKSUBTOT" cols = [ia] ->
  positions "RUNDATE" cols = [id] ->
  rectangular df -> NoDup (map label (rows df)) ->
  In (r, d) (dated_rows id df) ->
  In (label r) (map label (cleaned_rows cols iv ia id (dated_rows id df))) <->
  notnull (coerced_vendor (cell iv r)) = true /\
  notnull (cell ia r) = true /\
  notnull d = true /\
  notnull (to_numeric_value (cell ia r)) = true.
Proof.
  intros cols Ev Ea Ed Hrect Hnd Hin.
  assert (L : length (cells r) = length cols).
  { unfold cols. rewrite length_map. apply Hrect.
    now apply in_combine_l in Hin. }
  assert (C1 : complete [iv; ia; id] (with_vendor cols iv (with_rundate cols (r, d))) =
               notnull (coerced_vendor (cell iv r)) &&
               (notnull (cell ia r) && notnull d)).
  { rewrite complete_three.
    rewrite (vendor_staged_full _ _ _ Ev Ed (r, d) L).
    rewrite (amount_staged _ _ _ _ Ev Ea Ed (r, d)).
    rewrite (rundate_staged_full _ _ _ Ev Ed (r, d) L). reflexivity. }
  assert (C2 : notnull (cell ia r) = true ->
               complete [ia] (with_amount cols ia
                                (with_vendor cols iv (with_rundate cols (r, d)))) =
               notnull (to_numeric_value (cell ia r))).
  { intros Hn. rewrite complete_one, (amount_coerced _ _ Ea).
    - now rewrite (amount_staged _ _ _ _ Ev Ea Ed (r, d)).
    - now rewrite (amount_staged _ _ _ _ Ev Ea Ed (r, d)). }
  rewrite in_map_iff. split.
  - intros (r' & Hl & Hr').
    apply cleaned_rows_spec in Hr' as (rd & Hrd & -> & K1 & K2).
    assert (rd = (r, d)) as ->.
    { apply (NoDup_map_eq (fun rd => label (fst rd)) (dated_rows id df));
        [rewrite dated_rows_labels; exact Hnd|exact Hrd|exact Hin|exact Hl]. }
    rewrite C1 in K1. apply andb_prop in K1 as [Kv K1].
    apply andb_prop in K1 as [Ka Kd]. rewrite (C2 Ka) in K2. auto.
  - intros (Kv & Ka & Kd & Kn).
    exists (with_amount cols ia (with_vendor cols iv (with_rundate cols (r, d)))).
    split; [reflexivity|]. apply cleaned_rows_spec. exists (r, d).
    repeat split; [exact Hin| |].
    + now rewrite C1, Kv, Ka, Kd.
    + now rewrite (C2 Ka).
Qed.

End Survival.

(** C1.  A row of the raw table survives [clean_data] exactly when its
    vendor is not missing after strip and title, its amount is not missing,
    its run date is not missing after [to_datetime], and its amount is a
    number after [to_numeric]; rows are identified by their index label, and
    each raw row [r] comes with the cell [d] that [to_datetime] makes of its
    run date.  The cleaned table is no longer than the raw one, and a row
    that was dropped fails one of the four tests. *)
Theorem clean_data_survival {P : Parsers} (HP : ParsersOk P) (df df' : DataFrame) :
  rectangular df ->
  NoDup (map label (rows df)) ->
  clean_data df = Ok df' ->
  exists iv ia id,
    positions "VENDOR" (map normalize (columns df)) = [iv] /\
    positions "CHKSUBTOT" (map normalize (columns df)) = [ia] /\
    positions "RUNDATE" (map normalize (columns df)) = [id] /\
    (forall r, In r (rows df) -> exists d, In (r, d) (dated_rows id df)) /\
    (forall r d, In (r, d) (dated_rows id df) ->
       (In (label r) (map label (rows df')) <->
        notnull (coerced_vendor (cell iv r)) = true /\
        notnull (cell ia r) = true /\
        notnull d = true /\
        notnull (to_numeric_value (cell ia r)) = true)) /\
    length (rows df') <= length (rows df) /\
    (forall r d, In (r, d) (dated_rows id df) ->
       ~ In (label r) (map label (rows df')) ->
       notnull (coerced_vendor (cell iv r)) = false \/
       notnull (cell ia r) = false \/
       notnull d = false \/
       notnull (to_numeric_value (cell ia r)) = false).
Proof.
  intros Hrect Hnd H.
  destruct (clean_data_ok _ _ H) as (iv & ia & id & Ev & Ea & Ed & _ & ->).
  cbn zeta in *. exists iv, ia, id. cbn [rows].
  assert (Hiff := fun r d => survives_iff df iv ia id r d Ev Ea Ed Hrect Hnd).
  refine (conj Ev (conj Ea (conj Ed (conj _ (conj Hiff (conj _ _)))))).
  - intros r Hr. apply in_combine_left; [|exact Hr].
    now rewrite to_datetime_length, length_map.
  - eapply Nat.le_trans; [apply cleaned_rows_length|].
    unfold dated_rows. rewrite length_combine. apply Nat.le_min_l.
  - intros r d Hin Hnot.
    destruct (notnull (coerced_vendor (cell iv r))) eqn:Kv; auto.
    destruct (notnull (cell ia r)) eqn:Ka; auto.
    destruct (notnull d) eqn:Kd; auto.
    destruct (notnull (to_numeric_value (cell ia r))) eqn:Kn; auto.
    exfalso. apply Hnot. apply (Hiff r d Hin). rewrite Kv, Ka. auto.
Qed.

Lemma raw_rectangular : rectangular Ledger.raw.
Proof.
  intros r Hr. cbn [rows Ledger.raw In] in Hr.
  repeat (destruct Hr as [<-|Hr]; [reflexivity|]). contradiction.
Qed.

Lemma raw_labels : NoDup (map label (rows Ledger.raw)).
Proof.
  cbn [map rows Ledger.raw label].
  repeat (constructor; [cbn [In]; intuition discriminate|]). constructor.
Qed.

Lemma raw_cleaned : clean_data Ledger.raw = Ok Ledger.cleaned.
Proof. vm_compute. reflexivity. Qed.

(** In the ledger the payment with the amount "N/A" and the payment dated
    "someday" are dropped, and so is the payment without a vendor. *)
Example dropped_payments :
  map label (rows Ledger.raw) = [0; 1; 2; 3; 4; 5] /\
  map label (rows Ledger.cleaned) = [0; 4; 5].
Proof. split; reflexivity. Qed.

Lemma clean_data_survival_witness :
  rectangular Ledger.raw /\
  NoDup (map label (rows Ledger.raw)) /\
  clean_data Ledger.raw = Ok Ledger.cleaned /\
  exists iv ia id,
    positions "VENDOR" (map normalize (columns Ledger.raw)) = [iv] /\
    positions "CHKSUBTOT" (map normalize (columns Ledger.raw)) = [ia] /\
    positions "RUNDATE" (map normalize (columns Ledger.raw)) = [id] /\
    (forall r, In r (rows Ledger.raw) -> exists d, In (r, d) (dated_rows id Ledger.raw)) /\
    (forall r d, In (r, d) (dated_rows id Ledger.raw) ->
       (In (label r) (map label (rows Ledger.cleaned)) <->
        notnull (coerced_vendor (cell iv r)) = true /\
        notnull (cell ia r) = true /\
        notnull d = true /\
        notnull (to_numeric_value (cell ia r)) = true)) /\
    length (rows Ledger.cleaned) <= length (rows Ledger.raw) /\
    (forall r d, In (r, d) (dated_rows id Ledger.raw) ->
       ~ In (label r) (map label (rows Ledger.cleaned)) ->
       notnull (coerced_vendor (cell iv r)) = false \/
       notnull (cell ia r) = false \/
       notnull d = false \/
       notnull (to_numeric_value (cell ia r)) = false).
Proof.
  refine (conj raw_rectangular (conj raw_labels (conj raw_cleaned _))).
  exact (clean_data_survival iso_parsers_ok Ledger.raw Ledger.cleaned
           raw_rectangular raw_labels raw_cleaned).
Defined.

Lemma raw_ascii : ascii_vendors 0 Ledger.raw.
Proof.
  intros r s Hr Hs. cbn [rows Ledger.raw In] in Hr.
  repeat (destruct Hr as [<-|Hr];
          [first [injection Hs as <-; reflexivity | discriminate Hs]|]).
  contradiction.
Qed.

(** C4, amended.  [clean_data] on the table it returned returns that table
    with every vendor stripped and title-cased once more: the column names
    are normalized already and no row is dropped.  The result is the same
    table exactly when strip and title leave each of its vendor names as it
    is, and they do when the vendor names of the raw table are ASCII text:
    on such a table [clean_data] is idempotent. *)
Theorem clean_data_idempotent_ascii {P : Parsers} (HP : ParsersOk P)
        (df df' : DataFrame) :
  clean_data df = Ok df' ->
  exists iv,
    positions "VENDOR" (columns df') = [iv] /\
    map normalize (columns df') = columns df' /\
    clean_data df' = Ok (retitled iv df') /\
    columns (retitled iv df') = columns df' /\
    map label (rows (retitled iv df')) = map label (rows df') /\
    (retitled iv df' = df' <-> forall r, In r (rows df') -> tidy_vendor (cell iv r)) /\
    (ascii_vendors iv df -> clean_data df' = Ok df').
Proof.
  intros H. destruct (clean_data_Cleaned _ _ H) as (iv & ia & id & C).
  pose proof (Cleaned_again _ _ _ _ C) as Hagain.
  pose proof (retitled_same _ _ _ _ C) as Hsame.
  exists iv. split; [exact (vendor_at _ _ _ _ C)|].
  split; [exact (names_normal _ _ _ _ C)|].
  split; [exact Hagain|]. split; [reflexivity|].
  split; [|split; [exact Hsame|]].
  - unfold retitled. cbn [rows]. rewrite map_map. reflexivity.
  - intros Hascii. rewrite Hagain. f_equal. apply Hsame.
    exact (clean_data_tidy _ _ _ H (vendor_at _ _ _ _ C) Hascii).
Qed.

Lemma clean_data_idempotent_ascii_witness :
  clean_data Ledger.raw = Ok Ledger.cleaned /\
  ascii_vendors 0 Ledger.raw /\
  clean_data Ledger.cleaned = Ok Ledger.cleaned.
Proof.
  refine (conj raw_cleaned (conj raw_ascii _)).
  destruct (clean_data_idempotent_ascii iso_parsers_ok Ledger.raw Ledger.cleaned
              raw_cleaned) as (iv & Hiv & _ & _ & _ & _ & _ & Hascii).
  injection Hiv as <-. exact (Hascii raw_ascii).
Defined.

(** C4 as stated does not hold.  The vendor name that is U+01F0
    followed by "an novak" is cleaned to J, U+030C, "an Novak"; a second
    [clean_data] capitalizes the letter after the combining caron, which no
    longer follows a cased character, and returns J, U+030C, "An Novak". *)
Lemma clean_data_twice_differs :
  clean_data Ledger.caron_raw = Ok Ledger.caron_cleaned /\
  clean_data Ledger.caron_cleaned = Ok Ledger.caron_again /\
  Ledger.caron_again <> Ledger.caron_cleaned.
Proof.
  split; [vm_compute; reflexivity|].
  split; [vm_compute; reflexivity|].
  vm_compute. discriminate.
Qed.

(** C10.  When, after the column names are normalized, one of VENDOR,
    CHKSUBTOT and RUNDATE labels no column, [clean_data] raises.  The run
    date is parsed behind a presence check, so that step passes a table
    without the column on; the vendor is read without a check, and the
    first [dropna] raises a [KeyError] that lists the missing name. *)
Theorem clean_data_requires_columns {P : Parsers} (df : DataFrame) (name : string) :
  In name ["VENDOR"; "CHKSUBTOT"; "RUNDATE"] ->
  ~ In name (map normalize (columns df)) ->
  (exists e, clean_data df = Raise e) /\
  (name = "RUNDATE" -> parse_rundate (rename_columns df) = Ok (rename_columns df)) /\
  (name = "VENDOR" ->
   forall p, columns p = map normalize (columns df) ->
             clean_vendor p = Raise (KeyError ["VENDOR"])) /\
  (forall p, columns p = map normalize (columns df) ->
             exists ms, dropna ["VENDOR"; "CHKSUBTOT"; "RUNDATE"] p = Raise (KeyError ms) /\
                        In name ms).
Proof.
  intros Hname Hnot.
  assert (Habs : forall p, columns p = map normalize (columns df) ->
                           has_column name p = false).
  { intros p Hp. destruct (has_column name p) eqn:Hc; [|reflexivity].
    apply has_column_spec in Hc. rewrite Hp in Hc. contradiction. }
  split; [|split; [|split]].
  - destruct (clean_data df) as [df'|e] eqn:E; [|now exists e].
    exfalso. apply clean_data_ok in E as (iv & ia & id & Ev & Ea & Ed & _).
    assert (Hin : forall n i, positions n (map normalize (columns df)) = [i] ->
                              In n (map normalize (columns df))).
    { intros n i Hi. apply (nth_error_In _ i).
      apply (positions_at _ _ _ Hi). reflexivity. }
    cbn [In] in Hname.
    destruct Hname as [<-|[<-|[<-|[]]]]; apply Hnot; eauto.
  - intros ->. unfold parse_rundate.
    now rewrite (Habs (rename_columns df) eq_refl).
  - intros -> p Hp. unfold clean_vendor.
    now rewrite (getitem_absent _ _ (Habs p Hp)).
  - intros p Hp. apply dropna_missing; [exact Hname|exact (Habs p Hp)].
Qed.

Lemma clean_data_requires_columns_witness :
  In "RUNDATE" ["VENDOR"; "CHKSUBTOT"; "RUNDATE"] /\
  ~ In "RUNDATE" (map normalize (columns Ledger.undated)) /\
  exists e, clean_data Ledger.undated = Raise e.
Proof.
  assert (Hin : In "RUNDATE" ["VENDOR"; "CHKSUBTOT"; "RUNDATE"])
    by (cbn [In]; auto).
  assert (Hnot : ~ In "RUNDATE" (map normalize (columns Ledger.undated)))
    by (vm_compute; intuition discriminate).
  refine (conj Hin (conj Hnot _)).
  exact (proj1 (clean_data_requires_columns Ledger.undated "RUNDATE" Hin Hnot)).
Defined.



(** ** Sorting *)

Section SortFacts.
Context {A : Type}.
Variable leb : A -> A -> bool.

Lemma insert_perm x l : Permutation (insert leb x l) (x :: l).
Proof.
  induction l as [|y t IH]; simpl; [apply Permutation_refl|].
  destruct (leb x y); [apply Permutation_refl|].
  eapply perm_trans; [apply perm_skip, IH|apply perm_swap].
Qed.

Lemma sort_perm l : Permutation (sort leb l) l.
Proof.
  induction l as [|x t IH]; simpl; [constructor|].
  eapply perm_trans; [apply insert_perm|now apply perm_skip].
Qed.

Lemma sort_length l : length (sort leb l) = length l.
Proof. apply Permutation_length, sort_perm. Qed.

Lemma sort_in x l : In x (sort leb l) <-> In x l.
Proof.
  split; apply Permutation_in; [|apply Permutation_sym]; apply sort_perm.
Qed.

Hypothesis leb_total : forall a b, leb a b = true \/ leb b a = true.

Let ordered (a b : A) : Prop := leb a b = true.

Lemma insert_sorted x l : Sorted ordered l -> Sorted ordered (insert leb x l).
Proof.
  induction l as [|y t IH]; intros S; simpl.
  - repeat constructor.
  - destruct (leb x y) eqn:E.
    + constructor; [exact S|]. constructor. exact E.
    + inversion S as [|? ? St Hd]; subst. constructor; [now apply IH|].
      destruct t as [|z t']; simpl.
      * constructor. destruct (leb_total x y) as [H|H]; [congruence|exact H].
      * destruct (leb x z).
        -- constructor. destruct (leb_total x y) as [H|H]; [congruence|exact H].
        -- constructor. now inversion Hd.
Qed.

Lemma sort_sorted l : Sorted ordered (sort leb l).
Proof.
  induction l as [|x t IH]; simpl; [constructor|now apply insert_sorted].
Qed.

End SortFacts.

(** ** Labels: equality and order *)

Lemma lex_eqb_eq a b : lex_eqb a b = true <-> a = b.
Proof.
  revert b. induction a as [|x a IH]; intros [|y b]; simpl;
    try (split; [discriminate|discriminate]); [split; reflexivity|].
  rewrite andb_true_iff, Z.eqb_eq, IH. split.
  - intros [-> ->]. reflexivity.
  - intros H. injection H as -> ->. auto.
Qed.

Lemma lex_leb_total a b : lex_leb a b = true \/ lex_leb b a = true.
Proof.
  revert b. induction a as [|x a IH]; intros [|y b]; simpl; auto.
  destruct (Z.lt_trichotomy x y) as [H|[H|H]].
  - left. apply Z.ltb_lt in H. now rewrite H.
  - subst. rewrite Z.ltb_irrefl, Z.eqb_refl. simpl. apply IH.
  - right. apply Z.ltb_lt in H. now rewrite H.
Qed.

Lemma Qle_bool_total x y : Qle_bool x y = true \/ Qle_bool y x = true.
Proof.
  rewrite !Qle_bool_iff. destruct (Qlt_le_dec x y) as [H|H]; auto.
  left. now apply Qlt_le_weak.
Qed.

Lemma value_leb_total a b : value_leb a b = true \/ value_leb b a = true.
Proof.
  destruct a, b; cbn [value_leb kind_rank Nat.leb];
    auto using Qle_bool_total, lex_leb_total, String.leb_total.
Qed.

Lemma value_eqb_refl a : value_eqb a a = true.
Proof.
  destruct a as [|s|q|t]; cbn [value_eqb]; auto.
  - apply String.eqb_refl.
  - apply Qeq_bool_iff. reflexivity.
  - now apply lex_eqb_eq.
Qed.

Lemma value_eqb_sym a b : value_eqb a b = value_eqb b a.
Proof.
  destruct a as [|s|q|t], b as [|s'|q'|t']; cbn [value_eqb]; auto.
  - apply String.eqb_sym.
  - destruct (Qeq_bool q q') eqn:E, (Qeq_bool q' q) eqn:E'; auto.
    + apply Qeq_bool_iff in E. symmetry in E. apply Qeq_bool_iff in E. congruence.
    + apply Qeq_bool_iff in E'. symmetry in E'. apply Qeq_bool_iff in E'. congruence.
  - destruct (lex_eqb (Timestamp_key t) (Timestamp_key t')) eqn:E,
             (lex_eqb (Timestamp_key t') (Timestamp_key t)) eqn:E'; auto.
    + apply lex_eqb_eq in E. symmetry in E. apply lex_eqb_eq in E. congruence.
    + apply lex_eqb_eq in E'. symmetry in E'. apply lex_eqb_eq in E'. congruence.
Qed.

Lemma value_eqb_trans a b c :
  value_eqb a b = true -> value_eqb b c = true -> value_eqb a c = true.
Proof.
  destruct a as [|s|q|t], b as [|s'|q'|t'], c as [|s''|q''|t'']; cbn [value_eqb];
    try discriminate; auto.
  - rewrite !String.eqb_eq. congruence.
  - rewrite !Qeq_bool_iff. intros H1 H2. now rewrite H1.
  - rewrite !lex_eqb_eq. congruence.
Qed.

(** Text has no other label equal to it. *)
Lemma value_eqb_text s v : value_eqb (VStr s) v = true -> v = VStr s.
Proof.
  destruct v; cbn [value_eqb]; try discriminate. intros H. apply String.eqb_eq in H. now subst.
Qed.

(** ** The distinct labels of a column *)

Lemma distinct_in k l : In k (distinct l) -> In k l.
Proof.
  revert k. induction l as [|x t IH]; simpl; intros k; [auto|].
  intros [->|H]; [now left|]. apply filter_In in H as [H _]. right. now apply IH.
Qed.

Lemma distinct_NoDup l : NoDup (distinct l).
Proof.
  induction l as [|x t IH]; simpl; constructor.
  - intros H. apply filter_In in H as [_ H]. now rewrite value_eqb_refl in H.
  - now apply NoDup_filter.
Qed.

Lemma distinct_covers y l :
  In y l -> exists k, In k (distinct l) /\ value_eqb k y = true.
Proof.
  induction l as [|x t IH]; simpl; [contradiction|].
  intros [->|H].
  - exists y. split; [now left|apply value_eqb_refl].
  - destruct (IH H) as [k [Hk E]].
    destruct (value_eqb x k) eqn:Exk.
    + exists x. split; [now left|]. now apply (value_eqb_trans x k y).
    + exists k. split; [|exact E]. right. apply filter_In. now rewrite Exk.
Qed.

(** How many of the labels [ks] equal [y]. *)
Lemma distinct_once y l :
  In y l -> length (filter (fun k => value_eqb k y) (distinct l)) = 1.
Proof.
  induction l as [|x t IH]; simpl; [contradiction|]. intros Hy.
  destruct (value_eqb x y) eqn:Exy.
  - simpl. f_equal. apply length_zero_iff_nil.
    destruct (filter _ (filter _ (distinct t))) as [|k ks] eqn:F; [reflexivity|].
    assert (Hk : In k (k :: ks)) by now left. rewrite <- F in Hk.
    apply filter_In in Hk as [Hk Eky]. apply filter_In in Hk as [_ Exk].
    rewrite value_eqb_sym in Eky.
    rewrite (value_eqb_trans x y k Exy Eky) in Exk. discriminate.
  - destruct Hy as [->|Hy]; [now rewrite value_eqb_refl in Exy|].
    rewrite <- (IH Hy). f_equal. clear IH Hy.
    induction (distinct t) as [|k ks IHk]; simpl; [reflexivity|].
    destruct (value_eqb x k) eqn:Exk; simpl.
    + destruct (value_eqb k y) eqn:Eky; [|exact IHk].
      rewrite (value_eqb_trans x k y Exk Eky) in Exy. discriminate.
    + destruct (value_eqb k y); [f_equal|]; exact IHk.
Qed.

(** ** Sums *)

Lemma Qsum_perm l l' : Permutation l l' -> (Qsum l == Qsum l')%Q.
Proof.
  induction 1 as [|x l l' _ IH|x y l|l l' l'' _ IH1 _ IH2]; simpl.
  - reflexivity.
  - now rewrite IH.
  - ring.
  - now rewrite IH1.
Qed.

Lemma Qsum_map_ext {A : Type} (f g : A -> Q) l :
  (forall x, In x l -> (f x == g x)%Q) -> (Qsum (map f l) == Qsum (map g l))%Q.
Proof.
  induction l as [|x l IH]; intros H; simpl; [reflexivity|].
  rewrite (H x (or_introl eq_refl)), IH; [reflexivity|].
  intros y Hy. apply H. now right.
Qed.

Lemma Qsum_map_plus {A : Type} (f g : A -> Q) l :
  (Qsum (map (fun x => f x + g x) l) == Qsum (map f l) + Qsum (map g l))%Q.
Proof. induction l as [|x l IH]; simpl; [ring|rewrite IH; ring]. Qed.

(** The number a cell adds to a sum. *)
Lemma Qsum_numbers_cons v vs :
  (Qsum (numbers (v :: vs)) ==
   match v with VNum q => q | _ => 0 end + Qsum (numbers vs))%Q.
Proof. destruct v; simpl; ring. Qed.

Lemma Qsum_zeros {A : Type} (l : list A) :
  (Qsum (map (fun _ => 0%Q) l) == 0)%Q.
Proof. induction l as [|x l IH]; simpl; [reflexivity|]. rewrite IH. ring. Qed.

Lemma Qsum_pick {A : Type} (p : A -> bool) (a : Q) l :
  length (filter p l) = 1 ->
  (Qsum (map (fun x => if p x then a else 0) l) == a)%Q.
Proof.
  induction l as [|x l IH]; simpl; [discriminate|].
  destruct (p x) eqn:E; simpl; intros H.
  - injection H as H. apply length_zero_iff_nil in H.
    rewrite (Qsum_map_ext _ (fun _ => 0%Q)).
    + rewrite Qsum_zeros. ring.
    + intros y Hy. destruct (p y) eqn:Ey; [|reflexivity].
      assert (Hin : In y (filter p l)) by (apply filter_In; auto).
      rewrite H in Hin. contradiction.
  - rewrite (IH H). ring.
Qed.

(** Summing group by group gives the sum of the column, when every row
    falls in exactly one group. *)
Lemma sum_by_group (D : list value) (L : list (value * value)) :
  (forall kv, In kv L ->
     length (filter (fun k => value_eqb k (fst kv)) D) = 1) ->
  (Qsum (map (fun k => Qsum (numbers (map snd
            (filter (fun kv => value_eqb k (fst kv)) L)))) D) ==
   Qsum (numbers (map snd L)))%Q.
Proof.
  induction L as [|[k' v] L IH]; intros H.
  - simpl. apply Qsum_zeros.
  - cbn [map snd]. rewrite Qsum_numbers_cons.
    rewrite <- IH by (intros kv Hkv; apply H; now right).
    rewrite <- (Qsum_pick (fun k => value_eqb k k')
                  (match v with VNum q => q | _ => 0%Q end) D)
      by (apply (H (k', v)); now left).
    rewrite <- Qsum_map_plus. apply Qsum_map_ext. intros k _.
    cbn [filter fst]. destruct (value_eqb k k').
    + cbn [map snd]. apply Qsum_numbers_cons.
    + ring.
Qed.

(** ** Groups of a table *)

Lemma combine_columns {A B C : Type} (f : A -> B) (g : A -> C) l :
  combine (map f l) (map g l) = map (fun x => (f x, g x)) l.
Proof. induction l as [|x l IH]; simpl; [reflexivity|now rewrite IH]. Qed.

Lemma filter_map_comm {A B : Type} (f : A -> B) (p : B -> bool) l :
  filter p (map f l) = map f (filter (fun x => p (f x)) l).
Proof.
  induction l as [|x l IH]; simpl; [reflexivity|].
  destruct (p (f x)); simpl; now rewrite IH.
Qed.

Lemma group_sum_rows k iv ia df :
  group_sum k (map (cell iv) (rows df)) (map (cell ia) (rows df)) =
  Qsum (amounts ia (vendor_rows iv k df)).
Proof.
  unfold group_sum, amounts, vendor_rows.
  rewrite combine_columns, filter_map_comm, map_map. reflexivity.
Qed.

Lemma group_size_rows k iv df :
  group_size k (map (cell iv) (rows df)) = length (vendor_rows iv k df).
Proof.
  unfold group_size, vendor_rows. now rewrite filter_map_comm, length_map.
Qed.

Lemma series_of_at name dup df i :
  positions name (columns df) = [i] ->
  series_of name dup df = Ok (i, map (cell i) (rows df)).
Proof. intros E. unfold series_of. now rewrite (getitem_at _ _ _ E). Qed.

Section CleanedFacts.
Variable df : DataFrame.
Variables iv ia id : nat.
Hypothesis C : Cleaned df iv ia id.

Lemma cleaned_vendor_text r :
  In r (rows df) -> exists s, cell iv r = VStr s.
Proof.
  intros Hr. pose proof (vendor_text _ _ _ _ C r Hr) as H.
  destruct (cell iv r) as [|s|q|t]; try discriminate. eauto.
Qed.

Lemma cleaned_numeric : numeric (map (cell ia) (rows df)) = Ok (map (cell ia) (rows df)).
Proof.
  unfold numeric.
  replace (forallb numeric_or_null (map (cell ia) (rows df))) with true;
    [reflexivity|].
  symmetry. apply forallb_forall. intros v Hv.
  apply in_map_iff in Hv as [r [<- Hr]].
  pose proof (amount_number _ _ _ _ C r Hr) as H. now destruct (cell ia r).
Qed.

Lemma cleaned_keys_notnull :
  filter notnull (map (cell iv) (rows df)) = map (cell iv) (rows df).
Proof.
  apply filter_all. intros v Hv. apply in_map_iff in Hv as [r [<- Hr]].
  destruct (cleaned_vendor_text r Hr) as [s ->]. reflexivity.
Qed.

(** The vendors of the table are the distinct vendor cells. *)
Lemma cleaned_vendors k :
  In k (distinct (map (cell iv) (rows df))) <->
  exists r, In r (rows df) /\ cell iv r = k.
Proof.
  split.
  - intros H. apply distinct_in, in_map_iff in H as [r [E Hr]]. eauto.
  - intros [r [Hr <-]].
    destruct (distinct_covers (cell iv r) (map (cell iv) (rows df)))
      as [k [Hk E]]; [now apply in_map|].
    destruct (cleaned_vendor_text r Hr) as [s Es]. rewrite Es in *.
    rewrite value_eqb_sym in E. apply value_eqb_text in E. now subst.
Qed.

Lemma vendor_totals_cleaned :
  vendor_totals df =
  Ok (sort_values_desc
        (map (fun k => (k, Qsum (amounts ia (vendor_rows iv k df))))
             (sort value_leb (distinct (map (cell iv) (rows df)))))).
Proof.
  unfold vendor_totals.
  rewrite (series_of_at _ _ _ _ (vendor_at _ _ _ _ C)).
  rewrite (series_of_at _ _ _ _ (amount_at _ _ _ _ C)).
  cbn [bind snd]. rewrite cleaned_numeric. cbn [bind].
  unfold groupby_sum, group_keys. rewrite cleaned_keys_notnull.
  do 2 f_equal. apply map_ext. intros k. now rewrite group_sum_rows.
Qed.

Lemma payment_counts_cleaned :
  value_counts (map (cell iv) (rows df)) =
  sort (fun a b => snd b <=? snd a)
       (map (fun k => (k, length (vendor_rows iv k df)))
            (distinct (map (cell iv) (rows df)))).
Proof.
  unfold value_counts. rewrite cleaned_keys_notnull. f_equal.
  apply map_ext. intros k. now rewrite group_size_rows.
Qed.

End CleanedFacts.

(** ** Ordered series *)

Lemma sort_strongly {A : Type} (leb : A -> A -> bool) (R : A -> A -> Prop) l :
  (forall a b, leb a b = true -> R a b) ->
  (forall a b, leb a b = true \/ leb b a = true) ->
  (forall a b c, R a b -> R b c -> R a c) ->
  StronglySorted R (sort leb l).
Proof.
  intros Himp Htot Htrans. apply Sorted_StronglySorted; [exact Htrans|].
  pose proof (sort_sorted leb Htot l) as S.
  induction S as [|x t St IH Hd]; constructor; [exact IH|].
  destruct Hd; constructor. now apply Himp.
Qed.

Lemma sort_values_desc_sorted s :
  StronglySorted (fun a b => (snd b <= snd a)%Q) (sort_values_desc s).
Proof.
  apply sort_strongly.
  - intros a b. apply Qle_bool_iff.
  - intros a b. apply Qle_bool_total.
  - intros a b c H1 H2. now apply (Qle_trans _ (snd b)).
Qed.

Lemma counts_sorted (s : list (value * nat)) :
  StronglySorted (fun a b => snd b <= snd a) (sort (fun a b => snd b <=? snd a) s).
Proof.
  apply sort_strongly.
  - intros a b. apply Nat.leb_le.
  - intros a b. rewrite !Nat.leb_le. lia.
  - intros a b c. lia.
Qed.

(** The labels of a sorted series of groups. *)
Lemma sorted_groups_labels {B : Type} (leb : value * B -> value * B -> bool)
      (f : value -> B) (ks : list value) :
  Permutation (map fst (sort leb (map (fun k => (k, f k)) ks))) ks.
Proof.
  eapply perm_trans; [apply Permutation_map, sort_perm|].
  rewrite map_map. cbn [fst]. rewrite map_id. apply Permutation_refl.
Qed.

Lemma sorted_groups_entry {B : Type} (leb : value * B -> value * B -> bool)
      (f : value -> B) (ks : list value) k b :
  In (k, b) (sort leb (map (fun k => (k, f k)) ks)) <-> In k ks /\ b = f k.
Proof.
  rewrite sort_in, in_map_iff. split.
  - intros [k' [E Hk]]. injection E as -> <-. auto.
  - intros [Hk ->]. eauto.
Qed.

(** Looking a vendor name up in a series without repeated labels. *)
Lemma lookup_text {B : Type} s (b : B) (l : list (value * B)) :
  NoDup (map fst l) -> In (VStr s, b) l -> lookup (VStr s) l = Some b.
Proof.
  induction l as [|[k' b'] t IH]; cbn [lookup In map fst]; [contradiction|].
  intros N Hin. inversion N as [|? ? Hnot N']; subst.
  destruct (value_eqb (VStr s) k') eqn:E.
  - apply value_eqb_text in E. subst k'.
    destruct Hin as [Hin|Hin]; [congruence|].
    exfalso. apply Hnot. apply (in_map fst) in Hin. exact Hin.
  - destruct Hin as [Hin|Hin].
    + injection Hin as Hk _. subst k'. now rewrite value_eqb_refl in E.
    + now apply IH.
Qed.

(** ** The console output of the aggregations *)

Lemma total_payments_by_vendor_run df totals t :
  vendor_totals df = Ok totals ->
  total_payments_by_vendor df t =
  (t ++ [Print_text (newline ++ "Top 10 Vendors by Total Payments:");
         Print_totals (firstn 20 totals)], Ok totals).
Proof.
  intros H. unfold total_payments_by_vendor, io_bind, lift, emit, io_ret.
  rewrite H. now rewrite <- app_assoc.
Qed.

Lemma payment_frequency_run df iv t :
  positions "VENDOR" (columns df) = [iv] ->
  payment_frequency df t =
  (t ++ [Print_text (newline ++ "Vendors by Payment Frequency:");
         Print_counts (firstn 20 (value_counts (map (cell iv) (rows df))))],
   Ok (value_counts (map (cell iv) (rows df)))).
Proof.
  intros H. unfold payment_frequency, io_bind, lift, emit, io_ret.
  rewrite (series_of_at _ _ _ _ H). cbn [bind snd]. now rewrite <- app_assoc.
Qed.

(** A step of a run that completed has completed. *)
Lemma io_bind_ok {A B : Type} (m : IO A) (k : A -> IO B) t tr b :
  io_bind m k t = (tr, Ok b) ->
  exists a t', m t = (t', Ok a) /\ k a t' = (tr, Ok b).
Proof.
  unfold io_bind. destruct (m t) as [t' [a|e]]; intros H; [eauto|discriminate].
Qed.

Section Exports.
Context {P : Parsers}.
Variable read_csv : string -> result DataFrame.

(** A run that completes ends by writing the two files: the series that
    [total_payments_by_vendor] returned and the frame of anomalies. *)
Lemma run_analysis_exports file_path raw df totals t tr :
  read_csv file_path = Ok raw ->
  clean_data raw = Ok df ->
  vendor_totals df = Ok totals ->
  run_analysis read_csv file_path t = (tr, Ok tt) ->
  exists tr0 anomalies,
    tr = tr0 ++ [To_csv_series "total_payments_by_vendor.csv" totals;
                 To_csv_frame "anomalous_payments.csv" anomalies].
Proof.
  intros Hread Hclean Htot H. unfold run_analysis, load_data in H.
  apply io_bind_ok in H as (df0 & t0 & H0 & H).
  unfold lift in H0. rewrite Hread in H0. injection H0 as <- <-.
  apply io_bind_ok in H as (df1 & t1 & H1 & H).
  unfold lift in H1. rewrite Hclean in H1. injection H1 as <- <-.
  apply io_bind_ok in H as (u2 & t2 & _ & H).
  apply io_bind_ok in H as (tot & t3 & H3 & H).
  rewrite (total_payments_by_vendor_run _ _ _ Htot) in H3. injection H3 as _ <-.
  apply io_bind_ok in H as (u4 & t4 & _ & H).
  apply io_bind_ok in H as (anomalies & t5 & _ & H).
  apply io_bind_ok in H as (u6 & t6 & _ & H).
  apply io_bind_ok in H as (u7 & t7 & _ & H).
  apply io_bind_ok in H as (u8 & t8 & H8 & H).
  unfold emit in H8, H. injection H8 as <-. injection H as <-.
  exists t7, anomalies. now rewrite <- app_assoc.
Qed.

End Exports.

(** ** The ledgers are cleaned tables *)

Lemma cleaned_Cleaned : Cleaned Ledger.cleaned 0 1 2.
Proof.
  split; try reflexivity; intros r Hr; cbn [rows Ledger.cleaned In] in Hr;
    repeat (destruct Hr as [<-|Hr]; [reflexivity|]);
    contradiction.
Qed.

Lemma plain_Cleaned : Cleaned Ledger.plain 0 1 2.
Proof.
  split; try reflexivity; intros r Hr; cbn [rows Ledger.plain In] in Hr;
    repeat (destruct Hr as [<-|Hr]; [reflexivity|]);
    contradiction.
Qed.

(** C3.  On a cleaned table the values of the series that
    [total_payments_by_vendor] returns add up to the sum of the amount
    column.  Amounts are exact rationals, so the two sums are equal as
    rationals; the rounding of floating-point addition is not modelled. *)
Theorem vendor_totals_sum (df : DataFrame) (iv ia id : nat) :
  Cleaned df iv ia id ->
  exists totals,
    (forall t, snd (total_payments_by_vendor df t) = Ok totals) /\
    (Qsum (map snd totals) == Qsum (amounts ia (rows df)))%Q.
Proof.
  intros C. pose proof (vendor_totals_cleaned _ _ _ _ C) as Ht.
  eexists. split.
  - intros t. now rewrite (total_payments_by_vendor_run _ _ t Ht).
  - unfold sort_values_desc.
    rewrite (Qsum_perm _ _ (Permutation_map snd (sort_perm _ _))).
    rewrite map_map. cbn [snd].
    rewrite (Qsum_perm _ _ (Permutation_map _ (sort_perm value_leb _))).
    set (L := map (fun r => (cell iv r, cell ia r)) (rows df)).
    rewrite (Qsum_map_ext _
               (fun k => Qsum (numbers (map snd
                  (filter (fun kv => value_eqb k (fst kv)) L))))).
    + rewrite sum_by_group.
      * unfold L, amounts. now rewrite map_map.
      * intros kv Hkv. apply in_map_iff in Hkv as [r [<- Hr]]. cbn [fst].
        apply distinct_once. now apply in_map.
    + intros k _. unfold amounts, vendor_rows, L.
      now rewrite filter_map_comm, map_map.
Qed.

Lemma vendor_totals_sum_witness :
  Cleaned Ledger.cleaned 0 1 2 /\
  exists totals,
    (forall t, snd (total_payments_by_vendor Ledger.cleaned t) = Ok totals) /\
    (Qsum (map snd totals) == Qsum (amounts 1 (rows Ledger.cleaned)))%Q.
Proof.
  split; [exact cleaned_Cleaned|].
  exact (vendor_totals_sum Ledger.cleaned 0 1 2 cleaned_Cleaned).
Defined.

(** C5.  On a cleaned table [total_payments_by_vendor] returns a series
    with one entry per vendor of the table and no other entry; the value of
    an entry is the sum of the amounts of that vendor's rows; the entries
    are in descending order of value.  It prints the first 20 entries and
    returns them all, and a run of [run_analysis] that completes writes the
    returned series, not the printed one, to total_payments_by_vendor.csv. *)
Theorem total_payments_by_vendor_full {P : Parsers} (df : DataFrame) (iv ia id : nat) :
  Cleaned df iv ia id ->
  exists totals,
    (forall t, total_payments_by_vendor df t =
               (t ++ [Print_text (newline ++ "Top 10 Vendors by Total Payments:");
                      Print_totals (firstn 20 totals)], Ok totals)) /\
    StronglySorted (fun a b => (snd b <= snd a)%Q) totals /\
    NoDup (map fst totals) /\
    (forall k, In k (map fst totals) <-> exists r, In r (rows df) /\ cell iv r = k) /\
    (forall k q, In (k, q) totals -> q = Qsum (amounts ia (vendor_rows iv k df))) /\
    (forall read_csv file_path raw t tr,
       read_csv file_path = Ok raw ->
       clean_data raw = Ok df ->
       run_analysis read_csv file_path t = (tr, Ok tt) ->
       exists tr0 anomalies,
         tr = tr0 ++ [To_csv_series "total_payments_by_vendor.csv" totals;
                      To_csv_frame "anomalous_payments.csv" anomalies]).
Proof.
  intros C. pose proof (vendor_totals_cleaned _ _ _ _ C) as Ht.
  eexists. split; [|split; [|split; [|split; [|split]]]].
  - intros t. exact (total_payments_by_vendor_run _ _ t Ht).
  - apply sort_values_desc_sorted.
  - eapply Permutation_NoDup;
      [apply Permutation_sym, sorted_groups_labels|].
    eapply Permutation_NoDup; [apply Permutation_sym, sort_perm|].
    apply distinct_NoDup.
  - intros k. rewrite <- (cleaned_vendors _ _ _ _ C).
    rewrite <- (sort_in value_leb k (distinct (map (cell iv) (rows df)))).
    split; apply Permutation_in; [|apply Permutation_sym];
      apply sorted_groups_labels.
  - intros k q H. now apply sorted_groups_entry in H as [_ ->].
  - intros read_csv file_path raw t tr Hread Hclean Hrun.
    exact (run_analysis_exports read_csv _ _ _ _ _ _ Hread Hclean Ht Hrun).
Qed.

Lemma total_payments_by_vendor_full_witness :
  Cleaned Ledger.cleaned 0 1 2 /\
  exists totals,
    (forall t, total_payments_by_vendor Ledger.cleaned t =
               (t ++ [Print_text (newline ++ "Top 10 Vendors by Total Payments:");
                      Print_totals (firstn 20 totals)], Ok totals)) /\
    StronglySorted (fun a b => (snd b <= snd a)%Q) totals /\
    NoDup (map fst totals) /\
    (forall k, In k (map fst totals) <->
               exists r, In r (rows Ledger.cleaned) /\ cell 0 r = k) /\
    (forall k q, In (k, q) totals ->
                 q = Qsum (amounts 1 (vendor_rows 0 k Ledger.cleaned))) /\
    (forall read_csv file_path raw t tr,
       read_csv file_path = Ok raw ->
       clean_data raw = Ok Ledger.cleaned ->
       run_analysis read_csv file_path t = (tr, Ok tt) ->
       exists tr0 anomalies,
         tr = tr0 ++ [To_csv_series "total_payments_by_vendor.csv" totals;
                      To_csv_frame "anomalous_payments.csv" anomalies]).
Proof.
  split; [exact cleaned_Cleaned|].
  exact (total_payments_by_vendor_full Ledger.cleaned 0 1 2 cleaned_Cleaned).
Defined.

(** C6.  On a cleaned table [payment_frequency] returns a series with one
    entry per vendor, whose value is the number of that vendor's rows, in
    descending order of value.  When the rows of vendor "X" are two, with
    amounts 100 and 200, the total of "X" is 300 and its frequency is 2. *)
Theorem payment_frequency_counts (df : DataFrame) (iv ia id : nat) :
  Cleaned df iv ia id ->
  exists freq,
    (forall t, payment_frequency df t =
               (t ++ [Print_text (newline ++ "Vendors by Payment Frequency:");
                      Print_counts (firstn 20 freq)], Ok freq)) /\
    StronglySorted (fun a b => snd b <= snd a) freq /\
    NoDup (map fst freq) /\
    (forall k, In k (map fst freq) <-> exists r, In r (rows df) /\ cell iv r = k) /\
    (forall k n, In (k, n) freq -> n = length (vendor_rows iv k df)) /\
    (forall r1 r2,
       vendor_rows iv (VStr "X") df = [r1; r2] ->
       cell ia r1 = VNum 100 -> cell ia r2 = VNum 200 ->
       exists totals,
         (forall t, snd (total_payments_by_vendor df t) = Ok totals) /\
         lookup (VStr "X") totals = Some 300%Q /\
         lookup (VStr "X") freq = Some 2).
Proof.
  intros C. pose proof (payment_counts_cleaned _ _ _ _ C) as Hf.
  pose proof (vendor_totals_cleaned _ _ _ _ C) as Ht.
  exists (value_counts (map (cell iv) (rows df))).
  split; [|split; [|split; [|split; [|split]]]].
  - intros t. apply payment_frequency_run. exact (vendor_at _ _ _ _ C).
  - rewrite Hf. apply counts_sorted.
  - rewrite Hf. eapply Permutation_NoDup;
      [apply Permutation_sym, sorted_groups_labels|]. apply distinct_NoDup.
  - intros k. rewrite Hf, <- (cleaned_vendors _ _ _ _ C).
    split; apply Permutation_in; [|apply Permutation_sym];
      apply sorted_groups_labels.
  - intros k n H. rewrite Hf in H. now apply sorted_groups_entry in H as [_ ->].
  - intros r1 r2 Hx H1 H2.
    assert (Hin : In (VStr "X") (distinct (map (cell iv) (rows df)))).
    { apply (cleaned_vendors _ _ _ _ C). exists r1.
      assert (Hr1 : In r1 (vendor_rows iv (VStr "X") df))
        by (rewrite Hx; now left).
      apply filter_In in Hr1 as [Hr1 E]. split; [exact Hr1|].
      now apply value_eqb_text in E. }
    eexists. split; [|split].
    + intros t. now rewrite (total_payments_by_vendor_run _ _ t Ht).
    + apply lookup_text.
      * eapply Permutation_NoDup;
          [apply Permutation_sym, sorted_groups_labels|].
        eapply Permutation_NoDup; [apply Permutation_sym, sort_perm|].
        apply distinct_NoDup.
      * apply sorted_groups_entry. split; [now apply sort_in|].
        unfold amounts. rewrite Hx. cbn [map]. rewrite H1, H2. reflexivity.
    + rewrite Hf. apply lookup_text.
      * eapply Permutation_NoDup;
          [apply Permutation_sym, sorted_groups_labels|]. apply distinct_NoDup.
      * apply sorted_groups_entry. split; [exact Hin|]. now rewrite Hx.
Qed.

Lemma payment_frequency_counts_witness :
  Cleaned Ledger.plain 0 1 2 /\
  exists totals freq,
    (forall t, snd (total_payments_by_vendor Ledger.plain t) = Ok totals) /\
    (forall t, snd (payment_frequency Ledger.plain t) = Ok freq) /\
    lookup (VStr "X") totals = Some 300%Q /\
    lookup (VStr "X") freq = Some 2.
Proof.
  split; [exact plain_Cleaned|].
  destruct (payment_frequency_counts Ledger.plain 0 1 2 plain_Cleaned)
    as (freq & Hrun & _ & _ & _ & _ & Hx).
  destruct (Hx (mkRow 0 [VStr "X"; VNum 100; VDate (mkTimestamp 2024 1 15 0)])
               (mkRow 1 [VStr "X"; VNum 200; VDate (mkTimestamp 2024 3 9 0)])
               eq_refl eq_refl eq_refl) as (totals & Ht & Hl1 & Hl2).
  exists totals, freq. repeat split; try assumption.
  intros t. now rewrite Hrun.
Defined.

(** ** The percentile threshold *)

Lemma Qle_sorted l : StronglySorted Qle (sort Qle_bool l).
Proof.
  apply sort_strongly.
  - intros a b. apply Qle_bool_iff.
  - apply Qle_bool_total.
  - intros a b c. apply Qle_trans.
Qed.

Lemma inject_nat_nonneg k : (0 <= inject_Z (Z.of_nat k))%Q.
Proof. change 0%Q with (inject_Z 0). rewrite <- Zle_Qle. lia. Qed.

(** [quantile] computes the percentile the specification describes. *)
Lemma quantile_linear p xs :
  (0 <= p)%Q -> (p <= 1)%Q -> xs <> [] ->
  exists t, quantile p xs = Some t /\ linear_percentile p xs t.
Proof.
  intros Hp0 Hp1 Hne. unfold quantile.
  pose proof (sort_length Qle_bool xs) as Hlen.
  pose proof (sort_perm Qle_bool xs) as Hperm.
  pose proof (Qle_sorted xs) as Hsorted.
  destruct (sort Qle_bool xs) as [|x0 s'] eqn:Es.
  { destruct xs; [congruence|discriminate]. }
  set (s := x0 :: s') in *. set (n := length s) in *.
  assert (Hn : 1 <= n) by (unfold n, s; simpl; lia).
  set (h := (inject_Z (Z.of_nat (n - 1)) * p)%Q).
  assert (Hh0 : (0 <= h)%Q)
    by (apply Qmult_le_0_compat; [apply inject_nat_nonneg|exact Hp0]).
  assert (Hh1 : (h <= inject_Z (Z.of_nat (n - 1)))%Q).
  { unfold h. rewrite <- (Qmult_1_r (inject_Z (Z.of_nat (n - 1)))) at 2.
    rewrite !(Qmult_comm (inject_Z (Z.of_nat (n - 1)))).
    apply Qmult_le_compat_r; [exact Hp1|apply inject_nat_nonneg]. }
  assert (Hf0 : (0 <= Qfloor h)%Z)
    by (change 0%Z with (Qfloor 0); now apply Qfloor_resp_le).
  assert (Hf1 : (Qfloor h <= Z.of_nat (n - 1))%Z)
    by (rewrite <- (Qfloor_Z (Z.of_nat (n - 1))); now apply Qfloor_resp_le).
  set (j := Z.to_nat (Qfloor h)).
  assert (Hj : Z.of_nat j = Qfloor h) by (unfold j; now rewrite Z2Nat.id).
  assert (Hjn : j < n) by lia.
  eexists. split; [reflexivity|].
  exists s, j, (h - inject_Z (Qfloor h))%Q,
         (nth j s x0), (nth (Nat.min (S j) (n - 1)) s x0).
  rewrite <- Hlen. fold n.
  repeat split; try assumption.
  - rewrite Hj. fold h. ring.
  - pose proof (Qfloor_le h) as H. apply (Qplus_le_l _ _ (inject_Z (Qfloor h))).
    ring_simplify. exact H.
  - pose proof (Qlt_floor h) as H. rewrite inject_Z_plus in H.
    apply (Qplus_lt_l _ _ (inject_Z (Qfloor h))). ring_simplify.
    change (inject_Z 1) with 1%Q in H.
    apply (Qlt_le_trans _ _ _ H). apply Qle_lteq. right. ring.
  - apply nth_error_nth'. exact Hjn.
  - apply nth_error_nth'. fold n. lia.
Qed.

Lemma numbers_all (vs : list value) :
  forallb is_num vs = true -> length (numbers vs) = length vs.
Proof.
  induction vs as [|v vs IH]; simpl; [reflexivity|].
  intros H. apply andb_prop in H as [Hv H].
  destruct v; try discriminate. simpl. now rewrite IH.
Qed.

Lemma exceeds_spec t v :
  exceeds (Some t) v = true <-> exists q, v = VNum q /\ (t < q)%Q.
Proof.
  destruct v as [|s|q|d]; simpl;
    try (split; [discriminate|intros [q' [E _]]; discriminate]).
  rewrite negb_true_iff. split.
  - intros H. exists q. split; [reflexivity|].
    apply Qnot_le_lt. intros Hle. apply Qle_bool_iff in Hle. congruence.
  - intros [q' [E Hlt]]. injection E as <-.
    destruct (Qle_bool q t) eqn:E; [|reflexivity].
    apply Qle_bool_iff in E. exfalso. exact (Qlt_not_le _ _ Hlt E).
Qed.

(** C2.  On a cleaned table with at least one row [detect_anomalies] takes
    as threshold the 99th percentile of the amount column, by linear
    interpolation between order statistics, and returns the rows of the
    table whose amount is strictly above the threshold: a row is returned
    exactly when it is a row of the table and its amount exceeds the
    threshold.  It reports the threshold and the number of rows returned. *)
Theorem detect_anomalies_above_percentile (df : DataFrame) (iv ia id : nat) :
  Cleaned df iv ia id ->
  rows df <> [] ->
  exists threshold outliers,
    (forall t, detect_anomalies df t =
               (t ++ [Print_threshold (Some threshold) (length (rows outliers))],
                Ok outliers)) /\
    linear_percentile (99 # 100) (amounts ia (rows df)) threshold /\
    columns outliers = columns df /\
    (forall r, In r (rows outliers) <->
               In r (rows df) /\ exists q, cell ia r = VNum q /\ (threshold < q)%Q).
Proof.
  intros C Hne.
  assert (Hnums : amounts ia (rows df) <> []).
  { intros E. apply (f_equal (@length Q)) in E. unfold amounts in E.
    rewrite numbers_all, length_map in E.
    - destruct (rows df); [congruence|discriminate].
    - apply forallb_forall. intros v Hv. apply in_map_iff in Hv as [r [<- Hr]].
      exact (amount_number _ _ _ _ C r Hr). }
  destruct (quantile_linear (99 # 100) (amounts ia (rows df)))
    as [threshold [Hq Hlin]]; try assumption; try discriminate.
  assert (Hout : outliers_of df =
                 Ok (Some threshold,
                     mkDF (columns df)
                          (filter (fun r => exceeds (Some threshold) (cell ia r))
                                  (rows df)))).
  { unfold outliers_of.
    rewrite (series_of_at _ _ _ _ (amount_at _ _ _ _ C)). cbn [bind snd fst].
    rewrite (cleaned_numeric _ _ _ _ C). cbn [bind].
    unfold amounts in Hq. now rewrite Hq. }
  eexists. eexists. split; [|split; [exact Hlin|split]].
  - intros t. unfold detect_anomalies, io_bind, lift, emit, io_ret.
    rewrite Hout. cbn [fst snd]. reflexivity.
  - reflexivity.
  - intros r. cbn [rows]. rewrite filter_In, exceeds_spec. reflexivity.
Qed.

Lemma detect_anomalies_above_percentile_witness :
  Cleaned Ledger.cleaned 0 1 2 /\
  rows Ledger.cleaned <> [] /\
  exists threshold outliers,
    (forall t, detect_anomalies Ledger.cleaned t =
               (t ++ [Print_threshold (Some threshold) (length (rows outliers))],
                Ok outliers)) /\
    linear_percentile (99 # 100) (amounts 1 (rows Ledger.cleaned)) threshold /\
    columns outliers = columns Ledger.cleaned /\
    (forall r, In r (rows outliers) <->
               In r (rows Ledger.cleaned) /\
               exists q, cell 1 r = VNum q /\ (threshold < q)%Q).
Proof.
  assert (Hne : rows Ledger.cleaned <> []) by discriminate.
  refine (conj cleaned_Cleaned (conj Hne _)).
  exact (detect_anomalies_above_percentile Ledger.cleaned 0 1 2 cleaned_Cleaned Hne).
Defined.

(** ** The cross-tabulation *)

Lemma value_eqb_notnull a b :
  value_eqb a b = true -> notnull a = true -> notnull b = true.
Proof. destruct a, b; cbn [value_eqb notnull]; congruence. Qed.

Lemma group_keys_in k keys :
  In k (group_keys keys) <-> In k (distinct (filter notnull keys)).
Proof. apply sort_in. Qed.

Lemma group_keys_notnull k keys : In k (group_keys keys) -> notnull k = true.
Proof.
  intros H. apply group_keys_in, distinct_in, filter_In in H. tauto.
Qed.

Lemma group_keys_sorted keys :
  Sorted (fun a b => value_leb a b = true) (group_keys keys).
Proof. apply sort_sorted, value_leb_total. Qed.

Lemma group_keys_NoDup keys : NoDup (group_keys keys).
Proof.
  eapply Permutation_NoDup; [apply Permutation_sym, sort_perm|].
  apply distinct_NoDup.
Qed.

Lemma nth_map_at {A B : Type} (f : A -> B) l i x d :
  nth_error l i = Some x -> nth i (map f l) d = f x.
Proof.
  revert i. induction l as [|a l IH]; intros [|i]; simpl; try discriminate.
  - now intros [= ->].
  - apply IH.
Qed.

Section Pivot.
Variable df : DataFrame.
Variables iv ia id ip : nat.
Hypothesis C : Cleaned df iv ia id.

(** The rows that have both a vendor and a department. *)
Let placed (r : Row) : bool := notnull (cell iv r) && notnull (cell ip r).

Let triple (r : Row) : value * (value * value) :=
  (cell iv r, (cell ip r, cell ia r)).

Let pv : PivotTable :=
  pivot_table (map (cell iv) (rows df)) (map (cell ip) (rows df))
              (map (cell ia) (rows df)).

Lemma pivot_observed :
  filter (fun o => notnull (fst o) && notnull (fst (snd o)))
         (combine (map (cell iv) (rows df))
                  (combine (map (cell ip) (rows df)) (map (cell ia) (rows df)))) =
  map triple (filter placed (rows df)).
Proof.
  rewrite combine_columns.
  rewrite (combine_columns (cell iv) (fun r => (cell ip r, cell ia r))).
  now rewrite filter_map_comm.
Qed.

Lemma placed_spec r :
  In r (rows df) -> placed r = notnull (cell ip r).
Proof.
  intros Hr. unfold placed.
  destruct (cleaned_vendor_text _ _ _ _ C r Hr) as [s ->]. reflexivity.
Qed.

(** The row labels: the vendors that have a row with a department. *)
Lemma pivot_index_spec v :
  In v (pv_index pv) <->
  exists r, In r (rows df) /\ cell iv r = v /\ notnull (cell ip r) = true.
Proof.
  unfold pv, pivot_table. cbn [pv_index]. rewrite pivot_observed, map_map.
  cbn [triple fst]. rewrite group_keys_in. split.
  - intros H. apply distinct_in, filter_In in H as [H _].
    apply in_map_iff in H as [r [<- Hr]]. apply filter_In in Hr as [Hr Hp].
    exists r. rewrite (placed_spec r Hr) in Hp. auto.
  - intros [r [Hr [<- Hp]]].
    destruct (cleaned_vendor_text _ _ _ _ C r Hr) as [s Es].
    assert (Hin : In (cell iv r)
                     (filter notnull (map (cell iv) (filter placed (rows df))))).
    { apply filter_In. split; [|now rewrite Es].
      apply in_map, filter_In. now rewrite (placed_spec r Hr). }
    destruct (distinct_covers _ _ Hin) as [k [Hk E]].
    rewrite Es in *. rewrite value_eqb_sym in E.
    apply value_eqb_text in E. now subst.
Qed.

(** The column labels: the departments of the table. *)
Lemma pivot_columns_spec :
  (forall d, In d (pv_columns pv) ->
             notnull d = true /\ exists r, In r (rows df) /\ cell ip r = d) /\
  (forall r, In r (rows df) -> notnull (cell ip r) = true ->
             exists d, In d (pv_columns pv) /\ value_eqb d (cell ip r) = true).
Proof.
  unfold pv, pivot_table. cbn [pv_columns]. rewrite pivot_observed, map_map.
  cbn [triple fst snd]. split.
  - intros d H. split; [exact (group_keys_notnull _ _ H)|].
    apply group_keys_in, distinct_in, filter_In in H as [H _].
    apply in_map_iff in H as [r [<- Hr]]. apply filter_In in Hr as [Hr _]. eauto.
  - intros r Hr Hp.
    destruct (distinct_covers (cell ip r)
                (filter notnull (map (cell ip) (filter placed (rows df)))))
      as [d [Hd E]].
    + apply filter_In. split; [|exact Hp].
      apply in_map, filter_In. now rewrite (placed_spec r Hr).
    + exists d. split; [now apply group_keys_in|exact E].
Qed.

(** The rows of one vendor and one department. *)
Let cell_rows (v d : value) : list Row :=
  filter (fun r => value_eqb v (cell iv r) && value_eqb d (cell ip r)) (rows df).

Lemma pivot_pair v d :
  notnull v = true -> notnull d = true ->
  filter (fun o => value_eqb v (fst o) && value_eqb d (fst (snd o)))
         (map triple (filter placed (rows df))) =
  map triple (cell_rows v d).
Proof.
  intros Hv Hd. rewrite filter_map_comm. f_equal. cbn [triple fst snd].
  unfold cell_rows. induction (rows df) as [|r l IH]; [reflexivity|].
  cbn [filter].
  destruct (value_eqb v (cell iv r) && value_eqb d (cell ip r)) eqn:E.
  - apply andb_prop in E as [E1 E2].
    unfold placed at 1.
    rewrite (value_eqb_notnull _ _ E1 Hv), (value_eqb_notnull _ _ E2 Hd).
    cbn [andb filter]. now rewrite E1, E2, IH.
  - destruct (placed r); cbn [filter]; [rewrite E|]; exact IH.
Qed.

(** A cell of the cross-tabulation: the sum of the amounts of the rows of
    its vendor and department, and zero when there is no such row. *)
Lemma pivot_cell i j v d :
  nth_error (pv_index pv) i = Some v ->
  nth_error (pv_columns pv) j = Some d ->
  nth j (nth i (pv_data pv) []) 0%Q =
  match cell_rows v d with
  | [] => 0%Q
  | g => Qsum (amounts ia g)
  end.
Proof.
  intros Hi Hj.
  assert (Hv : notnull v = true).
  { apply nth_error_In in Hi. unfold pv, pivot_table in Hi. cbn [pv_index] in Hi.
    exact (group_keys_notnull _ _ Hi). }
  assert (Hd : notnull d = true).
  { apply nth_error_In in Hj. unfold pv, pivot_table in Hj. cbn [pv_columns] in Hj.
    exact (group_keys_notnull _ _ Hj). }
  unfold pv, pivot_table in *. cbn [pv_index pv_columns pv_data] in *.
  rewrite pivot_observed in *.
  rewrite (nth_map_at _ _ _ _ _ Hi), (nth_map_at _ _ _ _ _ Hj).
  unfold pair_sum. rewrite (pivot_pair v d Hv Hd).
  destruct (cell_rows v d) as [|r g]; [reflexivity|].
  cbn [map fillna]. unfold amounts. cbn [map triple snd]. f_equal.
  f_equal. rewrite map_map. reflexivity.
Qed.

End Pivot.

(** C8, amended.  On a cleaned table with a DEPARTMENT column
    [department_vendor_heatmap] builds the cross-tabulation [pivot]: its row
    labels are the vendors that have a row with a department, each once, in
    ascending order of the label; its column labels are the departments;
    the cell of a vendor and a department is the sum of the amounts of their
    rows, and zero when they have no row.  It passes the first 20 rows of
    [pivot] to the heatmap, in the order of the cross-tabulation, which is
    the ascending order of the vendor labels: not the order of the totals,
    and not the order in which the table has the vendors.  When some row
    has a department, that is the one heatmap it draws. *)
Theorem department_vendor_heatmap_pivot (df : DataFrame) (iv ia id ip : nat) :
  Cleaned df iv ia id ->
  positions "DEPARTMENT" (columns df) = [ip] ->
  exists pivot,
    (forall t, department_vendor_heatmap df t = heatmap (pivot_head 20 pivot) t) /\
    ((exists r, In r (rows df) /\ notnull (cell ip r) = true) ->
     forall t, department_vendor_heatmap df t =
               (t ++ [Show_heatmap (pivot_head 20 pivot)], Ok tt)) /\
    (forall v, In v (pv_index pivot) <->
               exists r, In r (rows df) /\ cell iv r = v /\ notnull (cell ip r) = true) /\
    (forall d, In d (pv_columns pivot) ->
               notnull d = true /\ exists r, In r (rows df) /\ cell ip r = d) /\
    (forall r, In r (rows df) -> notnull (cell ip r) = true ->
               exists d, In d (pv_columns pivot) /\ value_eqb d (cell ip r) = true) /\
    NoDup (pv_index pivot) /\
    Sorted (fun a b => value_leb a b = true) (pv_index pivot) /\
    (forall i j v d,
       nth_error (pv_index pivot) i = Some v ->
       nth_error (pv_columns pivot) j = Some d ->
       nth j (nth i (pv_data pivot) []) 0%Q =
       match filter (fun r => value_eqb v (cell iv r) && value_eqb d (cell ip r))
                    (rows df) with
       | [] => 0%Q
       | g => Qsum (amounts ia g)
       end) /\
    pv_index (pivot_head 20 pivot) = firstn 20 (pv_index pivot) /\
    pv_data (pivot_head 20 pivot) = firstn 20 (pv_data pivot) /\
    length (pv_index (pivot_head 20 pivot)) <= 20.
Proof.
  intros C Ep.
  set (pivot := pivot_table (map (cell iv) (rows df)) (map (cell ip) (rows df))
                            (map (cell ia) (rows df))).
  exists pivot.
  pose proof (pivot_index_spec df iv ia id ip C) as Hindex.
  pose proof (pivot_columns_spec df iv ia id ip C) as [Hcols Hcover].
  assert (Hrun : forall t, department_vendor_heatmap df t =
                           heatmap (pivot_head 20 pivot) t).
  { intros t. unfold department_vendor_heatmap.
    rewrite (has_column_at _ _ _ Ep). unfold io_bind, lift.
    rewrite (series_of_at _ _ _ _ (vendor_at _ _ _ _ C)).
    rewrite (series_of_at _ _ _ _ Ep).
    rewrite (series_of_at _ _ _ _ (amount_at _ _ _ _ C)).
    cbn [bind snd]. rewrite (cleaned_numeric _ _ _ _ C). reflexivity. }
  split; [exact Hrun|].
  split; [|split; [exact Hindex|split; [exact Hcols|split; [exact Hcover|]]]].
  - intros [r0 [Hr0 Hd0]] t. rewrite Hrun.
    unfold heatmap, pivot_head. cbn [pv_index].
    assert (Hin : In (cell iv r0) (pv_index pivot)) by (apply Hindex; eauto).
    destruct (pv_index pivot) as [|v vs]; [contradiction|]. reflexivity.
  - split; [apply group_keys_NoDup|].
    split; [apply group_keys_sorted|].
    split; [exact (pivot_cell df iv ia ip)|].
    split; [reflexivity|]. split; [reflexivity|].
    cbn [pivot_head pv_index]. apply firstn_le_length.
Qed.

Lemma department_vendor_heatmap_pivot_witness :
  Cleaned Ledger.cleaned 0 1 2 /\
  positions "DEPARTMENT" (columns Ledger.cleaned) = [3] /\
  exists pivot,
    (forall t, department_vendor_heatmap Ledger.cleaned t =
               (t ++ [Show_heatmap (pivot_head 20 pivot)], Ok tt)) /\
    NoDup (pv_index pivot) /\
    Sorted (fun a b => value_leb a b = true) (pv_index pivot) /\
    length (pv_index (pivot_head 20 pivot)) <= 20.
Proof.
  assert (Hp : positions "DEPARTMENT" (columns Ledger.cleaned) = [3])
    by reflexivity.
  assert (Hr : exists r, In r (rows Ledger.cleaned) /\ notnull (cell 3 r) = true).
  { exists (mkRow 5 [VStr "Globex"; VNum 40; VDate (mkTimestamp 2024 3 10 0);
                     VStr "Roads"]).
    split; [cbn [rows Ledger.cleaned In]; auto|reflexivity]. }
  refine (conj cleaned_Cleaned (conj Hp _)).
  destruct (department_vendor_heatmap_pivot Ledger.cleaned 0 1 2 3
              cleaned_Cleaned Hp)
    as (pivot & _ & Hrun & _ & _ & _ & Hnd & Hs & _ & _ & _ & Hlen).
  exists pivot. auto.
Defined.

(** C8, as the specification words it, does not hold.  The ledger of
    twenty-one vendors is a cleaned table, and [clean_data] returns it as it
    is.  Zenith is the vendor of its first row, and so the first of the
    first 20 vendors in table order; the heatmap is drawn without Zenith:
    its 20 rows are the vendors A to T, the first 20 in the order of the
    labels. *)
Lemma heatmap_not_in_table_order :
  clean_data Crowd.ledger = Ok Crowd.ledger /\
  Cleaned Crowd.ledger 0 1 2 /\
  positions "DEPARTMENT" (columns Crowd.ledger) = [3] /\
  exists data,
    department_vendor_heatmap Crowd.ledger [] = ([Show_heatmap data], Ok tt) /\
    length (pv_index data) = 20 /\
    hd_error (first_vendors_in_table_order 20 0 3 Crowd.ledger) =
    Some (VStr "Zenith") /\
    ~ In (VStr "Zenith") (pv_index data) /\
    pv_index data <> first_vendors_in_table_order 20 0 3 Crowd.ledger.
Proof.
  assert (Hclean : clean_data Crowd.ledger = Ok Crowd.ledger)
    by (vm_compute; reflexivity).
  split; [exact Hclean|]. split; [|split; [reflexivity|]].
  - destruct (clean_data_Cleaned _ _ Hclean) as (iv & ia & id & C).
    pose proof (vendor_at _ _ _ _ C) as Ev.
    pose proof (amount_at _ _ _ _ C) as Ea.
    pose proof (rundate_at _ _ _ _ C) as Ed.
    injection Ev as <-. injection Ea as <-. injection Ed as <-. exact C.
  - eexists. split; [vm_compute; reflexivity|].
    split; [reflexivity|]. split; [reflexivity|]. split.
    + intros H. vm_compute in H. intuition discriminate.
    + intros H. vm_compute in H. discriminate.
Qed.

(** ** Heatmaps in the trace *)

Lemma no_heatmap_lift {A : Type} (r : result A) : draws_no_heatmap (lift r).
Proof. intros t tr res H. injection H as <- _. auto. Qed.

Lemma no_heatmap_ret {A : Type} (a : A) : draws_no_heatmap (io_ret a).
Proof. intros t tr res H. injection H as <- _. auto. Qed.

Lemma no_heatmap_emit e :
  (forall data, e <> Show_heatmap data) -> draws_no_heatmap (emit e).
Proof.
  intros He t tr res H. injection H as <- _. intros data Hin.
  apply in_app_or in Hin as [Hin|[Hin|[]]]; [exact Hin|].
  exfalso. exact (He data Hin).
Qed.

Lemma no_heatmap_bind {A B : Type} (m : IO A) (k : A -> IO B) :
  draws_no_heatmap m ->
  (forall a t t', m t = (t', Ok a) -> draws_no_heatmap (k a)) ->
  draws_no_heatmap (io_bind m k).
Proof.
  intros Hm Hk t tr res H data Hin. unfold io_bind in H.
  destruct (m t) as [t' [a|e]] eqn:E.
  - apply (Hm t t' (Ok a) E). exact (Hk a t t' E t' tr res H data Hin).
  - injection H as <- _. exact (Hm t t' (Raise e) E data Hin).
Qed.

Ltac no_heatmap :=
  repeat first
    [ apply no_heatmap_ret
    | apply no_heatmap_lift
    | apply no_heatmap_emit; intros ?; discriminate
    | apply no_heatmap_bind; [|intros ? ? ? ?] ].

Lemma no_heatmap_summary df : draws_no_heatmap (generate_summary df).
Proof. unfold generate_summary. destruct (columns df); no_heatmap. Qed.

Lemma no_heatmap_totals df : draws_no_heatmap (total_payments_by_vendor df).
Proof. unfold total_payments_by_vendor. no_heatmap. Qed.

Lemma no_heatmap_trend df : draws_no_heatmap (monthly_trend df).
Proof.
  unfold monthly_trend. apply no_heatmap_bind; [apply no_heatmap_lift|].
  intros monthly _ _ _. destruct monthly; no_heatmap.
Qed.

Lemma no_heatmap_anomalies df : draws_no_heatmap (detect_anomalies df).
Proof. unfold detect_anomalies. no_heatmap. Qed.

Lemma no_heatmap_frequency df : draws_no_heatmap (payment_frequency df).
Proof. unfold payment_frequency. no_heatmap. Qed.

(** C9.  On a table without a DEPARTMENT column
    [department_vendor_heatmap] draws nothing and raises nothing: it leaves
    the trace as it found it and returns.  A run of [run_analysis] whose
    cleaned table has no such column draws no heatmap either, whatever else
    happens in it. *)
Theorem department_vendor_heatmap_skipped (df : DataFrame) :
  ~ In "DEPARTMENT" (columns df) ->
  (forall t, department_vendor_heatmap df t = (t, Ok tt)) /\
  (forall (P : Parsers) read_csv file_path raw,
     read_csv file_path = Ok raw ->
     clean_data raw = Ok df ->
     draws_no_heatmap (run_analysis read_csv file_path)).
Proof.
  intros Hnot.
  assert (Hskip : forall t, department_vendor_heatmap df t = (t, Ok tt)).
  { intros t. unfold department_vendor_heatmap.
    destruct (has_column "DEPARTMENT" df) eqn:E; [|reflexivity].
    apply has_column_spec in E. contradiction. }
  split; [exact Hskip|].
  intros P read_csv file_path raw Hread Hclean.
  unfold run_analysis, load_data.
  apply no_heatmap_bind; [apply no_heatmap_lift|].
  intros df0 t0 t0' H0. unfold lift in H0. rewrite Hread in H0.
  injection H0 as _ <-.
  apply no_heatmap_bind; [apply no_heatmap_lift|].
  intros df1 t1 t1' H1. unfold lift in H1. rewrite Hclean in H1.
  injection H1 as _ <-.
  apply no_heatmap_bind; [apply no_heatmap_summary|intros _ _ _ _].
  apply no_heatmap_bind; [apply no_heatmap_totals|intros totals _ _ _].
  apply no_heatmap_bind; [apply no_heatmap_trend|intros _ _ _ _].
  apply no_heatmap_bind; [apply no_heatmap_anomalies|intros anomalies _ _ _].
  apply no_heatmap_bind; [apply no_heatmap_frequency|intros _ _ _ _].
  apply no_heatmap_bind.
  - intros t tr res H. rewrite Hskip in H. injection H as <- _. auto.
  - intros _ _ _ _. no_heatmap.
Qed.

Lemma department_vendor_heatmap_skipped_witness :
  Cleaned Ledger.plain 0 1 2 /\
  ~ In "DEPARTMENT" (columns Ledger.plain) /\
  forall t, department_vendor_heatmap Ledger.plain t = (t, Ok tt).
Proof.
  assert (Hnot : ~ In "DEPARTMENT" (columns Ledger.plain))
    by (cbn [columns Ledger.plain In]; intuition discriminate).
  refine (conj plain_Cleaned (conj Hnot _)).
  exact (proj1 (department_vendor_heatmap_skipped Ledger.plain Hnot)).
Defined.

(** ** Two runs *)

(** The ledger, from the file to the two exports. *)
Example run_raw :
  exists tr anomalies,
    main (fun _ => Ok Ledger.raw) [] =
    (tr ++ [To_csv_series "total_payments_by_vendor.csv"
              [(VStr "Acme Corp", (601 # 2)%Q); (VStr "Globex", 40%Q)];
            To_csv_frame "anomalous_payments.csv" anomalies], Ok tt) /\
    map label (rows anomalies) = [4] /\
    exists data, In (Show_heatmap data) tr.
Proof.
  eexists (_ :: _ :: _ :: _ :: _ :: _ :: _ :: _ :: _ :: _ :: [_]), _.
  split; [vm_compute; reflexivity|]. split; [reflexivity|].
  eexists. do 10 right. left. reflexivity.
Qed.

(** A file that cannot be read ends the run before anything is printed. *)
Example run_unreadable :
  main (fun _ => Raise ValueError) [] = ([], Raise ValueError).
Proof. reflexivity. Qed.


(** ** The order and the other columns of the cleaned table *)

Lemma filter_twice {A : Type} (f g : A -> bool) l :
  filter f (filter g l) = filter (fun x => g x && f x) l.
Proof.
  induction l as [|x l IH]; simpl; [reflexivity|].
  destruct (g x); simpl; [destruct (f x)|]; now rewrite IH.
Qed.

Section Order.
Context {P : Parsers}.
Variable cols : list string.
Variables iv ia id : nat.
Hypothesis Ev : positions "VENDOR" cols = [iv].
Hypothesis Ea : positions "CHKSUBTOT" cols = [ia].
Hypothesis Ed : positions "RUNDATE" cols = [id].

Lemma kept_staged rd :
  length (cells (fst rd)) = length cols ->
  complete [iv; ia; id] (with_vendor cols iv (with_rundate cols rd)) &&
  complete [ia] (with_amount cols ia (with_vendor cols iv (with_rundate cols rd))) =
  kept iv ia rd.
Proof.
  intros L. rewrite complete_three, complete_one. unfold kept.
  rewrite (vendor_staged_full cols iv id Ev Ed rd L).
  rewrite (rundate_staged_full cols iv id Ev Ed rd L).
  rewrite (amount_staged cols iv ia id Ev Ea Ed rd).
  destruct (notnull (cell ia (fst rd))) eqn:Na.
  - rewrite (amount_coerced cols ia Ea)
      by (now rewrite (amount_staged cols iv ia id Ev Ea Ed rd)).
    rewrite (amount_staged cols iv ia id Ev Ea Ed rd).
    now destruct (notnull (coerced_vendor _)), (notnull (snd rd)).
  - now rewrite !andb_false_r.
Qed.

Lemma cleaned_rows_labels paired :
  (forall rd, In rd paired -> length (cells (fst rd)) = length cols) ->
  map label (cleaned_rows cols iv ia id paired) =
  map (fun rd => label (fst rd)) (filter (kept iv ia) paired).
Proof.
  intros Hrect. unfold cleaned_rows.
  rewrite (filter_map_comm (fun rd => with_vendor cols iv (with_rundate cols rd))).
  rewrite (filter_map_comm (with_amount cols ia)).
  rewrite (filter_map_comm (fun rd => with_vendor cols iv (with_rundate cols rd))).
  rewrite filter_twice, !map_map.
  rewrite (filter_ext_in _ (kept iv ia))
    by (intros rd Hrd; apply kept_staged, Hrect, Hrd).
  apply map_ext. intros rd. reflexivity.
Qed.

End Order.

(** X1.  [clean_data] keeps the rows in the order of the file: the index
    labels of its result are those of the raw rows that pass the four
    tests, in the same order and as often as they occur. *)
Theorem clean_data_keeps_order {P : Parsers} (HP : ParsersOk P) (df df' : DataFrame) :
  rectangular df ->
  clean_data df = Ok df' ->
  exists iv ia id,
    positions "VENDOR" (map normalize (columns df)) = [iv] /\
    positions "CHKSUBTOT" (map normalize (columns df)) = [ia] /\
    positions "RUNDATE" (map normalize (columns df)) = [id] /\
    map fst (dated_rows id df) = rows df /\
    map label (rows df') =
    map (fun rd => label (fst rd)) (filter (kept iv ia) (dated_rows id df)).
Proof.
  intros Hrect H. apply clean_data_ok in H.
  destruct H as (iv & ia & id & Ev & Ea & Ed & _ & ->).
  exists iv, ia, id. refine (conj Ev (conj Ea (conj Ed (conj _ _)))).
  - apply dated_rows_fst.
  - cbn [rows]. apply (cleaned_rows_labels _ iv ia id Ev Ea Ed).
    intros rd Hrd. rewrite length_map. apply Hrect.
    rewrite <- (dated_rows_fst id df). now apply in_map.
Qed.

Lemma clean_data_keeps_order_witness :
  rectangular Ledger.raw /\
  clean_data Ledger.raw = Ok Ledger.cleaned /\
  exists iv ia id,
    positions "VENDOR" (map normalize (columns Ledger.raw)) = [iv] /\
    positions "CHKSUBTOT" (map normalize (columns Ledger.raw)) = [ia] /\
    positions "RUNDATE" (map normalize (columns Ledger.raw)) = [id] /\
    map fst (dated_rows id Ledger.raw) = rows Ledger.raw /\
    map label (rows Ledger.cleaned) =
    map (fun rd => label (fst rd)) (filter (kept iv ia) (dated_rows id Ledger.raw)).
Proof.
  refine (conj raw_rectangular (conj raw_cleaned _)).
  exact (clean_data_keeps_order iso_parsers_ok Ledger.raw Ledger.cleaned
           raw_rectangular raw_cleaned).
Defined.

(** X2.  [clean_data] rewrites the vendor, the amount and the run date
    and nothing else: every row of its result is a raw row with the same
    index label, as many cells, and the same cell under every column that
    is not one of the three. *)
Theorem clean_data_other_columns {P : Parsers} (df df' : DataFrame) :
  clean_data df = Ok df' ->
  columns df' = map normalize (columns df) /\
  forall r', In r' (rows df') ->
    exists r, In r (rows df) /\
      label r' = label r /\
      length (cells r') = length (cells r) /\
      forall j name, nth_error (columns df') j = Some name ->
        ~ In name ["VENDOR"; "CHKSUBTOT"; "RUNDATE"] ->
        cell j r' = cell j r.
Proof.
  intros H. apply clean_data_ok in H.
  destruct H as (iv & ia & id & Ev & Ea & Ed & _ & ->).
  split; [reflexivity|]. cbn [rows columns]. intros r' Hr'.
  apply cleaned_rows_spec in Hr'. destruct Hr' as ([r d] & Hrd & -> & _ & _).
  exists r. split; [exact (in_combine_l _ _ _ _ Hrd)|].
  split; [reflexivity|]. split.
  - unfold with_amount, with_vendor, with_rundate, assign. cbn [cells fst snd].
    now rewrite !set_where_length.
  - intros j name Hj Hname.
    assert (Hneq : forall n, In n ["VENDOR"; "CHKSUBTOT"; "RUNDATE"] ->
                             nth_error (map normalize (columns df)) j <> Some n).
    { intros n Hn E. rewrite Hj in E. injection E as ->. contradiction. }
    unfold with_amount, with_vendor, with_rundate.
    rewrite !cell_assign_miss; [reflexivity| | |]; apply Hneq; cbn [In]; auto.
Qed.

Lemma clean_data_other_columns_witness :
  clean_data Ledger.raw = Ok Ledger.cleaned /\
  columns Ledger.cleaned = map normalize (columns Ledger.raw) /\
  forall r', In r' (rows Ledger.cleaned) ->
    exists r, In r (rows Ledger.raw) /\
      label r' = label r /\
      length (cells r') = length (cells r) /\
      forall j name, nth_error (columns Ledger.cleaned) j = Some name ->
        ~ In name ["VENDOR"; "CHKSUBTOT"; "RUNDATE"] ->
        cell j r' = cell j r.
Proof.
  refine (conj raw_cleaned _).
  exact (clean_data_other_columns Ledger.raw Ledger.cleaned raw_cleaned).
Defined.

(** ** Column names that coincide after normalization *)

Lemma getitem_frame name df p q ps :
  positions name (columns df) = p :: q :: ps ->
  getitem name df = Ok (Frame (p :: q :: ps)).
Proof. intros E. unfold getitem. now rewrite E. Qed.

Lemma parse_rundate_columns {P : Parsers} df p :
  parse_rundate df = Ok p -> columns p = columns df.
Proof.
  intros H. apply parse_rundate_ok in H as [[_ ->]|[id [_ ->]]]; reflexivity.
Qed.

Lemma several_positions name cols :
  2 <= length (positions name cols) ->
  exists p q ps, positions name cols = p :: q :: ps.
Proof.
  destruct (positions name cols) as [|p [|q ps]]; simpl; try lia. eauto.
Qed.

(** X3.  When two columns carry the same required name once the names
    are normalized, [clean_data] raises: [to_datetime] refuses the frame
    that [df['RUNDATE']] then is, a frame has no [.str], and [to_numeric]
    refuses a frame. *)
Theorem clean_data_duplicate_columns {P : Parsers} (df : DataFrame) (name : string) :
  In name ["VENDOR"; "CHKSUBTOT"; "RUNDATE"] ->
  2 <= length (positions name (map normalize (columns df))) ->
  (exists e, clean_data df = Raise e) /\
  (name = "RUNDATE" -> clean_data df = Raise ValueError) /\
  (name = "VENDOR" ->
   length (positions "RUNDATE" (map normalize (columns df))) <= 1 ->
   clean_data df = Raise AttributeError).
Proof.
  intros Hname Hdup. split; [|split].
  - destruct (clean_data df) as [df'|e] eqn:E; [|now exists e].
    exfalso. apply clean_data_ok in E as (iv & ia & id & Ev & Ea & Ed & _).
    cbn [In] in Hname.
    destruct Hname as [<-|[<-|[<-|[]]]];
      [rewrite Ev in Hdup|rewrite Ea in Hdup|rewrite Ed in Hdup];
      simpl in Hdup; lia.
  - intros ->. apply several_positions in Hdup as (p & q & ps & E).
    unfold clean_data, coerce_fields, parse_rundate.
    assert (Hc : has_column "RUNDATE" (rename_columns df) = true).
    { apply (positions_has _ _ p). cbn [rename_columns columns].
      rewrite E. now left. }
    rewrite Hc, (getitem_frame _ (rename_columns df) p q ps E). reflexivity.
  - intros -> Hone. apply several_positions in Hdup as (p & q & ps & E).
    unfold clean_data, coerce_fields.
    destruct (parse_rundate (rename_columns df)) as [d|e] eqn:Ep.
    + cbn [bind]. unfold clean_vendor.
      rewrite (getitem_frame "VENDOR" d p q ps)
        by (now rewrite (parse_rundate_columns _ _ Ep)).
      reflexivity.
    + exfalso. unfold parse_rundate in Ep.
      destruct (has_column "RUNDATE" (rename_columns df)) eqn:Hc; [|discriminate].
      apply has_column_spec, In_nth_error in Hc as [i Hi].
      apply positions_spec in Hi.
      unfold getitem in Ep. cbn [rename_columns columns] in Ep, Hi.
      destruct (positions "RUNDATE" (map normalize (columns df)))
        as [|i0 [|i1 l]]; cbn [bind] in Ep; try discriminate.
      * contradiction.
      * simpl in Hone. lia.
Qed.

Lemma clean_data_duplicate_columns_witness :
  In "RUNDATE" ["VENDOR"; "CHKSUBTOT"; "RUNDATE"] /\
  2 <= length (positions "RUNDATE" (map normalize (columns Headers.doubled))) /\
  clean_data Headers.doubled = Raise ValueError.
Proof.
  assert (Hin : In "RUNDATE" ["VENDOR"; "CHKSUBTOT"; "RUNDATE"])
    by (cbn [In]; auto).
  assert (Hdup : 2 <= length (positions "RUNDATE"
                                (map normalize (columns Headers.doubled))))
    by (vm_compute; lia).
  refine (conj Hin (conj Hdup _)).
  exact (proj1 (proj2 (clean_data_duplicate_columns Headers.doubled "RUNDATE"
                         Hin Hdup)) eq_refl).
Defined.

(** ** The column names of the cleaned table *)

Lemma replace_no_space s : has_space (PyStr.replace " " "_" s) = false.
Proof.
  induction s as [|c s IH]; [reflexivity|]. cbn [PyStr.replace has_space].
  rewrite IH, orb_false_r. destruct (Ascii.eqb c " ") eqn:E; [reflexivity|exact E].
Qed.

Lemma strip_normalize name : PyStr.strip (normalize name) = normalize name.
Proof.
  unfold normalize. apply (PyStrFacts.strip_fixed name), PyStrFacts.ink_replace.
Qed.

Lemma ascii_replace s :
  PyStr.ascii_text s = true -> PyStr.ascii_text (PyStr.replace " " "_" s) = true.
Proof.
  induction s as [|c s IH]; [reflexivity|]. cbn [PyStr.ascii_text PyStr.replace].
  intros H. apply andb_prop in H as [Hc Hs]. rewrite (IH Hs), andb_true_r.
  destruct (Ascii.eqb c " "); [reflexivity|exact Hc].
Qed.

(** X4.  When the column names of the raw table are ASCII text, the
    column names of the table [clean_data] returns are the raw names
    normalized, one for one: each is ASCII text without a space in it and
    without white space around it, and normalizing them again changes
    none. *)
Theorem clean_data_column_names {P : Parsers} (df df' : DataFrame) :
  (forall name, In name (columns df) -> PyStr.ascii_text name = true) ->
  clean_data df = Ok df' ->
  columns df' = map normalize (columns df) /\
  length (columns df') = length (columns df) /\
  forall name, In name (columns df') ->
    PyStr.ascii_text name = true /\
    has_space name = false /\
    PyStr.strip name = name /\
    normalize name = name.
Proof.
  intros Hascii H. apply clean_data_ok in H.
  destruct H as (iv & ia & id & _ & _ & _ & _ & ->). cbn [columns].
  split; [reflexivity|]. split; [apply length_map|].
  intros name Hn. apply in_map_iff in Hn as [raw [<- Hraw]].
  split; [|split; [apply replace_no_space|split; [apply strip_normalize|]]].
  - unfold normalize. apply ascii_replace, PyStrFacts.ascii_strip, Hascii, Hraw.
  - apply normalize_idem.
Qed.

Lemma raw_headers_ascii :
  forall name, In name (columns Ledger.raw) -> PyStr.ascii_text name = true.
Proof.
  intros name Hn. cbn [columns Ledger.raw In] in Hn.
  repeat (destruct Hn as [<-|Hn]; [reflexivity|]). contradiction.
Qed.

Lemma clean_data_column_names_witness :
  (forall name, In name (columns Ledger.raw) -> PyStr.ascii_text name = true) /\
  clean_data Ledger.raw = Ok Ledger.cleaned /\
  columns Ledger.cleaned = map normalize (columns Ledger.raw) /\
  length (columns Ledger.cleaned) = length (columns Ledger.raw) /\
  forall name, In name (columns Ledger.cleaned) ->
    PyStr.ascii_text name = true /\
    has_space name = false /\
    PyStr.strip name = name /\
    normalize name = name.
Proof.
  refine (conj raw_headers_ascii (conj raw_cleaned _)).
  exact (clean_data_column_names Ledger.raw Ledger.cleaned
           raw_headers_ascii raw_cleaned).
Defined.

(** ** A table without rows *)

(** X5.  A table that has the three required columns and no row is
    cleaned without an exception: the result has the normalized column
    names and no row. *)
Theorem clean_data_no_rows {P : Parsers} (HP : ParsersOk P) (df : DataFrame)
        (iv ia id : nat) :
  rows df = [] ->
  positions "VENDOR" (map normalize (columns df)) = [iv] ->
  positions "CHKSUBTOT" (map normalize (columns df)) = [ia] ->
  positions "RUNDATE" (map normalize (columns df)) = [id] ->
  clean_data df = Ok (mkDF (map normalize (columns df)) []).
Proof.
  intros Hrows Ev Ea Ed.
  assert (Hd : dated_rows id df = []) by (unfold dated_rows; now rewrite Hrows).
  rewrite (clean_data_returns df iv ia id Ev Ea Ed).
  - now rewrite Hd.
  - rewrite Hd. apply str_accessor_text. reflexivity.
Qed.

Lemma clean_data_no_rows_witness :
  rows Headers.header_only = [] /\
  positions "VENDOR" (map normalize (columns Headers.header_only)) = [0] /\
  positions "CHKSUBTOT" (map normalize (columns Headers.header_only)) = [1] /\
  positions "RUNDATE" (map normalize (columns Headers.header_only)) = [3] /\
  clean_data Headers.header_only =
  Ok (mkDF ["VENDOR"; "CHKSUBTOT"; "RUN_DATE"; "RUNDATE"] []).
Proof.
  refine (conj eq_refl (conj eq_refl (conj eq_refl (conj eq_refl _)))).
  exact (clean_data_no_rows iso_parsers_ok Headers.header_only 0 1 3
           eq_refl eq_refl eq_refl eq_refl).
Defined.

(** ** The summary of a cleaned table *)

Lemma isnull_sum_from_nth i cols rs k :
  nth_error (isnull_sum_from i cols rs) k =
  option_map (fun c => (c, length (filter (fun r => negb (notnull (cell (i + k) r))) rs)))
             (nth_error cols k).
Proof.
  revert i k. induction cols as [|c cols IH]; intros i k.
  - now destruct k.
  - destruct k as [|k]; cbn [isnull_sum_from nth_error option_map].
    + now rewrite Nat.add_0_r.
    + rewrite IH. now rewrite Nat.add_succ_r.
Qed.

Lemma isnull_sum_from_names i cols rs :
  map fst (isnull_sum_from i cols rs) = cols.
Proof.
  revert i. induction cols as [|c cols IH]; intros i; simpl; [reflexivity|].
  now rewrite IH.
Qed.

Lemma isnull_sum_entry df j name n :
  nth_error (isnull_sum df) j = Some (name, n) <->
  nth_error (columns df) j = Some name /\
  n = length (filter (fun r => negb (notnull (cell j r))) (rows df)).
Proof.
  unfold isnull_sum. rewrite isnull_sum_from_nth. cbn [Nat.add].
  destruct (nth_error (columns df) j) as [c|]; cbn [option_map]; split.
  - intros H. injection H as -> <-. auto.
  - intros [H ->]. injection H as ->. reflexivity.
  - discriminate.
  - intros [H _]. discriminate.
Qed.

Lemma generate_summary_run df c cs t :
  columns df = c :: cs ->
  generate_summary df t =
  (t ++ [Print_text "Dataset Summary:"; Print_describe df;
         Print_text (newline ++ "Missing values per column:" ++ newline);
         Print_missing (isnull_sum df)], Ok tt).
Proof.
  intros E. unfold generate_summary, io_bind, emit. rewrite E.
  rewrite <- !app_assoc. reflexivity.
Qed.

Lemma cleaned_columns df iv ia id :
  Cleaned df iv ia id -> exists c cs, columns df = c :: cs.
Proof.
  intros C. pose proof (vendor_at _ _ _ _ C) as E.
  destruct (columns df) as [|c cs]; [discriminate|eauto].
Qed.

Lemma no_missing {A : Type} (f : A -> value) (l : list A) :
  (forall x, In x l -> notnull (f x) = true) ->
  length (filter (fun x => negb (notnull (f x))) l) = 0.
Proof.
  intros H. induction l as [|x l IH]; [reflexivity|]. cbn [filter].
  rewrite (H x (or_introl eq_refl)). cbn [negb]. apply IH.
  intros y Hy. apply H. now right.
Qed.

(** X6.  On a cleaned table [generate_summary] raises nothing: it prints
    the heading, the statistics of the table and, after the heading of the
    missing values, the number of missing cells under each column, in
    column order; under VENDOR, CHKSUBTOT and RUNDATE that number is 0. *)
Theorem generate_summary_cleaned (df : DataFrame) (iv ia id : nat) :
  Cleaned df iv ia id ->
  (forall t, generate_summary df t =
     (t ++ [Print_text "Dataset Summary:"; Print_describe df;
            Print_text (newline ++ "Missing values per column:" ++ newline);
            Print_missing (isnull_sum df)], Ok tt)) /\
  map fst (isnull_sum df) = columns df /\
  (forall j name n,
     nth_error (isnull_sum df) j = Some (name, n) <->
     nth_error (columns df) j = Some name /\
     n = length (filter (fun r => negb (notnull (cell j r))) (rows df))) /\
  (forall name, In name ["VENDOR"; "CHKSUBTOT"; "RUNDATE"] ->
     In (name, 0) (isnull_sum df) /\
     forall n, In (name, n) (isnull_sum df) -> n = 0).
Proof.
  intros C. destruct (cleaned_columns _ _ _ _ C) as (c & cs & Ecols).
  split; [intros t; exact (generate_summary_run df c cs t Ecols)|].
  split; [apply isnull_sum_from_names|].
  split; [exact (isnull_sum_entry df)|].
  assert (Hzero : forall name i,
            positions name (columns df) = [i] ->
            (forall r, In r (rows df) -> notnull (cell i r) = true) ->
            In (name, 0) (isnull_sum df) /\
            forall n, In (name, n) (isnull_sum df) -> n = 0).
  { intros name i Ei Hfull. split.
    - apply (nth_error_In _ i). apply isnull_sum_entry. split.
      + now apply (positions_at _ _ _ Ei).
      + symmetry. now apply no_missing.
    - intros n Hn. apply In_nth_error in Hn as [j Hj].
      apply isnull_sum_entry in Hj as [Hj ->].
      apply (positions_at _ _ _ Ei) in Hj. subst j. now apply no_missing. }
  intros name Hname. cbn [In] in Hname.
  destruct Hname as [<-|[<-|[<-|[]]]].
  - apply (Hzero _ iv (vendor_at _ _ _ _ C)). intros r Hr.
    pose proof (vendor_text _ _ _ _ C r Hr) as H. now destruct (cell iv r).
  - apply (Hzero _ ia (amount_at _ _ _ _ C)). intros r Hr.
    pose proof (amount_number _ _ _ _ C r Hr) as H. now destruct (cell ia r).
  - apply (Hzero _ id (rundate_at _ _ _ _ C)). intros r Hr.
    pose proof (rundate_date _ _ _ _ C r Hr) as H. now destruct (cell id r).
Qed.

Lemma generate_summary_cleaned_witness :
  Cleaned Ledger.cleaned 0 1 2 /\
  generate_summary Ledger.cleaned [] =
  ([Print_text "Dataset Summary:"; Print_describe Ledger.cleaned;
    Print_text (newline ++ "Missing values per column:" ++ newline);
    Print_missing [("VENDOR", 0); ("CHKSUBTOT", 0); ("RUNDATE", 0); ("DEPARTMENT", 0)]],
   Ok tt).
Proof.
  refine (conj cleaned_Cleaned _).
  exact (proj1 (generate_summary_cleaned Ledger.cleaned 0 1 2 cleaned_Cleaned) []).
Defined.

(** ** Steps on a table that lacks their column *)

Lemma series_of_absent name dup df :
  ~ In name (columns df) -> series_of name dup df = Raise (KeyError [name]).
Proof.
  intros H. unfold series_of. rewrite getitem_absent; [reflexivity|].
  destruct (has_column name df) eqn:E; [|reflexivity].
  apply has_column_spec in E. contradiction.
Qed.

(** X7.  A step that is given a table without the column it reads raises
    a [KeyError] for that column before it prints or draws anything: the
    totals and the frequencies for VENDOR, the trend for RUNDATE, the
    anomalies for CHKSUBTOT.  The heatmap of a table with departments looks
    for CHKSUBTOT first: it raises for CHKSUBTOT when that column is not
    there, and for VENDOR when CHKSUBTOT is there and VENDOR is not. *)
Theorem steps_need_their_column (df : DataFrame) (name : string) (t : list event) :
  ~ In name (columns df) ->
  (name = "VENDOR" ->
     total_payments_by_vendor df t = (t, Raise (KeyError ["VENDOR"])) /\
     payment_frequency df t = (t, Raise (KeyError ["VENDOR"])) /\
     (forall ia, In "DEPARTMENT" (columns df) ->
                 positions "CHKSUBTOT" (columns df) = [ia] ->
                 department_vendor_heatmap df t = (t, Raise (KeyError ["VENDOR"])))) /\
  (name = "RUNDATE" -> monthly_trend df t = (t, Raise (KeyError ["RUNDATE"]))) /\
  (name = "CHKSUBTOT" ->
     detect_anomalies df t = (t, Raise (KeyError ["CHKSUBTOT"])) /\
     (In "DEPARTMENT" (columns df) ->
      department_vendor_heatmap df t = (t, Raise (KeyError ["CHKSUBTOT"])))).
Proof.
  intros Hnot. split; [|split]; intros ->.
  - split; [|split].
    + unfold total_payments_by_vendor, vendor_totals, io_bind, lift.
      now rewrite (series_of_absent _ _ _ Hnot).
    + unfold payment_frequency, io_bind, lift.
      now rewrite (series_of_absent _ _ _ Hnot).
    + intros ia Hd Ea. apply has_column_spec in Hd.
      unfold department_vendor_heatmap, io_bind, lift.
      rewrite Hd, (series_of_at _ _ _ _ Ea). cbn [bind].
      now rewrite (series_of_absent _ _ _ Hnot).
  - unfold monthly_trend, io_bind, lift.
    now rewrite (series_of_absent _ _ _ Hnot).
  - split.
    + unfold detect_anomalies, outliers_of, io_bind, lift.
      now rewrite (series_of_absent _ _ _ Hnot).
    + intros Hd. apply has_column_spec in Hd.
      unfold department_vendor_heatmap, io_bind, lift.
      now rewrite Hd, (series_of_absent _ _ _ Hnot).
Qed.

Lemma steps_need_their_column_witness :
  ~ In "RUNDATE" (columns Ledger.undated) /\
  monthly_trend Ledger.undated [] = ([], Raise (KeyError ["RUNDATE"])).
Proof.
  assert (Hnot : ~ In "RUNDATE" (columns Ledger.undated))
    by (cbn [columns Ledger.undated In]; intuition discriminate).
  refine (conj Hnot _).
  exact (proj1 (proj2 (steps_need_their_column Ledger.undated "RUNDATE" [] Hnot))
           eq_refl).
Defined.

(** ** Frequencies and totals *)

Lemma list_sum_perm l l' : Permutation l l' -> list_sum l = list_sum l'.
Proof.
  induction 1 as [|x l l' _ IH|x y l|l l' l'' _ IH1 _ IH2]; simpl; lia.
Qed.

Lemma list_sum_map_plus {A : Type} (f g : A -> nat) l :
  list_sum (map (fun x => f x + g x) l) = list_sum (map f l) + list_sum (map g l).
Proof. induction l as [|x l IH]; simpl; lia. Qed.

Lemma list_sum_indicator {A : Type} (p : A -> bool) l :
  list_sum (map (fun x => if p x then 1 else 0) l) = length (filter p l).
Proof.
  induction l as [|x l IH]; simpl; [reflexivity|].
  destruct (p x); simpl; lia.
Qed.

(** Counting group by group gives the number of rows, when every row falls
    in exactly one group. *)
Lemma count_by_group (D L : list value) :
  (forall y, In y L -> length (filter (fun k => value_eqb k y) D) = 1) ->
  list_sum (map (fun k => length (filter (value_eqb k) L)) D) = length L.
Proof.
  induction L as [|y L IH]; intros H.
  - clear H. induction D as [|k D IHD]; simpl; auto.
  - rewrite (map_ext _ (fun k => (if value_eqb k y then 1 else 0) +
                                 length (filter (value_eqb k) L))).
    + rewrite list_sum_map_plus, list_sum_indicator, IH.
      * rewrite (H y (or_introl eq_refl)). reflexivity.
      * intros z Hz. apply H. now right.
    + intros k. cbn [filter]. now destruct (value_eqb k y).
Qed.

(** X8.  On a cleaned table the frequencies that [payment_frequency]
    returns add up to the number of rows, every vendor it lists has at
    least one payment, and it lists the vendors that
    [total_payments_by_vendor] lists. *)
Theorem payment_frequency_total (df : DataFrame) (iv ia id : nat) :
  Cleaned df iv ia id ->
  exists freq totals,
    (forall t, snd (payment_frequency df t) = Ok freq) /\
    (forall t, snd (total_payments_by_vendor df t) = Ok totals) /\
    list_sum (map snd freq) = length (rows df) /\
    (forall k n, In (k, n) freq -> 1 <= n) /\
    Permutation (map fst freq) (map fst totals).
Proof.
  intros C. pose proof (payment_counts_cleaned _ _ _ _ C) as Hf.
  pose proof (vendor_totals_cleaned _ _ _ _ C) as Ht.
  exists (value_counts (map (cell iv) (rows df))). eexists.
  split; [|split; [|split; [|split]]].
  - intros t. now rewrite (payment_frequency_run df iv t (vendor_at _ _ _ _ C)).
  - intros t. now rewrite (total_payments_by_vendor_run _ _ t Ht).
  - unfold value_counts.
    rewrite (list_sum_perm _ _ (Permutation_map snd (sort_perm _ _))).
    rewrite map_map. cbn [snd]. unfold group_size.
    rewrite (cleaned_keys_notnull _ _ _ _ C), count_by_group.
    + apply length_map.
    + intros y Hy. now apply distinct_once.
  - intros k n H. rewrite Hf in H. apply sorted_groups_entry in H as [Hk ->].
    apply (cleaned_vendors _ _ _ _ C) in Hk as [r [Hr <-]].
    assert (Hin : In r (vendor_rows iv (cell iv r) df))
      by (apply filter_In; split; [exact Hr|apply value_eqb_refl]).
    destruct (vendor_rows iv (cell iv r) df); [contradiction|simpl; lia].
  - rewrite Hf. unfold sort_values_desc.
    rewrite sorted_groups_labels, sorted_groups_labels.
    apply Permutation_sym, sort_perm.
Qed.

Lemma payment_frequency_total_witness :
  Cleaned Ledger.cleaned 0 1 2 /\
  exists freq totals,
    (forall t, snd (payment_frequency Ledger.cleaned t) = Ok freq) /\
    (forall t, snd (total_payments_by_vendor Ledger.cleaned t) = Ok totals) /\
    list_sum (map snd freq) = length (rows Ledger.cleaned) /\
    (forall k n, In (k, n) freq -> 1 <= n) /\
    Permutation (map fst freq) (map fst totals).
Proof.
  refine (conj cleaned_Cleaned _).
  exact (payment_frequency_total Ledger.cleaned 0 1 2 cleaned_Cleaned).
Defined.

(** ** How many payments are flagged *)

Lemma filter_length_perm {A : Type} (p : A -> bool) l l' :
  Permutation l l' -> length (filter p l) = length (filter p l').
Proof.
  induction 1 as [|x l l' _ IH|x y l|l l' l'' _ IH1 _ IH2]; simpl.
  - reflexivity.
  - destruct (p x); simpl; now rewrite IH.
  - destruct (p x), (p y); reflexivity.
  - now rewrite IH1.
Qed.

Lemma sorted_nth s i k a b :
  StronglySorted Qle s -> i <= k ->
  nth_error s i = Some a -> nth_error s k = Some b -> (a <= b)%Q.
Proof.
  intros Hs. revert i k. induction Hs as [|x s Hs IH Hx]; intros i k Hik Ha Hb.
  - now destruct i.
  - destruct i as [|i], k as [|k]; cbn [nth_error] in Ha, Hb.
    + injection Ha as <-. injection Hb as <-. apply Qle_refl.
    + injection Ha as <-. apply nth_error_In in Hb.
      rewrite Forall_forall in Hx. now apply Hx.
    + lia.
    + apply (IH i k); [lia|assumption|assumption].
Qed.

(** In a sorted list, what lies above a bound lies behind every element
    that is not above it. *)
Lemma above_sorted s j lo t :
  StronglySorted Qle s -> nth_error s j = Some lo -> (lo <= t)%Q ->
  length (filter (fun q => negb (Qle_bool q t)) s) <= length s - S j.
Proof.
  intros Hs. revert j. induction Hs as [|x s Hs IH Hx]; intros j Hj Ht.
  - now destruct j.
  - assert (Hxt : Qle_bool x t = true).
    { apply Qle_bool_iff. destruct j as [|j]; cbn [nth_error] in Hj.
      - injection Hj as <-. exact Ht.
      - apply nth_error_In in Hj. rewrite Forall_forall in Hx.
        exact (Qle_trans _ _ _ (Hx _ Hj) Ht). }
    cbn [filter]. rewrite Hxt. cbn [negb length].
    destruct j as [|j]; cbn [nth_error] in Hj.
    + rewrite Nat.sub_succ, Nat.sub_0_r. apply filter_length_le.
    + rewrite Nat.sub_succ. now apply IH.
Qed.

Lemma flagged_amounts ia t rs :
  (forall r, In r rs -> is_num (cell ia r) = true) ->
  length (filter (fun r => exceeds (Some t) (cell ia r)) rs) =
  length (filter (fun q => negb (Qle_bool q t)) (amounts ia rs)).
Proof.
  unfold amounts. induction rs as [|r rs IH]; intros H; [reflexivity|].
  cbn [filter map]. pose proof (H r (or_introl eq_refl)) as Hr.
  destruct (cell ia r) as [| |q|]; try discriminate.
  change (exceeds (Some t) (VNum q)) with (negb (Qle_bool q t)).
  cbn [numbers filter].
  destruct (negb (Qle_bool q t)); cbn [length]; rewrite IH; auto;
    intros r' Hr'; apply H; now right.
Qed.

Lemma amounts_length df iv ia id :
  Cleaned df iv ia id -> length (amounts ia (rows df)) = length (rows df).
Proof.
  intros C. unfold amounts. rewrite numbers_all, length_map; [reflexivity|].
  apply forallb_forall. intros v Hv. apply in_map_iff in Hv as [r [<- Hr]].
  exact (amount_number _ _ _ _ C r Hr).
Qed.

Lemma outliers_of_cleaned df iv ia id :
  Cleaned df iv ia id ->
  outliers_of df =
  Ok (quantile (99 # 100) (amounts ia (rows df)),
      mkDF (columns df)
           (filter (fun r => exceeds (quantile (99 # 100) (amounts ia (rows df)))
                                     (cell ia r))
                   (rows df))).
Proof.
  intros C. unfold outliers_of.
  rewrite (series_of_at _ _ _ _ (amount_at _ _ _ _ C)). cbn [bind snd fst].
  rewrite (cleaned_numeric _ _ _ _ C). reflexivity.
Qed.

Lemma detect_anomalies_run df threshold outliers t :
  outliers_of df = Ok (threshold, outliers) ->
  detect_anomalies df t =
  (t ++ [Print_threshold threshold (length (rows outliers))], Ok outliers).
Proof.
  intros H. unfold detect_anomalies, io_bind, lift, emit, io_ret.
  now rewrite H.
Qed.

(** The rank below the 99th percentile leaves at most a hundredth of the
    ranks, rounded up, above it. *)
Lemma ranks_above n j (g : Q) :
  j < n ->
  (inject_Z (Z.of_nat j) + g == inject_Z (Z.of_nat (n - 1)) * (99 # 100))%Q ->
  (g < 1)%Q ->
  100 * (n - S j) < n + 99.
Proof.
  intros Hj E Hg.
  assert (H : (inject_Z (Z.of_nat (n - 1)) * (99 # 100) <
               inject_Z (Z.of_nat j) + 1)%Q).
  { rewrite <- E. apply Qplus_lt_r. exact Hg. }
  unfold Qlt in H. cbn in H. lia.
Qed.

(** X9.  On a cleaned table with at least one row [detect_anomalies]
    flags at most one row in a hundred, rounded up, and never every row: a
    hundred times the number of rows it returns is less than the number of
    rows of the table plus 99, and it returns fewer rows than the table
    has. *)
Theorem detect_anomalies_one_percent (df : DataFrame) (iv ia id : nat) :
  Cleaned df iv ia id ->
  rows df <> [] ->
  exists threshold outliers,
    (forall t, detect_anomalies df t =
               (t ++ [Print_threshold (Some threshold) (length (rows outliers))],
                Ok outliers)) /\
    100 * length (rows outliers) < length (rows df) + 99 /\
    length (rows outliers) < length (rows df).
Proof.
  intros C Hne.
  pose proof (amounts_length _ _ _ _ C) as Hlen.
  assert (Hnums : amounts ia (rows df) <> []).
  { intros E. rewrite E in Hlen. destruct (rows df); [congruence|discriminate]. }
  destruct (quantile_linear (99 # 100) (amounts ia (rows df)))
    as [threshold [Hq Hlin]]; try assumption; try discriminate.
  pose proof (outliers_of_cleaned _ _ _ _ C) as Hout. rewrite Hq in Hout.
  eexists. eexists. split; [intros t; exact (detect_anomalies_run _ _ _ t Hout)|].
  cbn [rows].
  rewrite (flagged_amounts ia threshold (rows df) (amount_number _ _ _ _ C)).
  destruct Hlin as (s & j & g & lo & hi & Hperm & Hs & Eh & Hg0 & Hg1 & Hlo & Hhi & Et).
  rewrite <- (filter_length_perm _ _ _ Hperm).
  pose proof (Permutation_length Hperm) as Hsl. rewrite Hlen in *.
  assert (Hj : j < length (rows df)).
  { rewrite <- Hsl. apply nth_error_Some. congruence. }
  assert (Hlohi : (lo <= hi)%Q).
  { apply (sorted_nth s j (Nat.min (S j) (length (rows df) - 1))); auto. lia. }
  assert (Hlt : (lo <= threshold)%Q).
  { rewrite Et. rewrite <- (Qplus_0_r lo) at 1. apply Qplus_le_r.
    apply Qmult_le_0_compat; [|exact Hg0].
    apply (Qplus_le_l _ _ lo). ring_simplify. exact Hlohi. }
  pose proof (above_sorted s j lo threshold Hs Hlo Hlt) as Hcount.
  rewrite Hsl in Hcount.
  pose proof (ranks_above _ _ _ Hj Eh Hg1) as Hranks.
  split; lia.
Qed.

Lemma detect_anomalies_one_percent_witness :
  Cleaned Ledger.cleaned 0 1 2 /\
  rows Ledger.cleaned <> [] /\
  exists threshold outliers,
    (forall t, detect_anomalies Ledger.cleaned t =
               (t ++ [Print_threshold (Some threshold) (length (rows outliers))],
                Ok outliers)) /\
    100 * length (rows outliers) < length (rows Ledger.cleaned) + 99 /\
    length (rows outliers) < length (rows Ledger.cleaned).
Proof.
  assert (Hne : rows Ledger.cleaned <> []) by discriminate.
  refine (conj cleaned_Cleaned (conj Hne _)).
  exact (detect_anomalies_one_percent Ledger.cleaned 0 1 2 cleaned_Cleaned Hne).
Defined.

(** ** The monthly trend *)

Lemma months_in m vs :
  In m (months vs) <-> exists v, In v vs /\ month_index v = Some m.
Proof.
  induction vs as [|v vs IH]; cbn [months].
  - split; [contradiction|intros [v [[] _]]].
  - destruct (month_index v) as [m'|] eqn:E; cbn [In]; rewrite IH; split.
    + intros [<-|[w [Hw Ew]]]; eauto.
    + intros [w [[<-|Hw] Ew]]; [left; congruence|right; eauto].
    + intros [w [Hw Ew]]; eauto.
    + intros [w [[<-|Hw] Ew]]; [congruence|eauto].
Qed.

Lemma fold_min_spec m0 ms :
  In (fold_right Z.min m0 ms) (m0 :: ms) /\
  forall m, In m (m0 :: ms) -> (fold_right Z.min m0 ms <= m)%Z.
Proof.
  induction ms as [|x ms [IHin IHle]]; cbn [fold_right].
  - split; [now left|]. intros m [<-|[]]. lia.
  - split.
    + destruct (Z.min_spec x (fold_right Z.min m0 ms)) as [[_ ->]|[_ ->]].
      * right. now left.
      * destruct IHin as [E|Hin]; [now left|right; now right].
    + intros m [<-|[<-|Hm]].
      * pose proof (IHle m0 (or_introl eq_refl)). lia.
      * lia.
      * pose proof (IHle m (or_intror Hm)). lia.
Qed.

Lemma fold_max_spec m0 ms :
  In (fold_right Z.max m0 ms) (m0 :: ms) /\
  forall m, In m (m0 :: ms) -> (m <= fold_right Z.max m0 ms)%Z.
Proof.
  induction ms as [|x ms [IHin IHle]]; cbn [fold_right].
  - split; [now left|]. intros m [<-|[]]. lia.
  - split.
    + destruct (Z.max_spec x (fold_right Z.max m0 ms)) as [[_ ->]|[_ ->]].
      * destruct IHin as [E|Hin]; [now left|right; now right].
      * right. now left.
    + intros m [<-|[<-|Hm]].
      * pose proof (IHle m0 (or_introl eq_refl)). lia.
      * lia.
      * pose proof (IHle m (or_intror Hm)). lia.
Qed.

(** A month between the first and the last has one bin. *)
Lemma one_bin (lo m : Z) a n :
  length (filter (fun x => (m =? x)%Z)
                 (map (fun k => (lo + Z.of_nat k)%Z) (seq a n))) =
  if ((lo + Z.of_nat a <=? m) && (m <? lo + Z.of_nat a + Z.of_nat n))%Z
  then 1 else 0.
Proof.
  revert a. induction n as [|n IH]; intros a.
  - cbn [seq map filter length].
    destruct (Z.leb_spec (lo + Z.of_nat a) m),
             (Z.ltb_spec m (lo + Z.of_nat a + Z.of_nat 0));
      try reflexivity. lia.
  - cbn [seq map filter]. specialize (IH (S a)).
    destruct (Z.eqb_spec m (lo + Z.of_nat a)); cbn [length]; rewrite IH;
      destruct (Z.leb_spec (lo + Z.of_nat (S a)) m),
               (Z.ltb_spec m (lo + Z.of_nat (S a) + Z.of_nat n)),
               (Z.leb_spec (lo + Z.of_nat a) m),
               (Z.ltb_spec m (lo + Z.of_nat a + Z.of_nat (S n)));
      cbn [andb]; try reflexivity; lia.
Qed.

(** Summing month by month gives the sum of the column, when every row
    falls in exactly one bin. *)
Lemma sum_by_month (D : list Z) (L : list (value * value)) :
  (forall dv, In dv L ->
     exists m, month_index (fst dv) = Some m /\
               length (filter (fun x => (m =? x)%Z) D) = 1) ->
  (Qsum (map (fun m => Qsum (numbers (map snd
            (filter (fun dv => match month_index (fst dv) with
                               | Some m' => (m' =? m)%Z
                               | None => false
                               end) L)))) D) ==
   Qsum (numbers (map snd L)))%Q.
Proof.
  induction L as [|[d v] L IH]; intros H.
  - simpl. apply Qsum_zeros.
  - cbn [map snd]. rewrite Qsum_numbers_cons.
    rewrite <- IH by (intros dv Hdv; apply H; now right).
    destruct (H (d, v) (or_introl eq_refl)) as [m' [Em Hone]]. cbn [fst] in Em.
    rewrite <- (Qsum_pick (fun x => (m' =? x)%Z)
                  (match v with VNum q => q | _ => 0%Q end) D Hone).
    rewrite <- Qsum_map_plus. apply Qsum_map_ext. intros m _.
    cbn [filter fst]. rewrite Em. destruct (m' =? m)%Z.
    + cbn [map snd]. apply Qsum_numbers_cons.
    + ring.
Qed.

Section Trend.
Variable df : DataFrame.
Variables iv ia id : nat.
Hypothesis C : Cleaned df iv ia id.

Lemma cleaned_month r :
  In r (rows df) -> exists m, month_index (cell id r) = Some m.
Proof.
  intros Hr. pose proof (rundate_date _ _ _ _ C r Hr) as H.
  destruct (cell id r); try discriminate. cbn [month_index]. eauto.
Qed.

Lemma month_bin m :
  Qsum (numbers (map snd
    (filter (fun dv => match month_index (fst dv) with
                       | Some m' => (m' =? m)%Z
                       | None => false
                       end)
            (combine (map (cell id) (rows df)) (map (cell ia) (rows df)))))) =
  Qsum (amounts ia (month_rows id m df)).
Proof.
  unfold amounts, month_rows.
  rewrite combine_columns, filter_map_comm, map_map. reflexivity.
Qed.

(** The bins of the trend of a table with rows. *)
Lemma monthly_sums_cleaned :
  rows df <> [] ->
  exists lo span,
    monthly_sums (map (cell id) (rows df)) (map (cell ia) (rows df)) =
    map (fun k => ((lo + Z.of_nat k)%Z,
                   Qsum (amounts ia (month_rows id (lo + Z.of_nat k) df))))
        (seq 0 (S span)) /\
    (forall r, In r (rows df) ->
       exists m, month_index (cell id r) = Some m /\
                 (lo <= m <= lo + Z.of_nat span)%Z) /\
    (exists r, In r (rows df) /\ month_index (cell id r) = Some lo) /\
    (exists r, In r (rows df) /\
               month_index (cell id r) = Some (lo + Z.of_nat span)%Z).
Proof.
  intros Hne. unfold monthly_sums.
  assert (Hin : forall m, In m (months (map (cell id) (rows df))) <->
                          exists r, In r (rows df) /\ month_index (cell id r) = Some m).
  { intros m. rewrite months_in. split.
    - intros [v [Hv E]]. apply in_map_iff in Hv as [r [<- Hr]]. eauto.
    - intros [r [Hr E]]. exists (cell id r). split; [now apply in_map|exact E]. }
  destruct (months (map (cell id) (rows df))) as [|m0 ms] eqn:Em.
  { exfalso. destruct (rows df) as [|r rs] eqn:Er; [congruence|].
    assert (Hr : In r (rows df)) by (rewrite Er; now left).
    destruct (cleaned_month r Hr) as [m E].
    apply (proj2 (Hin m)). exists r. split; [now left|exact E]. }
  destruct (fold_min_spec m0 ms) as [Hlo_in Hlo].
  destruct (fold_max_spec m0 ms) as [Hhi_in Hhi].
  set (lo := fold_right Z.min m0 ms) in *.
  set (hi := fold_right Z.max m0 ms) in *.
  assert (Hlohi : (lo <= hi)%Z) by (apply Hhi; exact Hlo_in).
  exists lo, (Z.to_nat (hi - lo)).
  rewrite Z2Nat.id by lia.
  replace (lo + (hi - lo))%Z with hi by lia.
  split; [|split; [|split]].
  - apply map_ext. intros k. now rewrite month_bin.
  - intros r Hr. destruct (cleaned_month r Hr) as [m E]. exists m.
    split; [exact E|].
    assert (Hm : In m (m0 :: ms)) by (apply Hin; eauto).
    split; [now apply Hlo|now apply Hhi].
  - now apply Hin.
  - now apply Hin.
Qed.

Lemma monthly_trend_run t :
  rows df <> [] ->
  monthly_trend df t =
  (t ++ [Show_trend (monthly_sums (map (cell id) (rows df))
                                  (map (cell ia) (rows df)))], Ok tt).
Proof.
  intros Hne. destruct (monthly_sums_cleaned Hne) as (lo & span & E & _).
  unfold monthly_trend, io_bind, lift, emit.
  rewrite (series_of_at _ _ _ _ (rundate_at _ _ _ _ C)). cbn [bind snd].
  replace (forallb (fun x => is_date x || negb (notnull x))
                   (map (cell id) (rows df))) with true.
  - rewrite (series_of_at _ _ _ _ (amount_at _ _ _ _ C)). cbn [bind snd].
    rewrite (cleaned_numeric _ _ _ _ C). cbn [bind].
    destruct (monthly_sums _ _) eqn:Em; [|reflexivity].
    rewrite E in Em. discriminate.
  - symmetry. apply forallb_forall. intros v Hv.
    apply in_map_iff in Hv as [r [<- Hr]].
    now rewrite (rundate_date _ _ _ _ C r Hr).
Qed.

End Trend.

(** X10.  On a cleaned table with at least one row [monthly_trend] draws
    one figure and raises nothing.  The figure has one bin for every month
    from the month of the earliest run date to the month of the latest,
    months without a payment included, and the value of a bin is the sum
    of the amounts of the rows of its month. *)
Theorem monthly_trend_bins (df : DataFrame) (iv ia id : nat) :
  Cleaned df iv ia id ->
  rows df <> [] ->
  exists lo span monthly,
    (forall t, monthly_trend df t = (t ++ [Show_trend monthly], Ok tt)) /\
    map fst monthly = map (fun k => (lo + Z.of_nat k)%Z) (seq 0 (S span)) /\
    (forall r, In r (rows df) ->
       exists m, month_index (cell id r) = Some m /\
                 (lo <= m <= lo + Z.of_nat span)%Z) /\
    (exists r, In r (rows df) /\ month_index (cell id r) = Some lo) /\
    (exists r, In r (rows df) /\
               month_index (cell id r) = Some (lo + Z.of_nat span)%Z) /\
    (forall m q, In (m, q) monthly -> q = Qsum (amounts ia (month_rows id m df))).
Proof.
  intros C Hne.
  destruct (monthly_sums_cleaned df iv ia id C Hne)
    as (lo & span & E & Hall & Hfirst & Hlast).
  exists lo, span. eexists.
  split; [intros t; exact (monthly_trend_run df iv ia id C t Hne)|].
  rewrite E. split; [|split; [exact Hall|split; [exact Hfirst|split; [exact Hlast|]]]].
  - rewrite map_map. reflexivity.
  - intros m q H. apply in_map_iff in H as [k [H _]]. now injection H as <- <-.
Qed.

Lemma monthly_trend_bins_witness :
  Cleaned Ledger.cleaned 0 1 2 /\
  rows Ledger.cleaned <> [] /\
  exists lo span monthly,
    (forall t, monthly_trend Ledger.cleaned t = (t ++ [Show_trend monthly], Ok tt)) /\
    map fst monthly = map (fun k => (lo + Z.of_nat k)%Z) (seq 0 (S span)) /\
    (forall r, In r (rows Ledger.cleaned) ->
       exists m, month_index (cell 2 r) = Some m /\
                 (lo <= m <= lo + Z.of_nat span)%Z) /\
    (exists r, In r (rows Ledger.cleaned) /\ month_index (cell 2 r) = Some lo) /\
    (exists r, In r (rows Ledger.cleaned) /\
               month_index (cell 2 r) = Some (lo + Z.of_nat span)%Z) /\
    (forall m q, In (m, q) monthly ->
                 q = Qsum (amounts 1 (month_rows 2 m Ledger.cleaned))).
Proof.
  assert (Hne : rows Ledger.cleaned <> []) by discriminate.
  refine (conj cleaned_Cleaned (conj Hne _)).
  exact (monthly_trend_bins Ledger.cleaned 0 1 2 cleaned_Cleaned Hne).
Defined.

(** X11.  On a cleaned table with at least one row the bins of the
    monthly trend add up to the sum of the amount column: every payment is
    in one bin. *)
Theorem monthly_trend_total (df : DataFrame) (iv ia id : nat) :
  Cleaned df iv ia id ->
  rows df <> [] ->
  exists monthly,
    (forall t, monthly_trend df t = (t ++ [Show_trend monthly], Ok tt)) /\
    (Qsum (map snd monthly) == Qsum (amounts ia (rows df)))%Q.
Proof.
  intros C Hne.
  destruct (monthly_sums_cleaned df iv ia id C Hne)
    as (lo & span & E & Hall & _ & _).
  eexists. split; [intros t; exact (monthly_trend_run df iv ia id C t Hne)|].
  rewrite E, map_map. cbn [snd].
  set (D := map (fun k => (lo + Z.of_nat k)%Z) (seq 0 (S span))).
  set (L := map (fun r => (cell id r, cell ia r)) (rows df)).
  transitivity (Qsum (map (fun m => Qsum (numbers (map snd
                   (filter (fun dv => match month_index (fst dv) with
                                      | Some m' => (m' =? m)%Z
                                      | None => false
                                      end) L)))) D)).
  - unfold D. rewrite map_map. apply Qsum_map_ext. intros k _.
    unfold amounts, month_rows, L.
    rewrite filter_map_comm, map_map. reflexivity.
  - rewrite sum_by_month.
    + unfold L, amounts. now rewrite map_map.
    + intros dv Hdv. apply in_map_iff in Hdv as [r [<- Hr]]. cbn [fst].
      destruct (Hall r Hr) as [m [Em Hm]]. exists m. split; [exact Em|].
      unfold D. rewrite one_bin.
      destruct (Z.leb_spec (lo + Z.of_nat 0) m),
               (Z.ltb_spec m (lo + Z.of_nat 0 + Z.of_nat (S span)));
        try reflexivity; lia.
Qed.

Lemma monthly_trend_total_witness :
  Cleaned Ledger.cleaned 0 1 2 /\
  rows Ledger.cleaned <> [] /\
  exists monthly,
    (forall t, monthly_trend Ledger.cleaned t = (t ++ [Show_trend monthly], Ok tt)) /\
    (Qsum (map snd monthly) == Qsum (amounts 1 (rows Ledger.cleaned)))%Q.
Proof.
  assert (Hne : rows Ledger.cleaned <> []) by discriminate.
  refine (conj cleaned_Cleaned (conj Hne _)).
  exact (monthly_trend_total Ledger.cleaned 0 1 2 cleaned_Cleaned Hne).
Defined.

(** ** What a run writes, and when *)

Lemma io_bind_cases {A B : Type} (m : IO A) (k : A -> IO B) t tr res :
  io_bind m k t = (tr, res) ->
  (exists e, m t = (tr, Raise e) /\ res = Raise e) \/
  (exists a t', m t = (t', Ok a) /\ k a t' = (tr, res)).
Proof.
  unfold io_bind. destruct (m t) as [t' [a|e]]; intros H.
  - right. eauto.
  - left. injection H as <- <-. eauto.
Qed.

Lemma io_bind_run {A B : Type} (m : IO A) (k : A -> IO B) t t' a :
  m t = (t', Ok a) -> io_bind m k t = k a t'.
Proof. intros H. unfold io_bind. now rewrite H. Qed.

Lemma no_file_lift {A : Type} (r : result A) : writes_no_file (lift r).
Proof.
  intros t tr res H. injection H as <- _. exists [].
  split; [now rewrite app_nil_r|reflexivity].
Qed.

Lemma no_file_ret {A : Type} (a : A) : writes_no_file (io_ret a).
Proof.
  intros t tr res H. injection H as <- _. exists [].
  split; [now rewrite app_nil_r|reflexivity].
Qed.

Lemma no_file_emit e : is_export e = false -> writes_no_file (emit e).
Proof.
  intros He t tr res H. injection H as <- _. exists [e].
  split; [reflexivity|]. unfold on_screen. cbn [forallb]. now rewrite He.
Qed.

Lemma on_screen_app out out' :
  on_screen out -> on_screen out' -> on_screen (out ++ out').
Proof.
  unfold on_screen. intros H H'. rewrite forallb_app, H, H'. reflexivity.
Qed.

Lemma no_file_bind {A B : Type} (m : IO A) (k : A -> IO B) :
  writes_no_file m -> (forall a, writes_no_file (k a)) ->
  writes_no_file (io_bind m k).
Proof.
  intros Hm Hk t tr res H.
  apply io_bind_cases in H as [(e & H & _)|(a & t' & H & H')].
  - exact (Hm _ _ _ H).
  - destruct (Hm _ _ _ H) as (out & -> & Ho).
    destruct (Hk a _ _ _ H') as (out' & -> & Ho').
    exists (out ++ out'). split; [now rewrite app_assoc|].
    now apply on_screen_app.
Qed.

Ltac no_file :=
  repeat first
    [ apply no_file_ret
    | apply no_file_lift
    | apply no_file_emit; reflexivity
    | apply no_file_bind; [|intros ?] ].

Lemma no_file_summary df : writes_no_file (generate_summary df).
Proof. unfold generate_summary. destruct (columns df); no_file. Qed.

Lemma no_file_totals df : writes_no_file (total_payments_by_vendor df).
Proof. unfold total_payments_by_vendor. no_file. Qed.

Lemma no_file_trend df : writes_no_file (monthly_trend df).
Proof.
  unfold monthly_trend. apply no_file_bind; [apply no_file_lift|].
  intros monthly. destruct monthly; no_file.
Qed.

Lemma no_file_anomalies df : writes_no_file (detect_anomalies df).
Proof. unfold detect_anomalies. no_file. Qed.

Lemma no_file_frequency df : writes_no_file (payment_frequency df).
Proof. unfold payment_frequency. no_file. Qed.

Lemma no_file_heatmap df : writes_no_file (department_vendor_heatmap df).
Proof.
  unfold department_vendor_heatmap.
  destruct (has_column "DEPARTMENT" df); [|apply no_file_ret].
  apply no_file_bind; [apply no_file_lift|]. intros pivot. unfold heatmap.
  destruct (pv_index (pivot_head 20 pivot)); no_file.
Qed.

(** One more step that writes no file. *)
Lemma no_file_next {A : Type} (m : IO A) t out t' tr res :
  writes_no_file m -> on_screen out -> t' = t ++ out -> m t' = (tr, res) ->
  exists out', tr = t ++ out' /\ on_screen out'.
Proof.
  intros Hm Ho -> H. destruct (Hm _ _ _ H) as (out' & -> & Ho').
  exists (out ++ out'). split; [now rewrite app_assoc|].
  now apply on_screen_app.
Qed.

(** X12.  [run_analysis] only adds to what is on the screen, and it writes
    its two files last: a run in which a step raises has written no file,
    and a run that completes has written the totals and then the anomalies
    after everything it printed and drew.  ([to_csv] itself is taken to
    succeed.) *)
Theorem run_analysis_writes_last {P : Parsers} (read_csv : string -> result DataFrame)
        (file_path : string) (t tr : list event) (res : result unit) :
  run_analysis read_csv file_path t = (tr, res) ->
  exists shown,
    on_screen shown /\
    match res with
    | Raise _ => tr = t ++ shown
    | Ok _ =>
        exists totals anomalies,
          tr = t ++ shown ++
               [To_csv_series "total_payments_by_vendor.csv" totals;
                To_csv_frame "anomalous_payments.csv" anomalies]
    end.
Proof.
  intros H. unfold run_analysis, load_data in H.
  assert (Hraise : forall e t', (exists out, t' = t ++ out /\ on_screen out) ->
            exists shown, on_screen shown /\
              match Raise e : result unit with
              | Raise _ => t' = t ++ shown
              | Ok _ => exists totals anomalies,
                  t' = t ++ shown ++
                       [To_csv_series "total_payments_by_vendor.csv" totals;
                        To_csv_frame "anomalous_payments.csv" anomalies]
              end).
  { intros e t' (out & -> & Ho). exists out. auto. }
  assert (H0 : on_screen []) by reflexivity.
  assert (E0 : t = t ++ []) by (now rewrite app_nil_r).
  apply io_bind_cases in H as [(e & H & ->)|(raw & t1 & H1 & H)];
    [exact (Hraise e _ (no_file_next _ _ _ _ _ _ (no_file_lift _) H0 E0 H))|].
  destruct (no_file_next _ _ _ _ _ _ (no_file_lift _) H0 E0 H1) as (o1 & E1 & O1).
  apply io_bind_cases in H as [(e & H & ->)|(df & t2 & H2 & H)];
    [exact (Hraise e _ (no_file_next _ _ _ _ _ _ (no_file_lift _) O1 E1 H))|].
  destruct (no_file_next _ _ _ _ _ _ (no_file_lift _) O1 E1 H2) as (o2 & E2 & O2).
  apply io_bind_cases in H as [(e & H & ->)|(u3 & t3 & H3 & H)];
    [exact (Hraise e _ (no_file_next _ _ _ _ _ _ (no_file_summary _) O2 E2 H))|].
  destruct (no_file_next _ _ _ _ _ _ (no_file_summary _) O2 E2 H3) as (o3 & E3 & O3).
  apply io_bind_cases in H as [(e & H & ->)|(totals & t4 & H4 & H)];
    [exact (Hraise e _ (no_file_next _ _ _ _ _ _ (no_file_totals _) O3 E3 H))|].
  destruct (no_file_next _ _ _ _ _ _ (no_file_totals _) O3 E3 H4) as (o4 & E4 & O4).
  apply io_bind_cases in H as [(e & H & ->)|(u5 & t5 & H5 & H)];
    [exact (Hraise e _ (no_file_next _ _ _ _ _ _ (no_file_trend _) O4 E4 H))|].
  destruct (no_file_next _ _ _ _ _ _ (no_file_trend _) O4 E4 H5) as (o5 & E5 & O5).
  apply io_bind_cases in H as [(e & H & ->)|(anomalies & t6 & H6 & H)];
    [exact (Hraise e _ (no_file_next _ _ _ _ _ _ (no_file_anomalies _) O5 E5 H))|].
  destruct (no_file_next _ _ _ _ _ _ (no_file_anomalies _) O5 E5 H6) as (o6 & E6 & O6).
  apply io_bind_cases in H as [(e & H & ->)|(u7 & t7 & H7 & H)];
    [exact (Hraise e _ (no_file_next _ _ _ _ _ _ (no_file_frequency _) O6 E6 H))|].
  destruct (no_file_next _ _ _ _ _ _ (no_file_frequency _) O6 E6 H7) as (o7 & E7 & O7).
  apply io_bind_cases in H as [(e & H & ->)|(u8 & t8 & H8 & H)];
    [exact (Hraise e _ (no_file_next _ _ _ _ _ _ (no_file_heatmap _) O7 E7 H))|].
  destruct (no_file_next _ _ _ _ _ _ (no_file_heatmap _) O7 E7 H8) as (o8 & E8 & O8).
  unfold io_bind, emit in H. injection H as <- <-.
  exists o8. split; [exact O8|]. exists totals, anomalies.
  rewrite E8, <- !app_assoc. reflexivity.
Qed.

Lemma run_analysis_writes_last_witness :
  main (fun _ => Ok Ledger.undated) [] = ([], Raise (KeyError ["RUNDATE"])) /\
  exists shown, on_screen shown /\ [] = [] ++ shown.
Proof.
  refine (conj eq_refl _).
  exact (run_analysis_writes_last (fun _ => Ok Ledger.undated)
           "Vendor_Payments_2019_2025.csv" [] [] (Raise (KeyError ["RUNDATE"]))
           eq_refl).
Defined.

(** X13.  When the file cannot be read, or [clean_data] raises on the
    table read from it, [run_analysis] ends with that exception before it
    has printed anything. *)
Theorem run_analysis_stops_early {P : Parsers} (read_csv : string -> result DataFrame)
        (file_path : string) (e : exn) (t : list event) :
  read_csv file_path = Raise e \/
  (exists raw, read_csv file_path = Ok raw /\ clean_data raw = Raise e) ->
  run_analysis read_csv file_path t = (t, Raise e).
Proof.
  unfold run_analysis, load_data, io_bind, lift.
  intros [H|(raw & H & Hc)]; rewrite H; [reflexivity|]. now rewrite Hc.
Qed.

Lemma run_analysis_stops_early_witness :
  (exists raw, (fun _ : string => Ok Headers.doubled) "ledger.csv" = Ok raw /\
               clean_data raw = Raise ValueError) /\
  run_analysis (fun _ => Ok Headers.doubled) "ledger.csv" [] = ([], Raise ValueError).
Proof.
  assert (H : exists raw, (fun _ : string => Ok Headers.doubled) "ledger.csv" = Ok raw /\
                          clean_data raw = Raise ValueError)
    by (exists Headers.doubled; split; reflexivity).
  refine (conj H _).
  exact (run_analysis_stops_early (fun _ => Ok Headers.doubled) "ledger.csv"
           ValueError [] (or_intror H)).
Defined.

Lemma clean_data_missing {P : Parsers} df name :
  In name ["VENDOR"; "CHKSUBTOT"; "RUNDATE"] ->
  ~ In name (map normalize (columns df)) ->
  exists e, clean_data df = Raise e.
Proof.
  intros Hname Hnot.
  destruct (clean_data df) as [df'|e] eqn:E; [|now exists e].
  exfalso. apply clean_data_ok in E as (iv & ia & id & Ev & Ea & Ed & _).
  assert (Hin : forall n i, positions n (map normalize (columns df)) = [i] ->
                            In n (map normalize (columns df))).
  { intros n i Hi. apply (nth_error_In _ i).
    apply (positions_at _ _ _ Hi). reflexivity. }
  cbn [In] in Hname.
  destruct Hname as [<-|[<-|[<-|[]]]]; apply Hnot; eauto.
Qed.

(** X14.  A file whose header, once normalized, lacks VENDOR, CHKSUBTOT
    or RUNDATE ends [run_analysis] with the exception of [clean_data]:
    nothing is printed, drawn or written. *)
Theorem run_analysis_needs_columns {P : Parsers} (read_csv : string -> result DataFrame)
        (file_path : string) (raw : DataFrame) (name : string) (t : list event) :
  read_csv file_path = Ok raw ->
  In name ["VENDOR"; "CHKSUBTOT"; "RUNDATE"] ->
  ~ In name (map normalize (columns raw)) ->
  exists e, clean_data raw = Raise e /\
            run_analysis read_csv file_path t = (t, Raise e).
Proof.
  intros Hread Hname Hnot.
  destruct (clean_data_missing raw name Hname Hnot) as [e He].
  exists e. split; [exact He|].
  unfold run_analysis, load_data, io_bind, lift. now rewrite Hread, He.
Qed.

Lemma run_analysis_needs_columns_witness :
  In "RUNDATE" ["VENDOR"; "CHKSUBTOT"; "RUNDATE"] /\
  ~ In "RUNDATE" (map normalize (columns Ledger.undated)) /\
  exists e, clean_data Ledger.undated = Raise e /\
            main (fun _ => Ok Ledger.undated) [] = ([], Raise e).
Proof.
  assert (Hin : In "RUNDATE" ["VENDOR"; "CHKSUBTOT"; "RUNDATE"])
    by (cbn [In]; auto).
  assert (Hnot : ~ In "RUNDATE" (map normalize (columns Ledger.undated)))
    by (vm_compute; intuition discriminate).
  refine (conj Hin (conj Hnot _)).
  exact (run_analysis_needs_columns (fun _ => Ok Ledger.undated)
           "Vendor_Payments_2019_2025.csv" Ledger.undated "RUNDATE" []
           eq_refl Hin Hnot).
Defined.

(** ** The cross-tabulation loses no payment *)

Lemma group_keys_once y keys :
  In y keys -> notnull y = true ->
  length (filter (fun k => value_eqb k y) (group_keys keys)) = 1.
Proof.
  intros Hy Hn. unfold group_keys.
  rewrite (filter_length_perm _ _ _ (sort_perm value_leb _)).
  apply distinct_once. apply filter_In. auto.
Qed.

Lemma fillna_pair_sum v d obs :
  fillna 0%Q (pair_sum v d obs) =
  Qsum (numbers (map (fun o => snd (snd o))
          (filter (fun o => value_eqb v (fst o) && value_eqb d (fst (snd o))) obs))).
Proof.
  unfold pair_sum.
  destruct (filter (fun o => value_eqb v (fst o) && value_eqb d (fst (snd o))) obs);
    reflexivity.
Qed.

(** One row of the cross-tabulation adds up to the amounts observed for
    its vendor. *)
Lemma pair_sums_row v (obs : list (value * (value * value))) :
  (forall o, In o obs -> notnull (fst (snd o)) = true) ->
  (Qsum (map (fun d => fillna 0%Q (pair_sum v d obs))
             (group_keys (map (fun o => fst (snd o)) obs))) ==
   Qsum (numbers (map (fun o => snd (snd o))
           (filter (fun o => value_eqb v (fst o)) obs))))%Q.
Proof.
  intros Hobs.
  set (L := map snd (filter (fun o => value_eqb v (fst o)) obs)).
  rewrite (Qsum_map_ext _
             (fun d => Qsum (numbers (map snd
                (filter (fun kv => value_eqb d (fst kv)) L))))).
  - rewrite sum_by_group.
    + unfold L. now rewrite map_map.
    + intros kv Hkv. unfold L in Hkv. apply in_map_iff in Hkv as [o [<- Ho]].
      apply filter_In in Ho as [Ho _].
      apply group_keys_once; [|now apply Hobs].
      apply in_map_iff. exists o. auto.
  - intros d _. rewrite fillna_pair_sum. unfold L.
    rewrite <- filter_twice, filter_map_comm, map_map. reflexivity.
Qed.

(** All rows of the cross-tabulation add up to the amounts observed. *)
Lemma pair_sums_all (obs : list (value * (value * value))) :
  (forall o, In o obs -> notnull (fst o) = true /\ notnull (fst (snd o)) = true) ->
  (Qsum (map (fun v => Qsum (map (fun d => fillna 0%Q (pair_sum v d obs))
                                 (group_keys (map (fun o => fst (snd o)) obs))))
             (group_keys (map fst obs))) ==
   Qsum (numbers (map (fun o => snd (snd o)) obs)))%Q.
Proof.
  intros Hobs.
  set (L := map (fun o => (fst o, snd (snd o))) obs).
  rewrite (Qsum_map_ext _
             (fun v => Qsum (numbers (map snd
                (filter (fun kv => value_eqb v (fst kv)) L))))).
  - rewrite sum_by_group.
    + unfold L. now rewrite map_map.
    + intros kv Hkv. unfold L in Hkv. apply in_map_iff in Hkv as [o [<- Ho]].
      cbn [fst]. apply group_keys_once; [now apply in_map|now apply Hobs].
  - intros v _. rewrite pair_sums_row by (intros o Ho; now apply Hobs).
    unfold L. rewrite filter_map_comm, map_map. reflexivity.
Qed.

Lemma heatmap_pivot df iv ia id ip t :
  Cleaned df iv ia id ->
  positions "DEPARTMENT" (columns df) = [ip] ->
  department_vendor_heatmap df t =
  heatmap (pivot_head 20 (pivot_table (map (cell iv) (rows df))
                                      (map (cell ip) (rows df))
                                      (map (cell ia) (rows df)))) t.
Proof.
  intros C Ep. unfold department_vendor_heatmap.
  rewrite (has_column_at _ _ _ Ep). unfold io_bind, lift.
  rewrite (series_of_at _ _ _ _ (vendor_at _ _ _ _ C)).
  rewrite (series_of_at _ _ _ _ Ep).
  rewrite (series_of_at _ _ _ _ (amount_at _ _ _ _ C)).
  cbn [bind snd]. rewrite (cleaned_numeric _ _ _ _ C). reflexivity.
Qed.

(** X15.  The cross-tabulation that [department_vendor_heatmap] builds
    on a cleaned table loses no payment that has a department: the cells
    of a vendor's row add up to the amounts of that vendor's rows with a
    department, and all cells together to the amounts of all rows with a
    department. *)
Theorem department_vendor_heatmap_sums (df : DataFrame) (iv ia id ip : nat) :
  Cleaned df iv ia id ->
  positions "DEPARTMENT" (columns df) = [ip] ->
  exists pivot,
    (forall t, department_vendor_heatmap df t = heatmap (pivot_head 20 pivot) t) /\
    length (pv_data pivot) = length (pv_index pivot) /\
    (forall i v, nth_error (pv_index pivot) i = Some v ->
       length (nth i (pv_data pivot) []) = length (pv_columns pivot) /\
       (Qsum (nth i (pv_data pivot) []) ==
        Qsum (amounts ia (filter (fun r => value_eqb v (cell iv r) &&
                                           notnull (cell ip r))
                                 (rows df))))%Q) /\
    (Qsum (map Qsum (pv_data pivot)) ==
     Qsum (amounts ia (filter (fun r => notnull (cell ip r)) (rows df))))%Q.
Proof.
  intros C Ep. eexists.
  split; [intros t; exact (heatmap_pivot df iv ia id ip t C Ep)|].
  unfold pivot_table. cbn [pv_index pv_data pv_columns].
  rewrite (pivot_observed df iv ia ip).
  set (placed := fun r => notnull (cell iv r) && notnull (cell ip r)).
  set (triple := fun r : Row => (cell iv r, (cell ip r, cell ia r))).
  set (obs := map triple (filter placed (rows df))).
  assert (Hobs : forall o, In o obs ->
                   notnull (fst o) = true /\ notnull (fst (snd o)) = true).
  { intros o Ho. unfold obs in Ho. apply in_map_iff in Ho as [r [<- Hr]].
    apply filter_In in Hr as [_ Hr]. unfold placed in Hr.
    now apply andb_prop in Hr. }
  split; [apply length_map|]. split.
  - intros i v Hi.
    rewrite (nth_map_at _ _ i v [] Hi). split; [apply length_map|].
    rewrite pair_sums_row by (intros o Ho; now apply Hobs).
    unfold obs, amounts.
    rewrite filter_map_comm, map_map, filter_twice. cbn [triple fst snd].
    rewrite (filter_ext_in _ (fun r => value_eqb v (cell iv r) &&
                                       notnull (cell ip r))); [reflexivity|].
    intros r Hr. unfold placed.
    rewrite (placed_spec df iv ia id ip C r Hr). apply andb_comm.
  - rewrite map_map. rewrite pair_sums_all by exact Hobs.
    unfold obs, amounts. rewrite map_map. cbn [triple snd].
    rewrite (filter_ext_in placed (fun r => notnull (cell ip r)));
      [reflexivity|].
    intros r Hr. exact (placed_spec df iv ia id ip C r Hr).
Qed.

Lemma department_vendor_heatmap_sums_witness :
  Cleaned Ledger.cleaned 0 1 2 /\
  positions "DEPARTMENT" (columns Ledger.cleaned) = [3] /\
  exists pivot,
    (forall t, department_vendor_heatmap Ledger.cleaned t =
               heatmap (pivot_head 20 pivot) t) /\
    (Qsum (map Qsum (pv_data pivot)) ==
     Qsum (amounts 1 (filter (fun r => notnull (cell 3 r)) (rows Ledger.cleaned))))%Q.
Proof.
  assert (Hp : positions "DEPARTMENT" (columns Ledger.cleaned) = [3])
    by reflexivity.
  refine (conj cleaned_Cleaned (conj Hp _)).
  destruct (department_vendor_heatmap_sums Ledger.cleaned 0 1 2 3
              cleaned_Cleaned Hp) as (pivot & Hrun & _ & _ & Hall).
  exists pivot. auto.
Defined.

(** ** A run that completes *)

Lemma heatmap_drawn df iv ia id ip t :
  Cleaned df iv ia id ->
  positions "DEPARTMENT" (columns df) = [ip] ->
  (exists r, In r (rows df) /\ notnull (cell ip r) = true) ->
  exists data, department_vendor_heatmap df t = (t ++ [Show_heatmap data], Ok tt).
Proof.
  intros C Ep [r [Hr Hd]]. rewrite (heatmap_pivot df iv ia id ip t C Ep).
  unfold heatmap, pivot_head. cbn [pv_index].
  assert (Hin : In (cell iv r)
                   (pv_index (pivot_table (map (cell iv) (rows df))
                                          (map (cell ip) (rows df))
                                          (map (cell ia) (rows df)))))
    by (apply (pivot_index_spec df iv ia id ip C); eauto).
  destruct (pv_index _) as [|v vs]; [contradiction|]. eexists. reflexivity.
Qed.

Lemma heatmap_skipped df t :
  ~ In "DEPARTMENT" (columns df) -> department_vendor_heatmap df t = (t, Ok tt).
Proof.
  intros Hnot. unfold department_vendor_heatmap.
  destruct (has_column "DEPARTMENT" df) eqn:E; [|reflexivity].
  apply has_column_spec in E. contradiction.
Qed.

(** X16.  When the file is read, [clean_data] returns a table with at
    least one row, and that table has no DEPARTMENT column, or one in which
    some row has a department, [run_analysis] completes.  It prints the
    summary, the totals, draws the trend, prints the threshold and the
    frequencies, draws the heatmap if there are departments, and writes
    the totals and the anomalies, in this order. *)
Theorem run_analysis_completes {P : Parsers} (HP : ParsersOk P)
        (read_csv : string -> result DataFrame) (file_path : string)
        (raw df : DataFrame) (t : list event) :
  read_csv file_path = Ok raw ->
  clean_data raw = Ok df ->
  rows df <> [] ->
  ~ In "DEPARTMENT" (columns df) \/
  (exists ip r, positions "DEPARTMENT" (columns df) = [ip] /\
                In r (rows df) /\ notnull (cell ip r) = true) ->
  exists totals monthly threshold anomalies freq heat,
    run_analysis read_csv file_path t =
    (t ++ [Print_text "Dataset Summary:"; Print_describe df;
           Print_text (newline ++ "Missing values per column:" ++ newline);
           Print_missing (isnull_sum df);
           Print_text (newline ++ "Top 10 Vendors by Total Payments:");
           Print_totals (firstn 20 totals);
           Show_trend monthly;
           Print_threshold (Some threshold) (length (rows anomalies));
           Print_text (newline ++ "Vendors by Payment Frequency:");
           Print_counts (firstn 20 freq)]
       ++ heat
       ++ [To_csv_series "total_payments_by_vendor.csv" totals;
           To_csv_frame "anomalous_payments.csv" anomalies],
     Ok tt) /\
    vendor_totals df = Ok totals /\
    outliers_of df = Ok (Some threshold, anomalies) /\
    (~ In "DEPARTMENT" (columns df) -> heat = []) /\
    (In "DEPARTMENT" (columns df) -> exists data, heat = [Show_heatmap data]).
Proof.
  intros Hread Hclean Hne Hdept.
  destruct (clean_data_Cleaned raw df Hclean) as (iv & ia & id & C).
  destruct (cleaned_columns _ _ _ _ C) as (c & cs & Ecols).
  pose proof (vendor_totals_cleaned _ _ _ _ C) as Ht.
  pose proof (amounts_length _ _ _ _ C) as Hlen.
  assert (Hnums : amounts ia (rows df) <> []).
  { intros E. rewrite E in Hlen. destruct (rows df); [congruence|discriminate]. }
  destruct (quantile_linear (99 # 100) (amounts ia (rows df)))
    as [threshold [Hq _]]; try assumption; try discriminate.
  pose proof (outliers_of_cleaned _ _ _ _ C) as Hout. rewrite Hq in Hout.
  assert (Hheat : exists heat,
            (forall t', department_vendor_heatmap df t' = (t' ++ heat, Ok tt)) /\
            (~ In "DEPARTMENT" (columns df) -> heat = []) /\
            (In "DEPARTMENT" (columns df) -> exists data, heat = [Show_heatmap data])).
  { destruct Hdept as [Hnot|(ip & r & Ep & Hr & Hd)].
    - exists []. split; [|split].
      + intros t'. rewrite app_nil_r. now apply heatmap_skipped.
      + reflexivity.
      + intros Hin. contradiction.
    - assert (Hrun : forall t', department_vendor_heatmap df t' =
                (t' ++ [Show_heatmap
                          (pivot_head 20 (pivot_table (map (cell iv) (rows df))
                                                      (map (cell ip) (rows df))
                                                      (map (cell ia) (rows df))))],
                 Ok tt)).
      { intros t'. rewrite (heatmap_pivot df iv ia id ip t' C Ep).
        destruct (heatmap_drawn df iv ia id ip t' C Ep) as [data Hdata]; [eauto|].
        rewrite (heatmap_pivot df iv ia id ip t' C Ep) in Hdata.
        unfold heatmap in *.
        destruct (pv_index (pivot_head 20 _)); [discriminate|reflexivity]. }
      eexists. split; [exact Hrun|]. split.
      + intros Hnot. exfalso. apply Hnot.
        apply (nth_error_In _ ip). now apply (positions_at _ _ _ Ep).
      + intros _. eexists. reflexivity. }
  destruct Hheat as (heat & Hrun & Hnone & Hsome).
  eexists. eexists. exists threshold. eexists. eexists. exists heat.
  split; [|split; [exact Ht|split; [exact Hout|split; [exact Hnone|exact Hsome]]]].
  unfold run_analysis, load_data.
  rewrite (io_bind_run _ _ t t raw) by (unfold lift; now rewrite Hread).
  rewrite (io_bind_run _ _ t t df) by (unfold lift; now rewrite Hclean).
  rewrite (io_bind_run _ _ _ _ _ (generate_summary_run df c cs _ Ecols)).
  rewrite (io_bind_run _ _ _ _ _ (total_payments_by_vendor_run _ _ _ Ht)).
  rewrite (io_bind_run _ _ _ _ _ (monthly_trend_run df iv ia id C _ Hne)).
  rewrite (io_bind_run _ _ _ _ _ (detect_anomalies_run _ _ _ _ Hout)).
  rewrite (io_bind_run _ _ _ _ _
             (payment_frequency_run df iv _ (vendor_at _ _ _ _ C))).
  rewrite (io_bind_run _ _ _ _ _ (Hrun _)).
  unfold io_bind, emit. rewrite <- !app_assoc. reflexivity.
Qed.

Lemma run_analysis_completes_witness :
  clean_data Ledger.raw = Ok Ledger.cleaned /\
  rows Ledger.cleaned <> [] /\
  (exists ip r, positions "DEPARTMENT" (columns Ledger.cleaned) = [ip] /\
                In r (rows Ledger.cleaned) /\ notnull (cell ip r) = true) /\
  exists tr, main (fun _ => Ok Ledger.raw) [] = (tr, Ok tt) /\ length tr = 13.
Proof.
  assert (Hne : rows Ledger.cleaned <> []) by discriminate.
  assert (Hd : exists ip r, positions "DEPARTMENT" (columns Ledger.cleaned) = [ip] /\
                            In r (rows Ledger.cleaned) /\ notnull (cell ip r) = true).
  { exists 3, (mkRow 5 [VStr "Globex"; VNum 40; VDate (mkTimestamp 2024 3 10 0);
                        VStr "Roads"]).
    split; [reflexivity|]. split; [cbn [rows Ledger.cleaned In]; auto|reflexivity]. }
  refine (conj raw_cleaned (conj Hne (conj Hd _))).
  destruct (run_analysis_completes iso_parsers_ok (fun _ => Ok Ledger.raw)
              "Vendor_Payments_2019_2025.csv" Ledger.raw Ledger.cleaned []
              eq_refl raw_cleaned Hne (or_intror Hd))
    as (totals & monthly & threshold & anomalies & freq & heat & Hrun & _ & _ & _ & Hsome).
  destruct Hsome as [data ->]; [cbn [columns Ledger.cleaned In]; auto|].
  eexists. split; [exact Hrun|reflexivity].
Defined.

(** ** The table that was passed to clean_data *)

Section Argument.
Context {P : Parsers} {HP : ParsersOk P}.

Lemma coerce_fields_argument df p :
  coerce_fields df = Ok p -> clean_data_argument df = p.
Proof.
  unfold coerce_fields, clean_data_argument. cbn zeta.
  destruct (parse_rundate (rename_columns df)) as [d|e]; [|discriminate].
  cbn [bind]. now intros ->.
Qed.

Lemma coerce_fields_returns df iv id :
  let cols := map normalize (columns df) in
  positions "VENDOR" cols = [iv] ->
  positions "RUNDATE" cols = [id] ->
  str_accessor_ok (map (cell iv) (map (with_rundate cols) (dated_rows id df))) = true ->
  coerce_fields df =
  Ok (mkDF cols (map (fun rd => with_vendor cols iv (with_rundate cols rd))
                     (dated_rows id df))).
Proof.
  intros cols Ev Ed Acc.
  assert (Hv : forall rs, has_column "VENDOR" (mkDF cols rs) = true)
    by (intros rs; now apply (has_column_at _ (mkDF cols rs) iv)).
  assert (Hd : forall rs, has_column "RUNDATE" (mkDF cols rs) = true)
    by (intros rs; now apply (has_column_at _ (mkDF cols rs) id)).
  unfold coerce_fields, parse_rundate, rename_columns.
  fold cols. rewrite Hd, (getitem_at _ (mkDF cols (rows df)) id Ed). cbn [bind].
  rewrite setitem_present by apply Hd. cbn [columns rows].
  unfold clean_vendor.
  rewrite (getitem_at _ (mkDF cols _) iv Ev). cbn [bind rows].
  fold (dated_rows id df).
  change (fun rv : Row * value => assign cols "RUNDATE" (snd rv) (fst rv))
    with (with_rundate cols).
  rewrite Acc.
  rewrite setitem_present by apply Hv. cbn [columns rows].
  rewrite vendor_stage, map_map. reflexivity.
Qed.

Lemma clean_vendor_columns df p :
  clean_vendor df = Ok p -> columns p = columns df.
Proof. intros H. apply clean_vendor_ok in H as (iv & _ & _ & ->). reflexivity. Qed.

Lemma parse_rundate_labels df p :
  parse_rundate df = Ok p -> map label (rows p) = map label (rows df).
Proof.
  intros H. apply parse_rundate_ok in H as [[_ ->]|[id [_ ->]]]; [reflexivity|].
  cbn [rows]. rewrite map_map. apply (dated_rows_labels id df).
Qed.

Lemma clean_vendor_labels df p :
  clean_vendor df = Ok p -> map label (rows p) = map label (rows df).
Proof.
  intros H. apply clean_vendor_ok in H as (iv & _ & _ & ->).
  cbn [rows]. rewrite map_map. reflexivity.
Qed.

Lemma argument_columns df :
  columns (clean_data_argument df) = map normalize (columns df).
Proof.
  unfold clean_data_argument. cbn zeta.
  destruct (parse_rundate (rename_columns df)) as [d|e] eqn:E1; [|reflexivity].
  apply parse_rundate_columns in E1.
  destruct (clean_vendor d) as [v|e] eqn:E2; [|exact E1].
  apply clean_vendor_columns in E2. now rewrite E2.
Qed.

Lemma argument_labels df :
  map label (rows (clean_data_argument df)) = map label (rows df).
Proof.
  unfold clean_data_argument. cbn zeta.
  destruct (parse_rundate (rename_columns df)) as [d|e] eqn:E1; [|reflexivity].
  apply parse_rundate_labels in E1. cbn [rename_columns rows] in E1.
  destruct (clean_vendor d) as [v|e] eqn:E2; [|exact E1].
  apply clean_vendor_labels in E2. now rewrite E2.
Qed.

End Argument.

(** X17.  [clean_data] changes the table it is given.  After a call
    that returns, each row of the caller's table has text for the vendor
    where it had text (stripped and title-cased, when the text is ASCII)
    and NaN where it had none, the run date parsed (NaT where it was no
    date), and the amount as it was: the rows are dropped and the amounts
    made numeric in the table that is returned, not in the caller's.  The
    returned table is what lines 36 to 42 make of the caller's. *)
Theorem clean_data_modifies_argument {P : Parsers} (HP : ParsersOk P)
        (df df' : DataFrame) :
  rectangular df ->
  clean_data df = Ok df' ->
  (d1 <- dropna ["VENDOR"; "CHKSUBTOT"; "RUNDATE"] (clean_data_argument df) ;;
   d2 <- coerce_amount d1 ;;
   dropna ["CHKSUBTOT"] d2) = Ok df' /\
  length (rows df') <= length (rows (clean_data_argument df)) /\
  exists iv ia id,
    positions "VENDOR" (map normalize (columns df)) = [iv] /\
    positions "CHKSUBTOT" (map normalize (columns df)) = [ia] /\
    positions "RUNDATE" (map normalize (columns df)) = [id] /\
    forall a, In a (rows (clean_data_argument df)) ->
      exists r d, In (r, d) (dated_rows id df) /\
        label a = label r /\
        (forall s, cell iv r = VStr s ->
           is_str (cell iv a) = true /\
           (PyStr.ascii_text s = true ->
            cell iv a = VStr (PyStr.title (PyStr.strip s)))) /\
        (is_str (cell iv r) = false -> cell iv a = VNull) /\
        cell id a = d /\
        cell ia a = cell ia r.
Proof.
  intros Hrect H. pose proof H as Hok. apply clean_data_ok in Hok.
  destruct Hok as (iv & ia & id & Ev & Ea & Ed & Acc & Hres).
  pose proof (coerce_fields_returns df iv id Ev Ed Acc) as Hc.
  pose proof (coerce_fields_argument df _ Hc) as Harg.
  split; [|split].
  - unfold clean_data in H. rewrite Hc in H. cbn [bind] in H.
    rewrite Harg. exact H.
  - rewrite Hres, Harg. cbn [rows]. rewrite length_map.
    apply cleaned_rows_length.
  - exists iv, ia, id. refine (conj Ev (conj Ea (conj Ed _))).
    rewrite Harg. cbn [rows]. intros a Ha.
    apply in_map_iff in Ha as [[r d] [<- Hrd]]. exists r, d.
    assert (L : length (cells (fst (r, d))) = length (map normalize (columns df))).
    { rewrite length_map. apply Hrect. exact (in_combine_l _ _ _ _ Hrd). }
    pose proof (vendor_staged_full _ iv id Ev Ed (r, d) L) as Hv.
    cbn [fst] in Hv.
    split; [exact Hrd|]. split; [reflexivity|].
    split; [|split; [|split]].
    + intros s Es. rewrite Hv, Es. split; [reflexivity|]. intros _. reflexivity.
    + intros Hs. rewrite Hv. now destruct (cell iv r).
    + exact (rundate_staged_full _ iv id Ev Ed (r, d) L).
    + exact (amount_staged _ iv ia id Ev Ea Ed (r, d)).
Qed.

Lemma clean_data_modifies_argument_witness :
  rectangular Ledger.raw /\
  clean_data Ledger.raw = Ok Ledger.cleaned /\
  (d1 <- dropna ["VENDOR"; "CHKSUBTOT"; "RUNDATE"] (clean_data_argument Ledger.raw) ;;
   d2 <- coerce_amount d1 ;;
   dropna ["CHKSUBTOT"] d2) = Ok Ledger.cleaned /\
  length (rows Ledger.cleaned) <= length (rows (clean_data_argument Ledger.raw)).
Proof.
  refine (conj raw_rectangular (conj raw_cleaned _)).
  destruct (clean_data_modifies_argument iso_parsers_ok Ledger.raw Ledger.cleaned
              raw_rectangular raw_cleaned) as (Hres & Hlen & _).
  exact (conj Hres Hlen).
Defined.

(** X18.  Whether the call returns or raises, [clean_data] leaves the
    caller's table with the normalized column names and with the rows it
    had, in their order: a call that fails has renamed the columns all the
    same, and no call removes a row from the table it was given. *)
Theorem clean_data_argument_renamed {P : Parsers} (HP : ParsersOk P) (df : DataFrame) :
  columns (clean_data_argument df) = map normalize (columns df) /\
  map label (rows (clean_data_argument df)) = map label (rows df).
Proof. split; [apply argument_columns|apply argument_labels]. Qed.

Lemma clean_data_argument_renamed_witness :
  clean_data Ledger.undated = Raise (KeyError ["RUNDATE"]) /\
  columns (clean_data_argument Ledger.undated) =
  map normalize (columns Ledger.undated) /\
  map label (rows (clean_data_argument Ledger.undated)) =
  map label (rows Ledger.undated).
Proof.
  refine (conj eq_refl _).
  exact (clean_data_argument_renamed iso_parsers_ok Ledger.undated).
Defined.

(** A call that raises for the missing run date, and the caller's table
    after it. *)
Example undated_argument :
  clean_data Ledger.undated = Raise (KeyError ["RUNDATE"]) /\
  clean_data_argument Ledger.undated =
  mkDF ["VENDOR"; "CHKSUBTOT"; "DEPARTMENT"]
       [ mkRow 0 [VStr "Globex"; VNum 40; VStr "Roads"] ].
Proof. split; reflexivity. Qed.
